(** * Access-recertification analytics: a shallow embedding

    The development follows the Python sources under [src/analytics]:
    [peer_proximity.py], [clustering.py], [assurance.py] and [engine.py].

    Conventions of the embedding.
    - A Python [float] is an exact rational in canonical form ([Qc]), so that
      structural equality of results is Leibniz equality.  Rounding error of
      binary64 arithmetic is not represented.
    - A [str] is a [string]; [str.upper] is the ASCII upper-casing.
    - A [dict] keyed by strings whose iteration order is irrelevant is a
      [gmap string _]; a [set] of strings is a [gset string]; a [dict] whose
      insertion order is observed is an association list.
    - An [Optional[T]] field (or a nullable database column) is an [option].
    - A raised exception is [None] of an [option] result.
    - Functions of numpy, scikit-learn, networkx and [datetime] are taken as
      parameters, collected in the record [External.Externals]; what a run
      observes of its process (the clock, the iteration order of sets) is
      the record [External.Runtime]. *)

From Stdlib Require Import QArith Qcanon Qround Lqa ZArith String Ascii.
From stdpp Require Import gmap strings list fin_maps pretty sorting.

Local Open Scope string_scope.
Local Open Scope list_scope.
Local Open Scope Z_scope.

(** ** Numbers *)

Module Num.

(** A float literal. *)
Definition fl (x : Q) : Qc := Q2Qc x.

(** [float(n)] for an [int]. *)
Definition of_int (n : Z) : Qc := Qc_of_Z n.

Definition leb (x y : Qc) : bool := Qle_bool x y.
Definition ltb (x y : Qc) : bool := negb (Qle_bool y x).
Definition eqb (x y : Qc) : bool := Qeq_bool x y.

Definition fmin (x y : Qc) : Qc := if leb x y then x else y.
Definition fmax (x y : Qc) : Qc := if leb y x then x else y.

(** Nearest integer, ties to the even one. *)
Definition round_half_even (x : Qc) : Z :=
  let f := Qfloor x in
  let d := (x - of_int f)%Qc in
  if ltb d (fl 0.5) then f
  else if ltb (fl 0.5) d then f + 1
  else if Z.even f then f else f + 1.

(** [round(x, ndigits)]. *)
Definition py_round (x : Qc) (ndigits : nat) : Qc :=
  let s := of_int (10 ^ Z.of_nat ndigits) in
  (of_int (round_half_even (x * s)) / s)%Qc.

(** [sum(xs)] and [np.mean(xs)]; every call of [np.mean] in the sources is
    guarded by a test that the list is not empty. *)
Definition fsum (xs : list Qc) : Qc := foldr Qcplus (fl 0) xs.

Definition mean (xs : list Qc) : Qc :=
  (fsum xs / of_int (Z.of_nat (length xs)))%Qc.

End Num.

(** ** Strings *)

Module Str.

Definition upper_char (c : ascii) : ascii :=
  let n := nat_of_ascii c in
  if ((97 <=? n) && (n <=? 122))%nat then ascii_of_nat (n - 32) else c.

(** [s.upper()] *)
Fixpoint upper (s : string) : string :=
  match s with
  | EmptyString => EmptyString
  | String c s' => String (upper_char c) (upper s')
  end.

(** The string holds ASCII characters only; on such strings [upper] is
    Python's [str.upper]. *)
Fixpoint is_ascii (s : string) : bool :=
  match s with
  | EmptyString => true
  | String c s' => (nat_of_ascii c <? 128)%nat && is_ascii s'
  end.

(** Truth value of a string: non-empty. *)
Definition truthy (s : string) : bool :=
  match s with EmptyString => false | _ => true end.

(** Truth value of an [Optional[str]]. *)
Definition otruthy (o : option string) : bool :=
  match o with Some s => truthy s | None => false end.

(** [s.startswith(p)] *)
Fixpoint startswith (p s : string) : bool :=
  match p, s with
  | EmptyString, _ => true
  | String a p', String b s' => Ascii.eqb a b && startswith p' s'
  | String _ _, EmptyString => false
  end.

End Str.

(** ** Insertion-ordered dictionaries *)

Module ODict.

(** [d.get(k)] *)
Fixpoint get {K V} `{EqDecision K} (k : K) (d : list (K * V)) : option V :=
  match d with
  | [] => None
  | (k', v) :: d' => if decide (k' = k) then Some v else get k d'
  end.

(** [d[k] = v]: a present key keeps its position, a new one goes last. *)
Fixpoint set {K V} `{EqDecision K} (k : K) (v : V) (d : list (K * V))
    : list (K * V) :=
  match d with
  | [] => [(k, v)]
  | (k', v') :: d' =>
    if decide (k' = k) then (k', v) :: d' else (k', v') :: set k v d'
  end.

End ODict.

(** ** Library functions

    What the sources call in numpy, scikit-learn, networkx and [datetime].
    A result [None] stands for a raised exception. *)

Module External.

(** An [n] x [n] numpy array of floats, by rows. *)
Abbreviation Matrix := (list (list Qc)).

(** A [datetime]: its calendar year and month, and its position, in
    microseconds, on the UTC time line when it carries a [tzinfo] and on
    the local wall clock when it is naive. *)
Record datetime := {
  dt_year : Z;
  dt_month : Z;
  dt_aware : bool;
  dt_micros : Z
}.

(** A [networkx.Graph]: the adjacency dictionary of dictionaries, in
    insertion order, with the edge weights. *)
Definition Graph : Type := list (string * list (string * Qc)).

Record Externals := {
  (** [np.exp] and [np.sqrt] (the latter inside [np.linalg.norm]). *)
  np_exp : Qc -> Qc;
  np_sqrt : Qc -> Qc;
  (** [datetime.fromisoformat]; [None] is [ValueError]. *)
  fromisoformat : string -> option datetime;
  (** [KMeans(n_clusters, random_state, n_init)] fitted on a matrix:
      the labels of [fit_predict] and the distances of [transform]. *)
  KMeans : Z -> Z -> Z -> Matrix -> option (list Z * Matrix);
  (** [AgglomerativeClustering(n_clusters, metric='precomputed',
      linkage='average').fit_predict]. *)
  AgglomerativeClustering : Z -> Matrix -> option (list Z);
  (** [DBSCAN(eps, min_samples, metric='precomputed').fit_predict]. *)
  DBSCAN_fit_predict : Qc -> Z -> Matrix -> option (list Z);
  (** [silhouette_score(X, labels, metric='precomputed')]. *)
  silhouette_score : Matrix -> list Z -> option Qc;
  (** [louvain_communities(G, weight, resolution, seed)]; the outer [None]
      is a failed [import networkx]. *)
  louvain_communities :
    option (Graph -> Qc -> Z -> option (list (gset string)))
}.

(** What a run observes of the process it runs in. *)

(** One reading of the system clock: [datetime.now(tz)] and
    [datetime.now()], as positions on the same two time lines. *)
Record ClockReading := {
  now_utc : Z;
  now_local : Z
}.

Record Runtime := {
  (** The [k]-th reading of the system clock during a run. *)
  clock : nat -> ClockReading;
  (** [list(s)] for a set of strings: the iteration order of the set,
      which follows the string hashes of the interpreter. *)
  list_of_set : gset string -> list string
}.

End External.

(** ** The input snapshot

    Rows of the tables read by [AnalyticsEngine.load_data], with the columns
    the analytics use.  Text columns that the code tests for [None] are
    optional; integer columns are taken as non-null. *)

Module Data.

Record Employee := {
  e_id : string;
  e_manager_id : option string;
  e_team_id : option string;
  e_location_id : option string;
  e_cost_center_id : option string;
  e_job_title : option string;
  e_job_code : option string;
  e_job_family : option string;
  e_job_level : Z;
  e_hire_date : option string;
  e_role_start_date : option string
}.

Record Team := {
  t_id : string;
  t_sub_lob_id : option string;
  t_lob_id : option string
}.

Record SubLob := {
  s_id : string;
  s_lob_id : option string
}.

Record Lob := {
  l_id : string;
  l_name : option string
}.

Record Resource := {
  r_id : string;
  r_sensitivity : option string;
  r_name : option string
}.

Record AccessGrant := {
  g_id : string;
  g_employee_id : string;
  g_resource_id : string
}.

Record ActivitySummary := {
  a_employee_id : string;
  a_resource_id : string;
  a_total_access_count : Z;
  a_last_accessed : option string;
  a_access_count_30d : Z;
  a_access_count_90d : Z;
  a_days_since_grant : Z;
  a_days_since_last_use : option Z
}.

End Data.

(** ** peer_proximity.py *)

Module PeerProximity.
Import Num External.

Record ProximityWeights := {
  structural : Qc;
  functional : Qc;
  behavioral : Qc;
  temporal : Qc
}.

Definition default_ProximityWeights : ProximityWeights := {|
  structural := fl 0.25;
  functional := fl 0.35;
  behavioral := fl 0.30;
  temporal := fl 0.10
|}.

Definition total (w : ProximityWeights) : Qc :=
  (structural w + functional w + behavioral w + temporal w)%Qc.

(** [abs(x)] *)
Definition fabs (x : Qc) : Qc := if ltb x (fl 0) then (- x)%Qc else x.

Definition validate (w : ProximityWeights) : bool :=
  ltb (fabs (total w - fl 1.0)) (fl 0.001).

Definition normalize (w : ProximityWeights) : ProximityWeights :=
  if eqb (total w) (fl 0) then default_ProximityWeights
  else {| structural := (structural w / total w)%Qc;
          functional := (functional w / total w)%Qc;
          behavioral := (behavioral w / total w)%Qc;
          temporal := (temporal w / total w)%Qc |}.

(** [self.weights] as [PeerProximityCalculator.__init__] leaves it. *)
Definition init_weights (weights : option ProximityWeights) : ProximityWeights :=
  let w := default default_ProximityWeights weights in
  if validate w then w else normalize w.

Record EmployeeFeatures := {
  employee_id : string;
  manager_id : option string;
  team_id : option string;
  sub_lob_id : option string;
  lob_id : option string;
  location_id : option string;
  job_title : option string;
  job_code : option string;
  job_family : option string;
  job_level : Z;
  cost_center_id : option string;
  access_set : gset string;
  activity_vector : gmap string Qc;
  tenure_days : Z;
  time_in_role_days : Z;
  hire_quarter : string
}.

(** [a and a == b] for two optional strings. *)
Definition same (a b : option string) : bool :=
  Str.otruthy a && bool_decide (a = b).

(** [l.index(x) if x in l else 999] *)
Fixpoint index_opt (x : string) (l : list string) : option Z :=
  match l with
  | [] => None
  | y :: l' => if decide (y = x) then Some 0 else Z.succ <$> index_opt x l'
  end.

Definition index_of (x : string) (l : list string) : Z :=
  default 999 (index_opt x l).

Section Calculator.
Variable ext : Externals.
(** [self.weights] *)
Variable weights : ProximityWeights.

(** The manager-distance term of the structural proximity. *)
Definition manager_distance_term (emp_a emp_b : EmployeeFeatures)
    (manager_chains : option (gmap string (list string))) : Qc :=
  match manager_chains with
  | None => fl 0
  | Some chains =>
    if bool_decide (chains = ∅) then fl 0
    else
      let chain_a := default [] (chains !! employee_id emp_a) in
      let chain_b := default [] (chains !! employee_id emp_b) in
      let common : gset string := list_to_set chain_a ∩ list_to_set chain_b in
      let min_dist :=
        foldr (fun ancestor best =>
                 let d := index_of ancestor chain_a + index_of ancestor chain_b in
                 match best with
                 | None => Some d
                 | Some m => Some (Z.min m d)
                 end) None (elements common) in
      match min_dist with
      | Some d => (fl 0.2 * (fl 1.0 / (fl 1.0 + of_int d)))%Qc
      | None => fl 0
      end
  end.

Definition calculate_structural_proximity (emp_a emp_b : EmployeeFeatures)
    (manager_chains : option (gmap string (list string))) : Qc :=
  let score := fl 0.0 in
  let score := if same (manager_id emp_a) (manager_id emp_b)
               then (score + fl 0.3)%Qc else score in
  let score := (score + manager_distance_term emp_a emp_b manager_chains)%Qc in
  let score := if same (team_id emp_a) (team_id emp_b)
               then (score + fl 0.2)%Qc else score in
  let score := if same (sub_lob_id emp_a) (sub_lob_id emp_b)
               then (score + fl 0.15)%Qc else score in
  let score := if same (lob_id emp_a) (lob_id emp_b)
               then (score + fl 0.1)%Qc else score in
  let score := if same (location_id emp_a) (location_id emp_b)
               then (score + fl 0.05)%Qc else score in
  fmin score (fl 1.0).

Definition calculate_functional_proximity (emp_a emp_b : EmployeeFeatures) : Qc :=
  let score := fl 0.0 in
  let score := if same (job_code emp_a) (job_code emp_b)
               then (score + fl 0.35)%Qc else score in
  let score := if same (job_family emp_a) (job_family emp_b)
               then (score + fl 0.25)%Qc else score in
  let score :=
    if (0 <? job_level emp_a) && (0 <? job_level emp_b) then
      let level_diff := Z.abs (job_level emp_a - job_level emp_b) in
      let level_score := fmax (fl 0) (fl 1.0 - of_int level_diff / fl 7.0)%Qc in
      (score + fl 0.2 * level_score)%Qc
    else score in
  let score := if same (cost_center_id emp_a) (cost_center_id emp_b)
               then (score + fl 0.2)%Qc else score in
  fmin score (fl 1.0).

Definition calculate_behavioral_proximity (emp_a emp_b : EmployeeFeatures) : Qc :=
  let score := fl 0.0 in
  let score :=
    if negb (bool_decide (access_set emp_a = ∅)) || negb (bool_decide (access_set emp_b = ∅))
    then
      let intersection := Z.of_nat (size (access_set emp_a ∩ access_set emp_b)) in
      let union := Z.of_nat (size (access_set emp_a ∪ access_set emp_b)) in
      if 0 <? union
      then (score + fl 0.5 * (of_int intersection / of_int union))%Qc
      else score
    else score in
  let score :=
    if negb (bool_decide (activity_vector emp_a = ∅)) &&
       negb (bool_decide (activity_vector emp_b = ∅))
    then
      let all_resources := elements (dom (activity_vector emp_a) ∪ dom (activity_vector emp_b)) in
      let vec_a := map (fun r => default (fl 0) (activity_vector emp_a !! r)) all_resources in
      let vec_b := map (fun r => default (fl 0) (activity_vector emp_b !! r)) all_resources in
      let norm_a := np_sqrt ext (fsum (map (fun x => x * x)%Qc vec_a)) in
      let norm_b := np_sqrt ext (fsum (map (fun x => x * x)%Qc vec_b)) in
      if ltb (fl 0) norm_a && ltb (fl 0) norm_b then
        let cosine_sim :=
          (fsum (zip_with Qcmult vec_a vec_b) / (norm_a * norm_b))%Qc in
        (score + fl 0.5 * cosine_sim)%Qc
      else score
    else score in
  fmin score (fl 1.0).

(** [np.exp(-(diff ** 2) / (2 * sigma ** 2))] *)
Definition gaussian (diff sigma : Z) : Qc :=
  np_exp ext (of_int (- (diff * diff)) / of_int (2 * (sigma * sigma)))%Qc.

Definition calculate_temporal_proximity (emp_a emp_b : EmployeeFeatures) : Qc :=
  let score := fl 0.0 in
  let score :=
    if (0 <? tenure_days emp_a) && (0 <? tenure_days emp_b) then
      let tenure_diff := Z.abs (tenure_days emp_a - tenure_days emp_b) in
      (score + fl 0.4 * gaussian tenure_diff 365)%Qc
    else score in
  let score :=
    if (0 <? time_in_role_days emp_a) && (0 <? time_in_role_days emp_b) then
      let role_diff := Z.abs (time_in_role_days emp_a - time_in_role_days emp_b) in
      (score + fl 0.3 * gaussian role_diff 180)%Qc
    else score in
  let score :=
    if Str.truthy (hire_quarter emp_a) &&
       bool_decide (hire_quarter emp_a = hire_quarter emp_b)
    then (score + fl 0.3)%Qc else score in
  fmin score (fl 1.0).

(** The overall score, with the four component scores. *)
Definition calculate_proximity (emp_a emp_b : EmployeeFeatures)
    (manager_chains : option (gmap string (list string)))
    : Qc * (Qc * Qc * Qc * Qc) :=
  let structural_p := calculate_structural_proximity emp_a emp_b manager_chains in
  let functional_p := calculate_functional_proximity emp_a emp_b in
  let behavioral_p := calculate_behavioral_proximity emp_a emp_b in
  let temporal_p := calculate_temporal_proximity emp_a emp_b in
  let overall :=
    (structural weights * structural_p + functional weights * functional_p +
     behavioral weights * behavioral_p + temporal weights * temporal_p)%Qc in
  (overall, (structural_p, functional_p, behavioral_p, temporal_p)).

End Calculator.

(** *** The pairwise matrix *)

(** [np.zeros((n, n))] *)
Definition zeros (n : nat) : Matrix := replicate n (replicate n (fl 0)).

(** [matrix[i, j] = v]; the indices written by the loops below are
    positions of [employee_ids], hence in range. *)
Definition mset (i j : nat) (v : Qc) (matrix : Matrix) : Matrix :=
  alter (fun row => <[j := v]> row) i matrix.

(** [np.fill_diagonal(matrix, v)] *)
Definition fill_diagonal (v : Qc) (matrix : Matrix) : Matrix :=
  imap (fun i row => <[i := v]> row) matrix.

(** [{emp_id: i for i, emp_id in enumerate(employee_ids)}] *)
Definition id_to_idx_of (employee_ids : list string) : gmap string nat :=
  foldl (fun m '(i, emp_id) => <[emp_id := i]> m) ∅
        (imap (fun i e => (i, e)) employee_ids).

(** [lob_groups]: the ids that have features, grouped by LOB in order of
    first appearance. *)
Definition lob_groups_of (employee_ids : list string)
    (features : gmap string EmployeeFeatures) : list (string * list string) :=
  foldl (fun groups emp_id =>
           match features !! emp_id with
           | Some feat =>
             let lob_id := match lob_id feat with
                           | Some l => if Str.truthy l then l else "unknown"
                           | None => "unknown"
                           end in
             ODict.set lob_id (default [] (ODict.get lob_id groups) ++ [emp_id]) groups
           | None => groups
           end) [] employee_ids.

Section Matrix.
Variable ext : Externals.
Variable weights : ProximityWeights.
Variable features : gmap string EmployeeFeatures.
Variable manager_chains : option (gmap string (list string)).

(** One comparison of the blocked loop; [None] is a [KeyError] of
    [id_to_idx]. *)
Definition compare_in_group (id_to_idx : gmap string nat)
    (feat_a : EmployeeFeatures) (idx_a : nat)
    (acc : option Matrix) (emp_b_id : string) : option Matrix :=
  matrix ← acc;
  match features !! emp_b_id with
  | None => Some matrix
  | Some feat_b =>
    idx_b ← id_to_idx !! emp_b_id;
    let proximity := fst (calculate_proximity ext weights feat_a feat_b manager_chains) in
    Some (mset idx_b idx_a proximity (mset idx_a idx_b proximity matrix))
  end.

Definition compare_group (id_to_idx : gmap string nat) (lob_employees : list string)
    (acc : option Matrix) (i_emp : nat * string) : option Matrix :=
  let '(i, emp_a_id) := i_emp in
  matrix ← acc;
  match features !! emp_a_id with
  | None => Some matrix
  | Some feat_a =>
    idx_a ← id_to_idx !! emp_a_id;
    foldl (compare_in_group id_to_idx feat_a idx_a) (Some matrix)
          (drop (i + 1) lob_employees)
  end.

Definition blocked_loop (id_to_idx : gmap string nat)
    (lob_groups : list (string * list string)) (matrix : Matrix) : option Matrix :=
  foldl (fun acc '(_, lob_employees) =>
           foldl (compare_group id_to_idx lob_employees) acc
                 (imap (fun i e => (i, e)) lob_employees))
        (Some matrix) lob_groups.

(** One comparison of the full loop, at positions [i < j]. *)
Definition compare_at (employee_ids : list string) (i : nat)
    (matrix : Matrix) (j : nat) : Matrix :=
  match employee_ids !! i ≫= (features !!.), employee_ids !! j ≫= (features !!.) with
  | Some feat_a, Some feat_b =>
    let proximity := fst (calculate_proximity ext weights feat_a feat_b manager_chains) in
    mset j i proximity (mset i j proximity matrix)
  | _, _ => matrix
  end.

Definition full_loop (employee_ids : list string) (matrix : Matrix) : Matrix :=
  let n := length employee_ids in
  foldl (fun matrix i =>
           foldl (compare_at employee_ids i) matrix (seq (i + 1) (n - (i + 1))))
        matrix (seq 0 n).

Definition calculate_pairwise_proximity_matrix (employee_ids : list string)
    (block_by_lob : bool) : option Matrix :=
  let n := length employee_ids in
  let matrix := zeros n in
  let id_to_idx := id_to_idx_of employee_ids in
  let lob_groups := lob_groups_of employee_ids features in
  matrix ←
    (if block_by_lob then blocked_loop id_to_idx lob_groups matrix
     else Some (full_loop employee_ids matrix));
  Some (fill_diagonal (fl 1.0) matrix).

End Matrix.

(** *** Feature extraction *)

(** [s.replace("Z", "+00:00")] *)
Fixpoint replace_Z (s : string) : string :=
  match s with
  | EmptyString => EmptyString
  | String c s' =>
    if Ascii.eqb c "Z"%char then "+00:00" +:+ replace_Z s'
    else String c (replace_Z s')
  end.

Definition microseconds_per_day : Z := 86400000000.

(** The [try] block that parses a date and reads the clock, entered when
    the date is a non-empty string: the parsed date with the whole days
    elapsed since it, and the number of clock readings made so far.  A
    [ValueError] of the parser leaves the block before the clock is read. *)
Definition days_since (ext : Externals) (rt : Runtime) (date : option string)
    (k : nat) : option (datetime * Z) * nat :=
  match date with
  | Some d =>
    if Str.truthy d then
      match fromisoformat ext (replace_Z d) with
      | Some hd =>
        let now := clock rt k in
        let delta := if dt_aware hd then now_utc now - dt_micros hd
                     else now_local now - dt_micros hd in
        (Some (hd, delta / microseconds_per_day), S k)
      | None => (None, k)
      end
    else (None, k)
  | None => (None, k)
  end.

(** [access_by_employee] and [activity_by_employee] of [extract_features]. *)
Definition access_sets (access_grants : list Data.AccessGrant)
    : gmap string (gset string) :=
  foldl (fun acc grant =>
           let emp_id := Data.g_employee_id grant in
           <[emp_id := default ∅ (acc !! emp_id) ∪ {[Data.g_resource_id grant]}]> acc)
        ∅ access_grants.

Definition activity_vectors (activity_summaries : list Data.ActivitySummary)
    : gmap string (gmap string Qc) :=
  foldl (fun acc summary =>
           let emp_id := Data.a_employee_id summary in
           let res_id := Data.a_resource_id summary in
           let count_30d := Data.a_access_count_30d summary in
           let intensity := fmin (of_int count_30d / fl 100.0)%Qc (fl 1.0) in
           <[emp_id := <[res_id := intensity]> (default ∅ (acc !! emp_id))]> acc)
        ∅ activity_summaries.

(** The features of one employee, from the clock reading [k] on. *)
Definition features_of (ext : Externals) (rt : Runtime)
    (team_lookup : gmap string Data.Team) (sub_lob_lookup : gmap string Data.SubLob)
    (access_by_employee : gmap string (gset string))
    (activity_by_employee : gmap string (gmap string Qc))
    (emp : Data.Employee) (k : nat) : EmployeeFeatures * nat :=
  let emp_id := Data.e_id emp in
  let team := Data.e_team_id emp ≫= (team_lookup !!.) in
  let sub_lob_id := team ≫= Data.t_sub_lob_id in
  let lob_id := team ≫= Data.t_lob_id in
  let lob_id :=
    if Str.otruthy sub_lob_id && negb (Str.otruthy lob_id) then
      (sub_lob_id ≫= (sub_lob_lookup !!.)) ≫= Data.s_lob_id
    else lob_id in
  let '(hired, k) := days_since ext rt (Data.e_hire_date emp) k in
  let '(in_role, k) := days_since ext rt (Data.e_role_start_date emp) k in
  let tenure_days := match hired with Some (_, days) => days | None => 0 end in
  let hire_quarter :=
    match hired with
    | Some (hd, _) =>
      let quarter := (dt_month hd - 1) / 3 + 1 in
      pretty (dt_year hd) +:+ "-Q" +:+ pretty quarter
    | None => ""
    end in
  let time_in_role_days := match in_role with Some (_, days) => days | None => 0 end in
  ({| employee_id := emp_id;
      manager_id := Data.e_manager_id emp;
      team_id := Data.e_team_id emp;
      sub_lob_id := sub_lob_id;
      lob_id := lob_id;
      location_id := Data.e_location_id emp;
      job_title := Data.e_job_title emp;
      job_code := Data.e_job_code emp;
      job_family := Data.e_job_family emp;
      job_level := Data.e_job_level emp;
      cost_center_id := Data.e_cost_center_id emp;
      access_set := default ∅ (access_by_employee !! emp_id);
      activity_vector := default ∅ (activity_by_employee !! emp_id);
      tenure_days := tenure_days;
      time_in_role_days := time_in_role_days;
      hire_quarter := hire_quarter |}, k).

(** The features of all employees, with the number of clock readings. *)
Definition extract_features (ext : Externals) (rt : Runtime)
    (employees : list Data.Employee) (access_grants : list Data.AccessGrant)
    (activity_summaries : list Data.ActivitySummary)
    (teams : list Data.Team) (sub_lobs : list Data.SubLob)
    : gmap string EmployeeFeatures * nat :=
  let team_lookup := foldl (fun m t => <[Data.t_id t := t]> m) ∅ teams in
  let sub_lob_lookup := foldl (fun m s => <[Data.s_id s := s]> m) ∅ sub_lobs in
  let access_by_employee := access_sets access_grants in
  let activity_by_employee := activity_vectors activity_summaries in
  foldl (fun '(features, k) emp =>
           let '(f, k) := features_of ext rt team_lookup sub_lob_lookup
                            access_by_employee activity_by_employee emp k in
           (<[Data.e_id emp := f]> features, k))
        (∅, 0%nat) employees.

End PeerProximity.


(** ** clustering.py: data *)

Module ClusteringData.

Inductive ClusteringStrategy : Set :=
| KMEANS | HIERARCHICAL | DBSCAN | GRAPH_COMMUNITY.

Global Instance ClusteringStrategy_eq_dec : EqDecision ClusteringStrategy.
Proof. solve_decision. Defined.

Record ClusterAssignment := {
  employee_id : string;
  strategy : ClusteringStrategy;
  cluster_id : Z;              (* -1 for outliers *)
  confidence : Qc;
  is_outlier : bool
}.

(** The f-strings of [disagreement_reason], kept as the template that fired
    together with the interpolated values. *)
Inductive Reason :=
| NoClusteringResults
| LowConsensusScore (consensus_score threshold : Qc)
| OutlierDisagreement (outlier_votes total_strategies : Z)
| NoCommonPeers.

Record ConsensusResult := {
  cr_employee_id : string;
  assignments : list (ClusteringStrategy * ClusterAssignment);
  consensus_cluster_id : option Z;
  consensus_score : Qc;
  strategies_agreeing : Z;
  total_strategies : Z;
  peer_ids : list string;
  peer_count : Z;
  needs_human_review : bool;
  disagreement_reason : option Reason
}.

Record ClusteringConfig := {
  kmeans_n_clusters : Z;
  kmeans_max_clusters : Z;
  kmeans_min_cluster_size : Z;
  hierarchical_n_clusters : Z;
  hierarchical_linkage : string;
  dbscan_eps : Qc;
  dbscan_min_samples : Z;
  graph_resolution : Qc;
  graph_min_edge_weight : Qc;
  consensus_threshold : Qc;
  min_strategies_for_consensus : Z
}.

Definition default_ClusteringConfig : ClusteringConfig := {|
  kmeans_n_clusters := 0;
  kmeans_max_clusters := 50;
  kmeans_min_cluster_size := 5;
  hierarchical_n_clusters := 0;
  hierarchical_linkage := "ward";
  dbscan_eps := Num.fl 0.3;
  dbscan_min_samples := 5;
  graph_resolution := Num.fl 1;
  graph_min_edge_weight := Num.fl 0.2;
  consensus_threshold := Num.fl 0.7;
  min_strategies_for_consensus := 3
|}.

End ClusteringData.

(** ** clustering.py: the four strategies *)

Module Strategies.
Import Num ClusteringData External.

(** [a[k]] on a numpy axis of length [n]: a negative index counts from the
    end, an index out of range raises. *)
Definition np_index (n : nat) (k : Z) : option nat :=
  if (0 <=? k) && (k <? Z.of_nat n) then Some (Z.to_nat k)
  else if (k <? 0) && (- Z.of_nat n <=? k) then Some (Z.to_nat (k + Z.of_nat n))
  else None.

Definition np_get {A} (a : list A) (k : Z) : option A :=
  i ← np_index (length a) k; a !! i.

(** [1 - proximity_matrix] *)
Definition to_distance (proximity_matrix : Matrix) : Matrix :=
  map (map (fun p => (fl 1 - p)%Qc)) proximity_matrix.

(** [range(lo, hi)] *)
Definition range (lo hi : Z) : list Z :=
  map (fun i => lo + Z.of_nat i) (seq 0 (Z.to_nat (hi - lo))).

(** [len(set(labels))] *)
Definition n_distinct (labels : list Z) : Z :=
  Z.of_nat (size (list_to_set labels : gset Z)).

(** [max] of a non-empty sequence. *)
Definition list_max (xs : list Qc) : option Qc :=
  match xs with
  | [] => None
  | x :: xs' => Some (foldl fmax x xs')
  end.

(** Indices [j <> i] with the label [cluster_id]. *)
Definition members_of (labels : list Z) (cluster_id : Z) (i : nat) : list nat :=
  omap (fun '(j, l) =>
          if (l =? cluster_id) && negb (j =? i)%nat then Some j else None)
       (imap (fun j l => (j, l)) labels).

(** Mean proximity of [i] to the [members], 1.0 when there is none. *)
Definition mean_proximity (proximity_matrix : Matrix) (i : nat)
    (members : list nat) : option Qc :=
  match members with
  | [] => Some (fl 1.0)
  | _ =>
    row ← proximity_matrix !! i;
    ps ← mapM (fun j => row !! j) members;
    Some (mean ps)
  end.

(** Fill a dictionary with one assignment per employee id, in order; an
    exception in the body aborts the loop. *)
Definition assign_all (employee_ids : list string)
    (body : nat -> string -> option ClusterAssignment)
    : option (gmap string ClusterAssignment) :=
  foldl (fun acc '(i, emp_id) =>
           m ← acc; a ← body i emp_id; Some (<[emp_id := a]> m))
        (Some ∅) (imap (fun i e => (i, e)) employee_ids).

Section Strategies.
Variable ext : Externals.
Variable config : ClusteringConfig.

(** The silhouette search for the number of clusters, shared by
    [cluster_kmeans] and [cluster_hierarchical]; [fit k] is [None] when
    the clusterer raises, which the loop skips. *)
Definition auto_select_k (fit : Z -> option (list Z))
    (distance_matrix : Matrix) (n_samples : Z) : option Z :=
  if kmeans_min_cluster_size config =? 0 then None   (* ZeroDivisionError *)
  else
    let max_k := Z.min (kmeans_max_clusters config)
                       (n_samples / kmeans_min_cluster_size config) in
    let max_k := Z.max 2 max_k in
    let min_k := 2 in
    let '(best_k, _) :=
      foldl (fun '(best_k, best_score) k =>
               match fit k with
               | Some labels =>
                 if 1 <? n_distinct labels then
                   match silhouette_score ext distance_matrix labels with
                   | Some score =>
                     if ltb best_score score then (k, score)
                     else (best_k, best_score)
                   | None => (best_k, best_score)
                   end
                 else (best_k, best_score)
               | None => (best_k, best_score)
               end)
            (min_k, fl (-1)) (range min_k (max_k + 1)) in
    Some best_k.

Definition cluster_kmeans (proximity_matrix : Matrix)
    (employee_ids : list string) : option (gmap string ClusterAssignment) :=
  let n_samples := Z.of_nat (length employee_ids) in
  let distance_matrix := to_distance proximity_matrix in
  n_clusters ←
    (if kmeans_n_clusters config =? 0 then
       auto_select_k (fun k => fst <$> KMeans ext k 42 10 distance_matrix)
                     distance_matrix n_samples
     else Some (kmeans_n_clusters config));
  '(labels, distances_to_centroid) ← KMeans ext n_clusters 42 10 distance_matrix;
  assign_all employee_ids (fun i emp_id =>
    cluster_id ← labels !! i;
    row ← distances_to_centroid !! i;
    dist ← np_get row cluster_id;
    column ← mapM (fun r => np_get r cluster_id) distances_to_centroid;
    max_dist ← list_max column;
    let confidence :=
      if ltb (fl 0) max_dist then (fl 1 - dist / max_dist)%Qc else fl 1.0 in
    Some {| employee_id := emp_id; strategy := KMEANS;
            cluster_id := cluster_id; confidence := confidence;
            is_outlier := false |}).

Definition cluster_hierarchical (proximity_matrix : Matrix)
    (employee_ids : list string) : option (gmap string ClusterAssignment) :=
  let n_samples := Z.of_nat (length employee_ids) in
  let distance_matrix := to_distance proximity_matrix in
  n_clusters ←
    (if hierarchical_n_clusters config =? 0 then
       auto_select_k (fun k => AgglomerativeClustering ext k distance_matrix)
                     distance_matrix n_samples
     else Some (hierarchical_n_clusters config));
  labels ← AgglomerativeClustering ext n_clusters distance_matrix;
  assign_all employee_ids (fun i emp_id =>
    cluster_id ← labels !! i;
    confidence ← mean_proximity proximity_matrix i (members_of labels cluster_id i);
    Some {| employee_id := emp_id; strategy := HIERARCHICAL;
            cluster_id := cluster_id; confidence := confidence;
            is_outlier := false |}).

Definition cluster_dbscan (proximity_matrix : Matrix)
    (employee_ids : list string) : option (gmap string ClusterAssignment) :=
  let distance_matrix := to_distance proximity_matrix in
  labels ← DBSCAN_fit_predict ext (dbscan_eps config) (dbscan_min_samples config)
             distance_matrix;
  assign_all employee_ids (fun i emp_id =>
    cluster_id ← labels !! i;
    let is_outlier := cluster_id =? -1 in
    confidence ←
      (if is_outlier then Some (fl 0.0)
       else mean_proximity proximity_matrix i (members_of labels cluster_id i));
    Some {| employee_id := emp_id; strategy := DBSCAN;
            cluster_id := cluster_id; confidence := confidence;
            is_outlier := is_outlier |}).

(** [G.add_node(n)] and [G.add_edge(u, v, weight=w)]. *)
Definition add_node (n : string) (G : Graph) : Graph :=
  match ODict.get n G with
  | Some _ => G
  | None => ODict.set n [] G
  end.

Definition add_edge (u v : string) (w : Qc) (G : Graph) : Graph :=
  let G := add_node v (add_node u G) in
  let G := ODict.set u (ODict.set v w (default [] (ODict.get u G))) G in
  ODict.set v (ODict.set u w (default [] (ODict.get v G))) G.

(** One step of the edge loop, at positions [i < j]. *)
Definition add_pair (proximity_matrix : Matrix) (employee_ids : list string)
    (i : nat) (acc : option Graph) (j : nat) : option Graph :=
  G ← acc;
  row ← proximity_matrix !! i;
  proximity ← row !! j;
  emp_i ← employee_ids !! i;
  emp_j ← employee_ids !! j;
  if leb (graph_min_edge_weight config) proximity
  then Some (add_edge emp_i emp_j proximity G)
  else Some G.

(** The graph built from the proximity matrix: a node per employee id,
    an edge where the proximity reaches [graph_min_edge_weight]. *)
Definition build_graph (proximity_matrix : Matrix) (employee_ids : list string)
    : option Graph :=
  let n := length employee_ids in
  let G0 := foldl (fun G emp_id => add_node emp_id G) [] employee_ids in
  foldl (fun acc i =>
           foldl (add_pair proximity_matrix employee_ids i) acc
                 (seq (i + 1) (n - (i + 1))))
        (Some G0) (seq 0 n).

(** [emp_to_cluster]: the index of the last community holding each id. *)
Definition emp_to_cluster_of (communities : list (gset string)) : gmap string Z :=
  foldl (fun m '(cluster_id, community) =>
           gset_to_gmap (Z.of_nat cluster_id) community ∪ m)
        ∅ (imap (fun i c => (i, c)) communities).

Definition graph_assignments (G : Graph) (communities : list (gset string))
    (employee_ids : list string) : option (gmap string ClusterAssignment) :=
  let emp_to_cluster := emp_to_cluster_of communities in
  assign_all employee_ids (fun i emp_id =>
    let cluster_id := default (-1) (emp_to_cluster !! emp_id) in
    confidence ←
      (if 0 <=? cluster_id then
         community ← communities !! Z.to_nat cluster_id;
         neighbors ← ODict.get emp_id G;
         let neighbors_in_community :=
           filter (fun nw => fst nw ∈ community) neighbors in
         match neighbors_in_community with
         | [] => Some (fl 0.5)
         | _ => Some (mean (map snd neighbors_in_community))
         end
       else Some (fl 0.0));
    Some {| employee_id := emp_id; strategy := GRAPH_COMMUNITY;
            cluster_id := cluster_id; confidence := confidence;
            is_outlier := cluster_id =? -1 |}).

Definition cluster_graph_community (proximity_matrix : Matrix)
    (employee_ids : list string) : option (gmap string ClusterAssignment) :=
  match louvain_communities ext with
  | None => Some ∅
  | Some louvain =>
    G ← build_graph proximity_matrix employee_ids;
    match louvain G (graph_resolution config) 42 with
    | None => Some ∅
    | Some communities => graph_assignments G communities employee_ids
    end
  end.

(** [list(ClusteringStrategy)] *)
Definition all_strategies : list ClusteringStrategy :=
  [KMEANS; HIERARCHICAL; DBSCAN; GRAPH_COMMUNITY].

Definition run_strategy (strategy : ClusteringStrategy)
    (proximity_matrix : Matrix) (employee_ids : list string)
    : option (gmap string ClusterAssignment) :=
  match strategy with
  | KMEANS => cluster_kmeans proximity_matrix employee_ids
  | HIERARCHICAL => cluster_hierarchical proximity_matrix employee_ids
  | DBSCAN => cluster_dbscan proximity_matrix employee_ids
  | GRAPH_COMMUNITY => cluster_graph_community proximity_matrix employee_ids
  end.

(** A strategy that raises is left out of the results. *)
Definition run_all_strategies (proximity_matrix : Matrix)
    (employee_ids : list string) (strategies : option (list ClusteringStrategy))
    : list (ClusteringStrategy * gmap string ClusterAssignment) :=
  let strategies := default all_strategies strategies in
  foldl (fun results strategy =>
           match run_strategy strategy proximity_matrix employee_ids with
           | Some assignments => ODict.set strategy assignments results
           | None => results
           end)
        [] strategies.

End Strategies.

End Strategies.

(** ** clustering.py: consensus analysis *)

Module Consensus.
Import Num ClusteringData.

(** [all_assignments]: strategies in the order they were run, each with its
    dictionary employee id -> assignment. *)
Definition AllAssignments : Type :=
  list (ClusteringStrategy * gmap string ClusterAssignment).

(** The assignments of one employee, one per strategy that has one. *)
Definition collect_assignments (all_assignments : AllAssignments) (emp_id : string)
    : list (ClusteringStrategy * ClusterAssignment) :=
  omap (fun '(strategy, assignments) =>
          match assignments !! emp_id with
          | Some a => Some (strategy, a)
          | None => None
          end) all_assignments.

(** Members of the cluster of [assignment], the employee itself excluded. *)
Definition cluster_members (strategy_assignments : gmap string ClusterAssignment)
    (emp_id : string) (assignment : ClusterAssignment) : gset string :=
  dom (filter (fun '(other_id, other_assign) =>
                 other_id <> emp_id /\
                 cluster_id other_assign = cluster_id assignment)
              strategy_assignments).

(** [all_assignments[strategy]] always finds its key, the strategies of
    [emp_assignments] being keys of [all_assignments]. *)
Definition peer_sets_of (all_assignments : AllAssignments) (emp_id : string)
    (emp_assignments : list (ClusteringStrategy * ClusterAssignment))
    : list (gset string) :=
  map (fun '(strategy, assignment) =>
         if is_outlier assignment then ∅
         else cluster_members
                (default ∅ (ODict.get strategy all_assignments))
                emp_id assignment)
      emp_assignments.

Definition set_truthy (s : gset string) : bool := negb (bool_decide (s = ∅)).

Definition set_len (s : gset string) : Z := Z.of_nat (size s).

(** The similarities appended by the double loop over [i < j]. *)
Definition pairwise_similarities (peer_sets : list (gset string)) : list Qc :=
  let n := length peer_sets in
  flat_map (fun i =>
    flat_map (fun j =>
      match peer_sets !! i, peer_sets !! j with
      | Some set_a, Some set_b =>
        if set_truthy set_a || set_truthy set_b then
          let intersection := set_len (set_a ∩ set_b) in
          let union := set_len (set_a ∪ set_b) in
          let jaccard :=
            if 0 <? union then (of_int intersection / of_int union)%Qc
            else fl 1.0 in
          [jaccard]
        else []
      | _, _ => []
      end) (seq (i + 1) (n - (i + 1)))) (seq 0 n).

Definition calc_consensus_score (peer_sets : list (gset string)) : Qc :=
  if (2 <=? length peer_sets)%nat then
    match pairwise_similarities peer_sets with
    | [] => fl 0.0
    | sims => mean sims
    end
  else fl 1.0.

(** [collections.Counter(xs)]: counts in order of first occurrence. *)
Fixpoint counter_add (x : Z) (c : list (Z * Z)) : list (Z * Z) :=
  match c with
  | [] => [(x, 1)]
  | (y, n) :: c' => if y =? x then (y, n + 1) :: c' else (y, n) :: counter_add x c'
  end.

Definition Counter (xs : list Z) : list (Z * Z) :=
  foldl (fun c x => counter_add x c) [] xs.

(** [c.most_common(1)]: [heapq.nlargest(1, items, key=count)], that is
    [max(items, key=count)], the first item of maximal count. *)
Definition most_common_1 (c : list (Z * Z)) : option (Z * Z) :=
  foldl (fun best item =>
           match best with
           | None => Some item
           | Some b => if snd b <? snd item then Some item else Some b
           end) None c.

Definition counter_get (c : list (Z * Z)) (x : Z) : Z :=
  match list_find (fun p => fst p = x) c with
  | Some (_, (_, n)) => n
  | None => 0
  end.

Definition intersection_all (sets : list (gset string)) : gset string :=
  match sets with
  | [] => ∅
  | s :: rest => foldl (fun acc t => acc ∩ t) s rest
  end.

Section Analyze.
Variable config : ClusteringConfig.
(** [list(s)] for a set of strings: the elements in the iteration order
    of the set, which follows the string hashes of the interpreter. *)
Variable list_of_set : gset string -> list string.

(** The body of the loop of [analyze_consensus], for one employee. *)
Definition consensus_for (all_assignments : AllAssignments) (emp_id : string)
    : ConsensusResult :=
  let emp_assignments := collect_assignments all_assignments emp_id in
  let total_strategies := Z.of_nat (length emp_assignments) in
  if total_strategies =? 0 then
    {| cr_employee_id := emp_id;
       assignments := [];
       consensus_cluster_id := None;
       consensus_score := fl 0.0;
       strategies_agreeing := 0;
       total_strategies := 0;
       peer_ids := [];
       peer_count := 0;
       needs_human_review := true;
       disagreement_reason := Some NoClusteringResults |}
  else
    let peer_sets := peer_sets_of all_assignments emp_id emp_assignments in
    let consensus_score := calc_consensus_score peer_sets in
    let non_empty_sets := filter (fun s => set_truthy s = true) peer_sets in
    let '(consensus_peers, all_peers) :=
      match non_empty_sets with
      | [] => (∅, ∅)
      | [s] => (s, s)
      | _ => (intersection_all non_empty_sets, ⋃ non_empty_sets)
      end in
    let outlier_votes :=
      Z.of_nat (length (filter (fun sa => is_outlier (snd sa) = true)
                               emp_assignments)) in
    let non_outlier_votes := total_strategies - outlier_votes in
    let '(needs_review, reason) :=
      if ltb consensus_score (consensus_threshold config) then
        (true, Some (LowConsensusScore consensus_score (consensus_threshold config)))
      else if (0 <? outlier_votes) && (0 <? non_outlier_votes) then
        (true, Some (OutlierDisagreement outlier_votes total_strategies))
      else if (set_len consensus_peers =? 0) && (0 <? set_len all_peers) then
        (true, Some NoCommonPeers)
      else (false, None) in
    let non_outlier_clusters :=
      map (fun sa => cluster_id (snd sa))
          (filter (fun sa => is_outlier (snd sa) = false) emp_assignments) in
    let '(consensus_cluster, strategies_agreeing) :=
      match non_outlier_clusters with
      | [] => (-1, outlier_votes)
      | _ =>
        let cluster_counts := Counter non_outlier_clusters in
        let consensus_cluster :=
          match most_common_1 cluster_counts with
          | Some (c, _) => c
          | None => -1   (* not reached: the counter is not empty *)
          end in
        (consensus_cluster, counter_get cluster_counts consensus_cluster)
      end in
    {| cr_employee_id := emp_id;
       assignments := emp_assignments;
       consensus_cluster_id := Some consensus_cluster;
       consensus_score := consensus_score;
       strategies_agreeing := strategies_agreeing;
       total_strategies := total_strategies;
       peer_ids := list_of_set all_peers;
       peer_count := set_len all_peers;
       needs_human_review := needs_review;
       disagreement_reason := reason |}.

Definition analyze_consensus (all_assignments : AllAssignments)
    (employee_ids : list string) : gmap string ConsensusResult :=
  foldl (fun results emp_id =>
           <[emp_id := consensus_for all_assignments emp_id]> results)
        ∅ employee_ids.

End Analyze.

End Consensus.

(** ** assurance.py *)

Module Assurance.
Import Num ClusteringData.

(** Ceilings per sensitivity level (class [SensitivityConfig]). *)
Record SensitivityConfig := {
  PUBLIC : Qc;
  INTERNAL : Qc;
  CONFIDENTIAL : Qc;
  CRITICAL : Qc
}.

Definition default_SensitivityConfig : SensitivityConfig := {|
  PUBLIC := fl 1.0;
  INTERNAL := fl 0.85;
  CONFIDENTIAL := fl 0.50;
  CRITICAL := fl 0.0
|}.

(** [getattr(self, name, default)] on a [SensitivityConfig] instance, for a
    [name] that is the result of [str.upper]: the four ceilings are the only
    attributes of the instance whose name has no lower-case letter. *)
Definition getattr (self : SensitivityConfig) (name : string) (default : Qc) : Qc :=
  if String.eqb name "PUBLIC" then PUBLIC self
  else if String.eqb name "INTERNAL" then INTERNAL self
  else if String.eqb name "CONFIDENTIAL" then CONFIDENTIAL self
  else if String.eqb name "CRITICAL" then CRITICAL self
  else default.

Definition get_ceiling (self : SensitivityConfig) (level : option string) : Qc :=
  let level_upper :=
    match level with
    | Some s => if Str.truthy s then Str.upper s else "INTERNAL"
    | None => "INTERNAL"
    end in
  getattr self level_upper (INTERNAL self).

Record UsagePattern := {
  total_access_count : Z;
  last_accessed_days_ago : option Z;
  access_count_30d : Z;
  access_count_90d : Z;
  days_since_grant : Z
}.

(** The explanation f-strings, kept as the template chosen together with
    the interpolated values. *)
Inductive Explanation :=
| CommonAccess (peer_percentage : Qc) (peers_with total_peers : Z)
| ModerateAccess (peer_percentage : Qc) (peers_with total_peers : Z)
| UncommonAccess (peer_percentage : Qc) (peers_with total_peers : Z)
| UnusualAccess (peer_percentage : Qc) (peers_with total_peers : Z)
| NoPeerGroup
| ActiveUsage
| OccasionalUsage (days_since_last_use : option Z)
| StaleAccess (days_since_last_use : option Z)
| DormantNotUsedIn (days_since_last_use : Z)
| DormantNeverUsed
| CriticalSensitivity
| ConfidentialSensitivity (capped_at : Qc)
| InternalSensitivity
| HighAssurance
| MediumAssurance
| LowAssurance.

Record AssuranceScore := {
  grant_id : string;
  employee_id : string;
  resource_id : string;
  overall_score : Qc;
  peer_typicality : Qc;
  sensitivity_ceiling : Qc;
  usage_factor : Qc;
  raw_score : Qc;
  peers_with_access : Z;
  total_peers : Z;
  peer_percentage : Qc;
  usage_pattern : string;
  days_since_last_use : option Z;
  resource_sensitivity : option string;
  resource_name : option string;
  classification : string;
  auto_certify_eligible : bool;
  explanations : list Explanation
}.

Record AssuranceConfig := {
  high_assurance_threshold : Qc;
  medium_assurance_threshold : Qc;
  sensitivity : SensitivityConfig;
  active_days_threshold : Z;
  occasional_days_threshold : Z;
  stale_days_threshold : Z;
  weight_typicality : Qc;
  weight_usage : Qc
}.

Definition default_AssuranceConfig : AssuranceConfig := {|
  high_assurance_threshold := fl 80.0;
  medium_assurance_threshold := fl 50.0;
  sensitivity := default_SensitivityConfig;
  active_days_threshold := 30;
  occasional_days_threshold := 90;
  stale_days_threshold := 365;
  weight_typicality := fl 0.6;
  weight_usage := fl 0.4
|}.

Section Scorer.
(** [self.config] of an [AssuranceScorer]. *)
Variable config : AssuranceConfig.

Definition calculate_typicality (employee_id resource_id : string)
    (peer_ids : list string) (access_by_employee : gmap string (gset string))
    : Qc * Z * Z :=
  match peer_ids with
  | [] => (fl 0.5, 0, 0)
  | _ =>
    let total_peers := Z.of_nat (length peer_ids) in
    let peers_with_access :=
      Z.of_nat (length (filter
        (fun peer_id => resource_id ∈ default ∅ (access_by_employee !! peer_id))
        peer_ids)) in
    let typicality :=
      if 0 <? total_peers
      then (of_int peers_with_access / of_int total_peers)%Qc
      else fl 0.5 in
    (typicality, peers_with_access, total_peers)
  end.

Definition calculate_usage_factor (usage : UsagePattern) : Qc * string :=
  if total_access_count usage =? 0 then (fl 0.1, "dormant")
  else match last_accessed_days_ago usage with
  | None => (fl 0.1, "dormant")
  | Some days =>
    if days <=? active_days_threshold config then
      if 10 <=? access_count_30d usage then (fl 1.0, "active")
      else if 3 <=? access_count_30d usage then (fl 0.9, "active")
      else (fl 0.8, "active")
    else if days <=? occasional_days_threshold config then (fl 0.6, "occasional")
    else if days <=? stale_days_threshold config then (fl 0.3, "stale")
    else (fl 0.1, "dormant")
  end.

Definition _generate_explanations (typicality peer_percentage : Qc)
    (peers_with total_peers : Z) (usage_pattern : string) (usage_factor : Qc)
    (sensitivity : option string) (sensitivity_ceiling final_score : Qc)
    (days_since_last_use : option Z) : list Explanation :=
  let peer :=
    if 0 <? total_peers then
      if leb (fl 80) peer_percentage then
        [CommonAccess peer_percentage peers_with total_peers]
      else if leb (fl 50) peer_percentage then
        [ModerateAccess peer_percentage peers_with total_peers]
      else if leb (fl 20) peer_percentage then
        [UncommonAccess peer_percentage peers_with total_peers]
      else [UnusualAccess peer_percentage peers_with total_peers]
    else [NoPeerGroup] in
  let usage :=
    if String.eqb usage_pattern "active" then [ActiveUsage]
    else if String.eqb usage_pattern "occasional" then [OccasionalUsage days_since_last_use]
    else if String.eqb usage_pattern "stale" then [StaleAccess days_since_last_use]
    else if String.eqb usage_pattern "dormant" then
      match days_since_last_use with
      | Some d => if d =? 0 then [DormantNeverUsed] else [DormantNotUsedIn d]
      | None => [DormantNeverUsed]
      end
    else [] in
  let sens :=
    if eqb sensitivity_ceiling (fl 0) then [CriticalSensitivity]
    else if ltb sensitivity_ceiling (fl 0.6) then
      [ConfidentialSensitivity (sensitivity_ceiling * fl 100)%Qc]
    else if ltb sensitivity_ceiling (fl 0.9) then [InternalSensitivity]
    else [] in
  let final :=
    if leb (fl 80) final_score then [HighAssurance]
    else if leb (fl 50) final_score then [MediumAssurance]
    else [LowAssurance] in
  peer ++ usage ++ sens ++ final.

Definition calculate_score (grant_id employee_id resource_id : string)
    (resource_sensitivity resource_name : option string)
    (peer_ids : list string) (access_by_employee : gmap string (gset string))
    (usage : UsagePattern) : AssuranceScore :=
  let '(typicality, peers_with, total_peers) :=
    calculate_typicality employee_id resource_id peer_ids access_by_employee in
  let '(usage_factor, usage_pattern) := calculate_usage_factor usage in
  let sensitivity_ceiling := get_ceiling (sensitivity config) resource_sensitivity in
  let raw_score :=
    (weight_typicality config * typicality + weight_usage config * usage_factor)%Qc in
  let final_score := (raw_score * sensitivity_ceiling * fl 100)%Qc in
  let peer_percentage :=
    if 0 <? total_peers
    then (of_int peers_with / of_int total_peers * fl 100)%Qc
    else fl 0 in
  let '(classification, auto_eligible) :=
    if leb (high_assurance_threshold config) final_score then ("high_assurance", true)
    else if leb (medium_assurance_threshold config) final_score
         then ("medium_assurance", false)
    else ("low_assurance", false) in
  let auto_eligible :=
    if eqb sensitivity_ceiling (fl 0) then false else auto_eligible in
  let explanations :=
    _generate_explanations typicality peer_percentage peers_with total_peers
      usage_pattern usage_factor resource_sensitivity sensitivity_ceiling
      final_score (last_accessed_days_ago usage) in
  {| grant_id := grant_id;
     employee_id := employee_id;
     resource_id := resource_id;
     overall_score := py_round final_score 1;
     peer_typicality := py_round typicality 3;
     sensitivity_ceiling := sensitivity_ceiling;
     usage_factor := py_round usage_factor 3;
     raw_score := py_round raw_score 3;
     peers_with_access := peers_with;
     total_peers := total_peers;
     peer_percentage := py_round peer_percentage 1;
     usage_pattern := usage_pattern;
     days_since_last_use := last_accessed_days_ago usage;
     resource_sensitivity := resource_sensitivity;
     resource_name := resource_name;
     classification := classification;
     auto_certify_eligible := auto_eligible;
     explanations := explanations |}.

(** The lookup table built at the start of [score_all_grants]. *)
Definition build_access_by_employee (access_grants : list Data.AccessGrant)
    : gmap string (gset string) :=
  foldl (fun acc grant =>
           let emp_id := Data.g_employee_id grant in
           let res_id := Data.g_resource_id grant in
           <[emp_id := default ∅ (acc !! emp_id) ∪ {[res_id]}]> acc)
        ∅ access_grants.

(** The body of the scoring loop of [score_all_grants], for one grant. *)
Definition score_grant (resources : gmap string Data.Resource)
    (consensus_results : gmap string ConsensusResult)
    (activity_summaries : gmap string Data.ActivitySummary)
    (access_by_employee : gmap string (gset string))
    (grant : Data.AccessGrant) : AssuranceScore :=
  let grant_id := Data.g_id grant in
  let emp_id := Data.g_employee_id grant in
  let res_id := Data.g_resource_id grant in
  let resource := resources !! res_id in
  let sensitivity :=
    match resource with
    | Some r => Data.r_sensitivity r
    | None => Some "Internal"
    end in
  let resource_name :=
    match resource with
    | Some r => Data.r_name r
    | None => Some res_id
    end in
  let peer_ids :=
    match consensus_results !! emp_id with
    | Some consensus => ClusteringData.peer_ids consensus
    | None => []
    end in
  let activity_key := emp_id +:+ ":" +:+ res_id in
  let activity := activity_summaries !! activity_key in
  let usage :=
    match activity with
    | Some a =>
      {| total_access_count := Data.a_total_access_count a;
         last_accessed_days_ago := Data.a_days_since_last_use a;
         access_count_30d := Data.a_access_count_30d a;
         access_count_90d := Data.a_access_count_90d a;
         days_since_grant := Data.a_days_since_grant a |}
    | None =>
      {| total_access_count := 0;
         last_accessed_days_ago := None;
         access_count_30d := 0;
         access_count_90d := 0;
         days_since_grant := 0 |}
    end in
  calculate_score grant_id emp_id res_id sensitivity resource_name
    peer_ids access_by_employee usage.

Definition score_all_grants (access_grants : list Data.AccessGrant)
    (resources : gmap string Data.Resource)
    (consensus_results : gmap string ConsensusResult)
    (activity_summaries : gmap string Data.ActivitySummary)
    : gmap string AssuranceScore :=
  let access_by_employee := build_access_by_employee access_grants in
  foldl (fun scores grant =>
           <[Data.g_id grant :=
               score_grant resources consensus_results activity_summaries
                 access_by_employee grant]> scores)
        ∅ access_grants.

End Scorer.

End Assurance.

(** ** engine.py *)

Module Engine.
Import Num External PeerProximity ClusteringData Assurance.

Record AnalyticsResult := {
  employee_features : gmap string EmployeeFeatures;
  cluster_assignments : list (ClusteringStrategy * gmap string ClusterAssignment);
  consensus_results : gmap string ConsensusResult;
  assurance_scores : gmap string AssuranceScore;
  total_employees : Z;
  total_grants : Z;
  high_assurance_count : Z;
  medium_assurance_count : Z;
  low_assurance_count : Z;
  auto_certify_eligible_count : Z;
  needs_human_review_count : Z;
  clustering_disagreement_count : Z
}.

(** The state of an [AnalyticsEngine] after [__init__] and [load_data]. *)
Record AnalyticsEngine := {
  proximity_weights : ProximityWeights;   (* [proximity_calculator.weights] *)
  clusterer_config : ClusteringConfig;
  scorer_config : AssuranceConfig;
  _employees : list Data.Employee;
  _teams : list Data.Team;
  _sub_lobs : list Data.SubLob;
  _lobs : list Data.Lob;
  _resources : gmap string Data.Resource;
  _access_grants : list Data.AccessGrant;
  _activity_summaries : gmap string Data.ActivitySummary
}.

(** [AnalyticsEngine.__init__] followed by [load_data]: the rows loaded
    from the database, with the three optional configurations. *)
Definition make_engine (proximity_weights : option ProximityWeights)
    (clustering_config : option ClusteringConfig)
    (assurance_config : option AssuranceConfig)
    (employees : list Data.Employee) (teams : list Data.Team)
    (sub_lobs : list Data.SubLob) (lobs : list Data.Lob)
    (resources : gmap string Data.Resource)
    (access_grants : list Data.AccessGrant)
    (activity_summaries : gmap string Data.ActivitySummary) : AnalyticsEngine := {|
  proximity_weights := init_weights proximity_weights;
  clusterer_config := default default_ClusteringConfig clustering_config;
  scorer_config := default default_AssuranceConfig assurance_config;
  _employees := employees;
  _teams := teams;
  _sub_lobs := sub_lobs;
  _lobs := lobs;
  _resources := resources;
  _access_grants := access_grants;
  _activity_summaries := activity_summaries
|}.

(** The employees selected by [lob_filter]. *)
Definition filter_employees (self : AnalyticsEngine) (lob_filter : option string)
    : list Data.Employee :=
  if Str.otruthy lob_filter then
    let lob_filter := default "" lob_filter in
    let lob_id :=
      if negb (Str.startswith "lob_" lob_filter) then
        match filter (fun l => Data.l_name l = Some lob_filter) (_lobs self) with
        | l :: _ => Some (Data.l_id l)
        | [] => None
        end
      else Some lob_filter in
    if Str.otruthy lob_id then
      let team_ids_in_lob : gset string :=
        list_to_set (map Data.t_id
          (filter (fun t => Data.t_lob_id t = lob_id) (_teams self))) in
      filter (fun e => Is_true match Data.e_team_id e with
                               | Some t => bool_decide (t ∈ team_ids_in_lob)
                               | None => false
                               end) (_employees self)
    else []
  else _employees self.

(** [sum(1 for x in d.values() if p(x))] *)
Definition count_values {V} (p : V -> bool) (d : gmap string V) : Z :=
  Z.of_nat (length (filter (fun kv => p (snd kv) = true) (map_to_list d))).

Definition empty_result : AnalyticsResult := {|
  employee_features := ∅;
  cluster_assignments := [];
  consensus_results := ∅;
  assurance_scores := ∅;
  total_employees := 0;
  total_grants := 0;
  high_assurance_count := 0;
  medium_assurance_count := 0;
  low_assurance_count := 0;
  auto_certify_eligible_count := 0;
  needs_human_review_count := 0;
  clustering_disagreement_count := 0
|}.

(** [run_analysis]; [None] is an exception that leaves the method. *)
Definition run_analysis (ext : Externals) (rt : Runtime) (self : AnalyticsEngine)
    (lob_filter : option string) (strategies : option (list ClusteringStrategy))
    (block_by_lob : bool) : option AnalyticsResult :=
  let employees := filter_employees self lob_filter in
  let employee_ids := map Data.e_id employees in
  match employees with
  | [] => Some empty_result
  | _ =>
    let employee_id_set : gset string := list_to_set employee_ids in
    let access_grants :=
      filter (fun g => Data.g_employee_id g ∈ employee_id_set) (_access_grants self) in
    let activity_summaries :=
      filter (fun kv => Data.a_employee_id (snd kv) ∈ employee_id_set)
             (_activity_summaries self) in
    let features :=
      fst (extract_features ext rt employees access_grants
             (snd <$> map_to_list activity_summaries) (_teams self) (_sub_lobs self)) in
    proximity_matrix ←
      calculate_pairwise_proximity_matrix ext (proximity_weights self) features None
        employee_ids block_by_lob;
    let cluster_assignments :=
      Strategies.run_all_strategies ext (clusterer_config self) proximity_matrix
        employee_ids strategies in
    let consensus_results :=
      Consensus.analyze_consensus (clusterer_config self) (list_of_set rt)
        cluster_assignments employee_ids in
    let assurance_scores :=
      score_all_grants (scorer_config self) access_grants (_resources self)
        consensus_results activity_summaries in
    Some {|
      employee_features := features;
      cluster_assignments := cluster_assignments;
      consensus_results := consensus_results;
      assurance_scores := assurance_scores;
      total_employees := Z.of_nat (length employees);
      total_grants := Z.of_nat (length access_grants);
      high_assurance_count :=
        count_values (fun s => String.eqb (classification s) "high_assurance")
                     assurance_scores;
      medium_assurance_count :=
        count_values (fun s => String.eqb (classification s) "medium_assurance")
                     assurance_scores;
      low_assurance_count :=
        count_values (fun s => String.eqb (classification s) "low_assurance")
                     assurance_scores;
      auto_certify_eligible_count :=
        count_values auto_certify_eligible assurance_scores;
      needs_human_review_count :=
        count_values needs_human_review consensus_results;
      clustering_disagreement_count :=
        count_values (fun c => ltb (consensus_score c) (fl 0.7)) consensus_results
    |}
  end.

End Engine.

(** ** Sorting and slicing of Python lists *)

Module PyList.

(** [list.sort] and [sorted] are stable: [insert_by before x l] puts [x],
    which stood in front of the elements of [l], behind those that must
    come strictly before it and in front of all others. *)
Fixpoint insert_by {A} (before : A -> A -> bool) (x : A) (l : list A) : list A :=
  match l with
  | [] => [x]
  | y :: l' => if before y x then y :: insert_by before x l' else x :: y :: l'
  end.

Definition sort_by {A} (before : A -> A -> bool) (l : list A) : list A :=
  foldr (insert_by before) [] l.

(** [l.sort(key=key)] and [sorted(l, key=key)] *)
Definition sort_asc {A} (key : A -> Qc) (l : list A) : list A :=
  sort_by (fun y x => Num.ltb (key y) (key x)) l.

(** [l.sort(key=key, reverse=True)] *)
Definition sort_desc {A} (key : A -> Qc) (l : list A) : list A :=
  sort_by (fun y x => Num.ltb (key x) (key y)) l.

(** [l[:k]]: a negative [k] counts from the end. *)
Definition slice_to {A} (k : Z) (l : list A) : list A :=
  if 0 <=? k then take (Z.to_nat k) l
  else take (length l - Z.to_nat (- k)) l.

End PyList.

(** ** peer_proximity.py: peer search *)

Module PeerSearch.
Import Num External PeerProximity.

(** An entry of the result of [find_peers]: the peer id, the overall
    proximity and the four component scores. *)
Definition Peer : Type := string * Qc * (Qc * Qc * Qc * Qc).

Definition peer_id (p : Peer) : string := p.1.1.
Definition peer_proximity (p : Peer) : Qc := p.1.2.

Section Calculator.
Variable ext : Externals.
(** [self.weights] *)
Variable weights : ProximityWeights.

(** The entry appended for one item of [features.items()], if any. *)
Definition candidate (employee_id : string) (target : EmployeeFeatures)
    (min_proximity : Qc) (manager_chains : option (gmap string (list string)))
    (item : string * EmployeeFeatures) : option Peer :=
  let '(other_id, other_features) := item in
  if decide (other_id = employee_id) then None
  else
    let '(proximity, components) :=
      calculate_proximity ext weights target other_features manager_chains in
    if leb min_proximity proximity then Some (other_id, proximity, components)
    else None.

(** [features] is the dictionary in insertion order, which is the order
    of equally close peers in the result. *)
Definition find_peers (employee_id : string)
    (features : list (string * EmployeeFeatures)) (top_k : Z) (min_proximity : Qc)
    (manager_chains : option (gmap string (list string))) : list Peer :=
  match ODict.get employee_id features with
  | None => []
  | Some target =>
    let peers :=
      omap (candidate employee_id target min_proximity manager_chains) features in
    let peers := PyList.sort_desc peer_proximity peers in
    PyList.slice_to top_k peers
  end.

End Calculator.

End PeerSearch.

(** ** clustering.py: cluster membership *)

Module ClusterQueries.
Import Num ClusteringData.

(** [all_assignments] with the dictionary of each strategy in insertion
    order, which is the order of the members in the result. *)
Definition get_cluster_members (employee_id : string) (strategy : ClusteringStrategy)
    (all_assignments : list (ClusteringStrategy * list (string * ClusterAssignment)))
    : list string :=
  match ODict.get strategy all_assignments with
  | None => []
  | Some assignments =>
    match ODict.get employee_id assignments with
    | None => []
    | Some assignment =>
      let target_cluster := cluster_id assignment in
      if target_cluster =? -1 then []
      else
        omap (fun '(emp_id, assign) =>
                if (cluster_id assign =? target_cluster) &&
                   negb (bool_decide (emp_id = employee_id))
                then Some emp_id else None)
             assignments
    end
  end.

End ClusterQueries.

(** ** engine.py: review queries *)

Module Review.
Import Num ClusteringData Assurance Engine.

(** An item of the list returned by [get_review_items]. *)
Record ReviewItem := {
  ri_grant_id : string;
  ri_employee_id : string;
  ri_employee_name : option string;
  ri_employee_title : option string;
  ri_resource_id : string;
  ri_resource_name : option string;
  ri_resource_sensitivity : option string;
  ri_assurance_score : Qc;
  ri_classification : string;
  ri_auto_certify_eligible : bool;
  ri_peer_percentage : Qc;
  ri_peers_with_access : Z;
  ri_total_peers : Z;
  ri_usage_pattern : string;
  ri_days_since_last_use : option Z;
  ri_explanations : list Explanation;
  ri_clustering_consensus : Qc;
  ri_needs_clustering_review : bool;
  ri_clustering_disagreement : option Reason
}.

(** An entry of ["grants"] in the summary of an employee. *)
Record GrantLine := {
  gl_grant_id : string;
  gl_resource_name : option string;
  gl_resource_sensitivity : option string;
  gl_score : Qc;
  gl_classification : string;
  gl_usage_pattern : string;
  gl_peer_percentage : Qc;
  gl_explanations : list Explanation
}.

(** The dictionary returned by [get_employee_access_summary]. *)
Record AccessSummary := {
  as_employee_id : string;
  as_employee_name : option string;
  as_employee_title : option string;
  as_team_id : option string;
  as_manager_id : option string;
  as_total_grants : Z;
  as_high_assurance_count : Z;
  as_medium_assurance_count : Z;
  as_low_assurance_count : Z;
  as_dormant_access_count : Z;
  as_auto_certify_eligible : Z;
  as_peer_count : Z;
  as_clustering_consensus : Qc;
  as_needs_clustering_review : bool;
  as_grants : list GrantLine
}.

Section Queries.
(** The column [full_name] of an employee row, which the analytics proper
    do not read. *)
Variable full_name : Data.Employee -> option string.
Variable self : AnalyticsEngine.
(** [result.assurance_scores.items()], in the insertion order of the
    dictionary, and [result.consensus_results]. *)
Variable assurance_scores : list (string * AssuranceScore).
Variable consensus_results : gmap string ConsensusResult.

(** [next((e for e in self._employees if e["id"] == employee_id), {})];
    [None] is the empty dictionary. *)
Definition find_employee (employee_id : string) : option Data.Employee :=
  snd <$> list_find (fun e => Data.e_id e = employee_id) (_employees self).

Definition direct_reports_of (reviewer_employee_id : string) : gset string :=
  list_to_set (map Data.e_id
    (filter (fun e => Data.e_manager_id e = Some reviewer_employee_id)
            (_employees self))).

(** The item appended for one entry of [assurance_scores], if any. *)
Definition review_item_of (direct_reports : gset string)
    (include_auto_certified : bool) (entry : string * AssuranceScore)
    : option ReviewItem :=
  let '(grant_id, score) := entry in
  if negb (bool_decide (Assurance.employee_id score ∈ direct_reports)) then None
  else if negb include_auto_certified && auto_certify_eligible score then None
  else
    let employee := find_employee (Assurance.employee_id score) in
    let consensus := consensus_results !! Assurance.employee_id score in
    Some {|
      ri_grant_id := grant_id;
      ri_employee_id := Assurance.employee_id score;
      ri_employee_name :=
        match employee with Some e => full_name e | None => Some "Unknown" end;
      ri_employee_title :=
        match employee with Some e => Data.e_job_title e | None => Some "Unknown" end;
      ri_resource_id := resource_id score;
      ri_resource_name := resource_name score;
      ri_resource_sensitivity := resource_sensitivity score;
      ri_assurance_score := overall_score score;
      ri_classification := classification score;
      ri_auto_certify_eligible := auto_certify_eligible score;
      ri_peer_percentage := peer_percentage score;
      ri_peers_with_access := peers_with_access score;
      ri_total_peers := Assurance.total_peers score;
      ri_usage_pattern := usage_pattern score;
      ri_days_since_last_use := days_since_last_use score;
      ri_explanations := explanations score;
      ri_clustering_consensus :=
        match consensus with Some c => consensus_score c | None => fl 0 end;
      ri_needs_clustering_review :=
        match consensus with Some c => needs_human_review c | None => false end;
      ri_clustering_disagreement :=
        match consensus with Some c => disagreement_reason c | None => None end
    |}.

Definition get_review_items (reviewer_employee_id : string)
    (include_auto_certified : bool) : list ReviewItem :=
  let direct_reports := direct_reports_of reviewer_employee_id in
  if bool_decide (direct_reports = ∅) then []
  else
    let review_items :=
      omap (review_item_of direct_reports include_auto_certified) assurance_scores in
    PyList.sort_asc ri_assurance_score review_items.

Definition grant_line_of (g : AssuranceScore) : GrantLine := {|
  gl_grant_id := grant_id g;
  gl_resource_name := resource_name g;
  gl_resource_sensitivity := resource_sensitivity g;
  gl_score := overall_score g;
  gl_classification := classification g;
  gl_usage_pattern := usage_pattern g;
  gl_peer_percentage := peer_percentage g;
  gl_explanations := explanations g
|}.

(** [len([g for g in grants if p(g)])] *)
Definition count_grants (p : AssuranceScore -> bool) (grants : list AssuranceScore) : Z :=
  Z.of_nat (length (filter (fun g => p g = true) grants)).

(** [None] is the empty dictionary returned for an unknown employee. *)
Definition get_employee_access_summary (employee_id : string) : option AccessSummary :=
  match find_employee employee_id with
  | None => None
  | Some employee =>
    let employee_grants :=
      filter (fun score => Assurance.employee_id score = employee_id)
             (map snd assurance_scores) in
    let consensus := consensus_results !! employee_id in
    Some {|
      as_employee_id := employee_id;
      as_employee_name := full_name employee;
      as_employee_title := Data.e_job_title employee;
      as_team_id := Data.e_team_id employee;
      as_manager_id := Data.e_manager_id employee;
      as_total_grants := Z.of_nat (length employee_grants);
      as_high_assurance_count :=
        count_grants (fun g => String.eqb (classification g) "high_assurance")
                     employee_grants;
      as_medium_assurance_count :=
        count_grants (fun g => String.eqb (classification g) "medium_assurance")
                     employee_grants;
      as_low_assurance_count :=
        count_grants (fun g => String.eqb (classification g) "low_assurance")
                     employee_grants;
      as_dormant_access_count :=
        count_grants (fun g => String.eqb (usage_pattern g) "dormant") employee_grants;
      as_auto_certify_eligible := count_grants auto_certify_eligible employee_grants;
      as_peer_count :=
        match consensus with Some c => peer_count c | None => 0 end;
      as_clustering_consensus :=
        match consensus with Some c => consensus_score c | None => fl 0 end;
      as_needs_clustering_review :=
        match consensus with Some c => needs_human_review c | None => false end;
      as_grants := map grant_line_of (PyList.sort_asc overall_score employee_grants)
    |}
  end.

End Queries.

End Review.

(** * Notions of the specification and example inputs *)

Module AssuranceSpec.
Import Num Assurance.
Local Open Scope Qc_scope.

(** A sensitivity value that names one of the four levels, whatever its
    letter case. *)
Definition names_a_level (s : string) : Prop :=
  Str.upper s ∈ ["PUBLIC"; "INTERNAL"; "CONFIDENTIAL"; "CRITICAL"].

End AssuranceSpec.

Module ConsensusSpec.
Import Num ClusteringData Consensus.
Local Open Scope Qc_scope.

(** The unordered pairs of positions of a list, each once. *)
Fixpoint unordered_pairs {A} (l : list A) : list (A * A) :=
  match l with
  | [] => []
  | a :: r => map (pair a) r ++ unordered_pairs r
  end.

Definition jaccard_ratio (p : gset string * gset string) : Qc :=
  of_int (set_len (p.1 ∩ p.2)) / of_int (set_len (p.1 ∪ p.2)).

(** The consensus score as the specification words it: the mean over all
    unordered pairs, the Jaccard index of two empty sets being 1.0. *)
Definition jaccard_spec (p : gset string * gset string) : Qc :=
  if bool_decide (p.1 = ∅ /\ p.2 = ∅) then fl 1.0 else jaccard_ratio p.

Definition consensus_score_spec (peer_sets : list (gset string)) : Qc :=
  if bool_decide (length peer_sets = 1%nat) then fl 1.0
  else mean (map jaccard_spec (unordered_pairs peer_sets)).

(** A pair that the double loop counts: not both sets empty. *)
Definition counted (p : gset string * gset string) : Prop :=
  p.1 <> ∅ \/ p.2 <> ∅.

Global Instance counted_dec p : Decision (counted p).
Proof. unfold counted. apply _. Defined.

Definition sim_of (oa ob : option (gset string)) : list Qc :=
  match oa, ob with
  | Some set_a, Some set_b =>
    if set_truthy set_a || set_truthy set_b then
      [if (0 <? set_len (set_a ∪ set_b))%Z
       then of_int (set_len (set_a ∩ set_b)) / of_int (set_len (set_a ∪ set_b))
       else fl 1.0]
    else []
  | _, _ => []
  end.

(** Two employees, each alone in its cluster under both K-means and the
    hierarchical strategy. *)
Definition singleton_clusters : AllAssignments :=
  let mk s e c := {| employee_id := e; strategy := s; cluster_id := c;
                     confidence := fl 1.0; is_outlier := false |} in
  [ (KMEANS, {[ "e1" := mk KMEANS "e1" 0%Z; "e2" := mk KMEANS "e2" 1%Z ]});
    (HIERARCHICAL,
     {[ "e1" := mk HIERARCHICAL "e1" 1%Z; "e2" := mk HIERARCHICAL "e2" 0%Z ]}) ].

(** An employee that both strategies voted an outlier. *)
Definition all_outlier : AllAssignments :=
  let mk s e := {| employee_id := e; strategy := s; cluster_id := (-1)%Z;
                   confidence := fl 0.0; is_outlier := true |} in
  [ (DBSCAN, {[ "e1" := mk DBSCAN "e1" ]});
    (GRAPH_COMMUNITY, {[ "e1" := mk GRAPH_COMMUNITY "e1" ]}) ].

(** Number of votes for a cluster id. *)
Definition occ (y : Z) (l : list Z) : Z := Z.of_nat (length (filter (eq y) l)).

(** The mode with ties broken towards the smallest id, as the
    specification words it. *)
Definition mode_smallest (l : list Z) : option Z :=
  let top := foldr Z.max 0%Z (map (fun y => occ y l) l) in
  match filter (fun y => occ y l = top) l with
  | [] => None
  | y :: ys => Some (foldr Z.min y ys)
  end.

(** The cluster ids voted by the strategies that did not mark the employee
    an outlier, in strategy order. *)
Definition votes_of (emp_assignments : list (ClusteringStrategy * ClusterAssignment))
    : list Z :=
  map (fun sa => cluster_id (snd sa))
      (filter (fun sa => is_outlier (snd sa) = false) emp_assignments).

(** The keys of a counter are in the order of first occurrence. *)
Definition first_occurrence_order (keys l : list Z) : Prop :=
  forall K1 k K2, keys = K1 ++ k :: K2 ->
    exists l1 l2, l = l1 ++ k :: l2 /\ (k ∉ l1) /\ forall y, y ∈ l1 -> y ∈ K1.

Definition keep_best (best : option (Z * Z)) (item : Z * Z) : option (Z * Z) :=
  match best with
  | None => Some item
  | Some b => if (snd b <? snd item)%Z then Some item else Some b
  end.

(** K-means votes cluster 3 and the hierarchical strategy cluster 1. *)
Definition tied_votes : AllAssignments :=
  let mk s c := {| employee_id := "e1"; strategy := s; cluster_id := c;
                   confidence := fl 1.0; is_outlier := false |} in
  [ (KMEANS, {[ "e1" := mk KMEANS 3%Z ]});
    (HIERARCHICAL, {[ "e1" := mk HIERARCHICAL 1%Z ]}) ].

End ConsensusSpec.

Module GraphSpec.
Import Num ClusteringData External Strategies.
Local Open Scope Qc_scope.

(** The matrix has an entry at every pair of positions below [n]. *)
Definition covers (M : Matrix) (n : nat) : Prop :=
  forall i j, (i < n)%nat -> (j < n)%nat ->
    exists row p, M !! i = Some row /\ row !! j = Some p.

(** An employee whose proximity to every other employee is below the edge
    threshold, at every pair of positions the graph construction reads. *)
Definition isolated (config : ClusteringConfig) (M : Matrix) (ids : list string)
    (emp : string) : Prop :=
  forall i j row p, (i < j < length ids)%nat ->
    M !! i = Some row -> row !! j = Some p ->
    ids !! i = Some emp \/ ids !! j = Some emp ->
    p < graph_min_edge_weight config.

(** The assignment the loop of [cluster_graph_community] computes for an
    id that is a node of [G]. *)
Definition assignment_of (G : Graph) (comms : list (gset string)) (emp : string)
    : ClusterAssignment :=
  let cid := default (-1)%Z (emp_to_cluster_of comms !! emp) in
  let nbrs_in :=
    filter (fun nw : string * Qc => nw.1 ∈ default ∅ (comms !! Z.to_nat cid))
           (default [] (ODict.get emp G)) in
  {| employee_id := emp; strategy := GRAPH_COMMUNITY; cluster_id := cid;
     confidence := if (0 <=? cid)%Z
                   then match nbrs_in with
                        | [] => fl 0.5
                        | _ => mean (map snd nbrs_in)
                        end
                   else fl 0.0;
     is_outlier := (cid =? -1)%Z |}.

(** Library functions for the examples: every clusterer raises and
    networkx is missing, unless replaced. *)
Definition no_library : Externals := {|
  np_exp := fun _ => fl 1;
  np_sqrt := fun x => x;
  fromisoformat := fun _ => None;
  KMeans := fun _ _ _ _ => None;
  AgglomerativeClustering := fun _ _ => None;
  DBSCAN_fit_predict := fun _ _ _ => None;
  silhouette_score := fun _ _ => None;
  louvain_communities := None
|}.

(** Louvain on a graph without edges: every node is its own community. *)
Definition louvain_singletons : Graph -> Qc -> Z -> option (list (gset string)) :=
  fun G _ _ => Some (map (fun nd => {[ nd.1 ]}) G).

Definition with_louvain (ext : Externals)
    (louvain : Graph -> Qc -> Z -> option (list (gset string))) : Externals := {|
  np_exp := np_exp ext;
  np_sqrt := np_sqrt ext;
  fromisoformat := fromisoformat ext;
  KMeans := KMeans ext;
  AgglomerativeClustering := AgglomerativeClustering ext;
  DBSCAN_fit_predict := DBSCAN_fit_predict ext;
  silhouette_score := silhouette_score ext;
  louvain_communities := Some louvain
|}.

(** Two employees with proximity 0.1, below the edge threshold 0.2. *)
Definition far_apart : Matrix := [ [fl 1; fl 0.1]; [fl 0.1; fl 1] ].

End GraphSpec.

Module ProximitySpec.
Import Num External PeerProximity.
Local Open Scope Qc_scope.

(** Usage intensities are not negative. *)
Definition nonneg_activity (f : EmployeeFeatures) : Prop :=
  forall r x, activity_vector f !! r = Some x -> 0 ≤ x.

Definition nonneg_weights (w : ProximityWeights) : Prop :=
  0 ≤ structural w /\ 0 ≤ functional w /\ 0 ≤ behavioral w /\ 0 ≤ temporal w.

(** [M[i, j]] *)
Definition entry (M : Matrix) (i j : nat) : option Qc := row ← M !! i; row !! j.

Definition square (n : nat) (M : Matrix) : Prop :=
  length M = n /\ Forall (fun row => length row = n) M.

(** Invariant of the filling loops: an [n] x [n] matrix, symmetric, with
    every entry between 0 and [B]. *)
Definition sym_bounded (n : nat) (B : Qc) (M : Matrix) : Prop :=
  square n M /\
  (forall i j, entry M i j = entry M j i) /\
  (forall i j x, entry M i j = Some x -> 0 ≤ x ≤ B).

(** An employee described by functional attributes only. *)
Definition engineer (id : string) : EmployeeFeatures := {|
  employee_id := id;
  manager_id := None; team_id := None; sub_lob_id := None; lob_id := None;
  location_id := None;
  job_title := Some "Engineer"; job_code := Some "ENG2";
  job_family := Some "Engineering"; job_level := 3;
  cost_center_id := Some "CC1";
  access_set := ∅; activity_vector := ∅;
  tenure_days := 0; time_in_role_days := 0; hire_quarter := ""
|}.

Definition two_engineers : gmap string EmployeeFeatures :=
  {[ "a" := engineer "a"; "b" := engineer "b" ]}.

(** Non-negative weights whose sum, 1.0005, passes [validate]. *)
Definition heavy_functional : ProximityWeights := {|
  structural := fl 0; functional := fl 1.0005; behavioral := fl 0; temporal := fl 0
|}.

End ProximitySpec.

Module EngineSpec.
Import Num External PeerProximity ClusteringData Assurance Engine.
Local Open Scope Qc_scope.

(** The weights divided by their sum. *)
Definition scaled (w : ProximityWeights) : ProximityWeights := {|
  structural := structural w / total w;
  functional := functional w / total w;
  behavioral := behavioral w / total w;
  temporal := temporal w / total w
|}.

Definition engineer_row (id : string) : Data.Employee := {|
  Data.e_id := id;
  Data.e_manager_id := Some "m1";
  Data.e_team_id := Some "t1";
  Data.e_location_id := Some "loc1";
  Data.e_cost_center_id := Some "cc1";
  Data.e_job_title := Some "Engineer";
  Data.e_job_code := Some "ENG2";
  Data.e_job_family := Some "Engineering";
  Data.e_job_level := 3;
  Data.e_hire_date := Some "2020-01-01";
  Data.e_role_start_date := None
|}.

Definition five_engineers : list Data.Employee :=
  map engineer_row ["e1"; "e2"; "e3"; "e4"; "e5"].

Definition one_team : list Data.Team :=
  [ {| Data.t_id := "t1"; Data.t_sub_lob_id := Some "s1"; Data.t_lob_id := Some "lob_1" |} ].

Definition one_sub_lob : list Data.SubLob :=
  [ {| Data.s_id := "s1"; Data.s_lob_id := Some "lob_1" |} ].

Definition one_lob : list Data.Lob :=
  [ {| Data.l_id := "lob_1"; Data.l_name := Some "Technology" |} ].

Definition one_resource : gmap string Data.Resource :=
  {[ "r1" := {| Data.r_id := "r1"; Data.r_sensitivity := Some "Internal";
                Data.r_name := Some "Wiki" |} ]}.

Definition five_grants : list Data.AccessGrant :=
  map (fun e => {| Data.g_id := "g-" +:+ e; Data.g_employee_id := e;
                   Data.g_resource_id := "r1" |})
      ["e1"; "e2"; "e3"; "e4"; "e5"].

(** The engine on this population, with the given proximity weights and
    the default clustering and assurance configurations. *)
Definition engine_with (w : ProximityWeights) : AnalyticsEngine :=
  make_engine (Some w) None None five_engineers one_team one_sub_lob one_lob
    one_resource five_grants ∅.

(** The library on this population: the date parser knows the one hire
    date (day 18262 of the epoch, naive), [np.exp] is only applied to 0,
    DBSCAN finds the five mutually close employees in one cluster; the
    other clusterers are not installed. *)
Definition example_library : Externals := {|
  np_exp := fun _ => fl 1;
  np_sqrt := fun x => x;
  fromisoformat := fun s =>
    if String.eqb s "2020-01-01"
    then Some {| dt_year := 2020; dt_month := 1; dt_aware := false;
                 dt_micros := 18262 * microseconds_per_day |}
    else None;
  KMeans := fun _ _ _ _ => None;
  AgglomerativeClustering := fun _ _ => None;
  DBSCAN_fit_predict := fun _ _ D => Some (replicate (length D) 0%Z);
  silhouette_score := fun _ _ => None;
  louvain_communities := None
|}.

(** A run on the given day of the epoch. *)
Definition on_day (d : Z) : Runtime := {|
  clock := fun _ => {| now_utc := d * microseconds_per_day;
                       now_local := d * microseconds_per_day |};
  list_of_set := elements
|}.

Definition ones : ProximityWeights :=
  {| structural := fl 1; functional := fl 1; behavioral := fl 1; temporal := fl 1 |}.

Definition quarters : ProximityWeights :=
  {| structural := fl 0.25; functional := fl 0.25;
     behavioral := fl 0.25; temporal := fl 0.25 |}.

(** Weights of sum 1.0005, within the tolerance of [validate]. *)
Definition near_one : ProximityWeights :=
  {| structural := fl 0.2; functional := fl 0.6005;
     behavioral := fl 0.1; temporal := fl 0.1 |}.

(** The confidence DBSCAN's assignment gives an employee in a result. *)
Definition dbscan_confidence (r : option AnalyticsResult) (e : string) : option Q :=
  res ← r;
  assignments ← ODict.get DBSCAN (cluster_assignments res);
  a ← assignments !! e;
  Some (this (ClusteringData.confidence a)).

(** The tenure in days of an employee in a result. *)
Definition tenure_in (r : option AnalyticsResult) (e : string) : option Z :=
  res ← r; f ← employee_features res !! e; Some (tenure_days f).

End EngineSpec.

(** Positions of the proximity matrix. *)

Module MatrixSpec.
Import Num External PeerProximity.
Import ProximitySpec.

Section Pairs.
Variable ext : Externals.
Variable weights : ProximityWeights.
Variable features : gmap string EmployeeFeatures.
Variable manager_chains : option (gmap string (list string)).
Variable employee_ids : list string.

(** The features of the employee at a position of the id list. *)
Definition features_at (i : nat) : option EmployeeFeatures :=
  employee_ids !! i ≫= (features !!.).

(** The proximity of the employees at two positions of the id list, and
    0.0 when one of them has no features. *)
Definition pair_proximity (i j : nat) : Qc :=
  match features_at i, features_at j with
  | Some feat_a, Some feat_b =>
    (calculate_proximity ext weights feat_a feat_b manager_chains).1
  | _, _ => fl 0
  end.

(** The key of the LOB group of an employee: [feat.lob_id or "unknown"]. *)
Definition lob_key (feat : EmployeeFeatures) : string :=
  match lob_id feat with
  | Some l => if Str.truthy l then l else "unknown"
  | None => "unknown"
  end.

(** Both positions have features, filed under the same LOB key. *)
Definition same_lob (i j : nat) : bool :=
  match features_at i, features_at j with
  | Some feat_a, Some feat_b => bool_decide (lob_key feat_a = lob_key feat_b)
  | _, _ => false
  end.

(** Both entries of a pair of positions hold the value [x]. *)
Definition both_hold (i j : nat) (x : Qc) (M : Matrix) : Prop :=
  entry M i j = Some x /\ entry M j i = Some x.

End Pairs.

End MatrixSpec.

(** Example inputs of the queries and of the strategies. *)

Module Examples.
Import Num External PeerProximity ClusteringData Assurance Engine.
Import ProximitySpec GraphSpec EngineSpec.

(** The two engineers, in the insertion order of the feature dictionary. *)
Definition engineers_in_order : list (string * EmployeeFeatures) :=
  [("a", engineer "a"); ("b", engineer "b")].

(** DBSCAN put two employees in cluster 0. *)
Definition one_cluster
    : list (ClusteringStrategy * list (string * ClusterAssignment)) :=
  let mk e := {| ClusteringData.employee_id := e; strategy := DBSCAN; cluster_id := 0;
                 confidence := fl 1.0; is_outlier := false |} in
  [ (DBSCAN, [("e1", mk "e1"); ("e2", mk "e2")]) ].

(** The same assignments, as [analyze_consensus] reads them. *)
Definition one_cluster_maps : Consensus.AllAssignments :=
  map (fun sa => (sa.1, list_to_map sa.2)) one_cluster.

(** Two employees of proximity 0.9. *)
Definition close_pair : Matrix := [ [fl 1; fl 0.9]; [fl 0.9; fl 1] ].

(** A K-means that puts every sample in cluster 0, at distance 0.5 of
    every centroid; the other clusterers are not installed. *)
Definition kmeans_library : Externals := {|
  np_exp := fun _ => fl 1;
  np_sqrt := fun x => x;
  fromisoformat := fun _ => None;
  KMeans := fun k _ _ D =>
    Some (replicate (length D) 0, replicate (length D) (replicate (Z.to_nat k) (fl 0.5)));
  AgglomerativeClustering := fun _ _ => None;
  DBSCAN_fit_predict := fun _ _ _ => None;
  silhouette_score := fun _ _ => None;
  louvain_communities := None
|}.

(** A grant used twelve times in the last 30 days, and one used twice,
    40 days ago for the last time. *)
Definition recent_use : UsagePattern := {|
  total_access_count := 50; last_accessed_days_ago := Some 5;
  access_count_30d := 12; access_count_90d := 30; days_since_grant := 400
|}.

Definition old_use : UsagePattern := {|
  total_access_count := 50; last_accessed_days_ago := Some 40;
  access_count_30d := 2; access_count_90d := 30; days_since_grant := 400
|}.

(** Two peers that both hold the resource. *)
Definition both_peers_hold : gmap string (gset string) :=
  {[ "P1" := {[ "R" ]} ; "P2" := {[ "R" ]} ]}.

(** The first grant of the five engineers, and its score without peers
    and without activity. *)
Definition first_grant : Data.AccessGrant :=
  {| Data.g_id := "g-e1"; Data.g_employee_id := "e1"; Data.g_resource_id := "r1" |}.

Definition first_score : AssuranceScore :=
  score_grant default_AssuranceConfig one_resource ∅ ∅
    (build_access_by_employee five_grants) first_grant.

End Examples.

(** * Properties *)


(** * Properties *)


(** ** Facts on the number layer *)

Module NumFacts.
Import Num.
Local Open Scope Qc_scope.

Lemma leb_le (x y : Qc) : leb x y = true <-> x ≤ y.
Proof. unfold leb, Qcle. apply Qle_bool_iff. Qed.

Lemma leb_gt (x y : Qc) : leb x y = false <-> y < x.
Proof.
  rewrite <- Bool.not_true_iff_false, leb_le. split.
  - apply Qcnot_le_lt.
  - apply Qclt_not_le.
Qed.

Lemma ltb_lt (x y : Qc) : ltb x y = true <-> x < y.
Proof. unfold ltb. rewrite Bool.negb_true_iff. apply leb_gt. Qed.

Lemma ltb_ge (x y : Qc) : ltb x y = false <-> y ≤ x.
Proof. unfold ltb. rewrite Bool.negb_false_iff. apply leb_le. Qed.

Lemma eqb_eq (x y : Qc) : eqb x y = true <-> x = y.
Proof.
  unfold eqb. rewrite Qeq_bool_iff. split.
  - apply Qc_is_canon.
  - intros ->. reflexivity.
Qed.

Lemma this_of_int (n : Z) : this (of_int n) = inject_Z n.
Proof. reflexivity. Qed.

(** Transfer of a goal on [Qc] to the rationals, where [lra] applies. *)
Ltac to_Q :=
  try apply Qc_is_canon;
  unfold Qcle, Qclt, Qcdiv, Qcminus, Qcplus, Qcmult, Qcopp, Qcinv,
         of_int, fl, Q2Qc in *;
  cbn [this Qc_of_Z] in *;
  rewrite ?Qred_correct in *.

Lemma of_int_le (a b : Z) : (a <= b)%Z -> of_int a ≤ of_int b.
Proof. intros H. to_Q. now rewrite <- Zle_Qle. Qed.

Lemma fmin_le_r (x y : Qc) : fmin x y ≤ y.
Proof.
  unfold fmin. destruct (leb x y) eqn:E.
  - now apply leb_le.
  - apply Qcle_refl.
Qed.

Lemma fmin_ge (x y z : Qc) : z ≤ x -> z ≤ y -> z ≤ fmin x y.
Proof. intros. unfold fmin. now destruct (leb x y). Qed.

Lemma fmax_ge_l (x y : Qc) : x ≤ fmax x y.
Proof.
  unfold fmax. destruct (leb y x) eqn:E.
  - apply Qcle_refl.
  - apply leb_gt in E. now apply Qclt_le_weak.
Qed.

(** Rounding to the nearest integer never crosses an integer. *)
Lemma round_half_even_le (x : Qc) (k : Z) :
  x ≤ of_int k -> (round_half_even x <= k)%Z.
Proof.
  intros H. unfold round_half_even.
  assert (Hf : (Qfloor x <= k)%Z).
  { rewrite <- (Qfloor_Z k). apply Qfloor_resp_le. exact H. }
  destruct (Z.eq_dec (Qfloor x) k) as [E|E].
  - assert (Hd : ltb (x - of_int (Qfloor x)) (fl 0.5) = true).
    { apply ltb_lt. rewrite E. to_Q. lra. }
    rewrite Hd. lia.
  - repeat match goal with |- context [if ?b then _ else _] => destruct b end; lia.
Qed.

Lemma round_half_even_ge (x : Qc) (k : Z) :
  of_int k ≤ x -> (k <= round_half_even x)%Z.
Proof.
  intros H. unfold round_half_even.
  assert (Hf : (k <= Qfloor x)%Z).
  { rewrite <- (Qfloor_Z k). apply Qfloor_resp_le. exact H. }
  repeat match goal with |- context [if ?b then _ else _] => destruct b end; lia.
Qed.

Lemma scale_1 : of_int (10 ^ Z.of_nat 1) = fl 10.
Proof. now apply Qc_is_canon. Qed.

Lemma of_int_0 : of_int 0 = 0.
Proof. now apply Qc_is_canon. Qed.

(** [round(x, 1)] stays below a bound that is a multiple of one tenth, and
    above zero on a non-negative argument. *)
Lemma py_round1_le (x : Qc) (k : Z) :
  x * fl 10 ≤ of_int k -> py_round x 1 * fl 10 ≤ of_int k.
Proof.
  intros H. unfold py_round. rewrite scale_1.
  apply round_half_even_le in H. apply of_int_le in H.
  replace (of_int (round_half_even (x * fl 10)) / fl 10 * fl 10)
    with (of_int (round_half_even (x * fl 10))); [exact H|].
  field. discriminate.
Qed.

Lemma py_round1_nonneg (x : Qc) : 0 ≤ x -> 0 ≤ py_round x 1.
Proof.
  intros H. unfold py_round. rewrite scale_1.
  assert (H0 : of_int 0 ≤ x * fl 10).
  { rewrite of_int_0, <- (Qcmult_0_l (fl 10)). now apply Qcmult_le_compat_r. }
  apply round_half_even_ge in H0. apply of_int_le in H0.
  rewrite of_int_0 in H0.
  unfold Qcdiv. apply Qcmult_nonneg_nonneg; [exact H0|].
  now apply Qclt_le_weak, Qcinv_pos.
Qed.

End NumFacts.

(** ** Properties of the assurance scorer *)

Module AssuranceProps.
Import Num NumFacts Assurance.
Import AssuranceSpec.
Local Open Scope Qc_scope.

(** The ceiling under the default configuration is one of the four
    configured values. *)
Lemma get_ceiling_default_cases (level : option string) :
  let c := get_ceiling default_SensitivityConfig level in
  c = fl 1.0 \/ c = fl 0.85 \/ c = fl 0.50 \/ c = fl 0.0.
Proof.
  unfold get_ceiling, getattr. cbn [PUBLIC INTERNAL CONFIDENTIAL CRITICAL default_SensitivityConfig].
  repeat match goal with |- context [if ?b then _ else _] => destruct b end; auto.
Qed.

Lemma count_le_length {A} (P : A -> Prop) `{!∀ x, Decision (P x)} (l : list A) :
  (Z.of_nat (length (filter P l)) <= Z.of_nat (length l))%Z.
Proof. apply inj_le, length_filter. Qed.

Lemma calculate_typicality_range eid rid peers acc :
  0 ≤ (calculate_typicality eid rid peers acc).1.1 ≤ 1.
Proof.
  unfold calculate_typicality. destruct peers as [|p ps] eqn:E.
  - cbn. split; to_Q; lra.
  - rewrite <- E. cbn [fst].
    assert (Hn : (0 < Z.of_nat (length peers))%Z) by (subst; cbn; lia).
    apply Z.ltb_lt in Hn as Hb. rewrite Hb.
    pose proof (count_le_length
      (fun peer_id => rid ∈ default (∅ : gset string) (acc !! peer_id)) peers) as Hc.
    set (k := Z.of_nat (length (filter _ peers))) in *.
    assert (Hk : (0 <= k)%Z) by (subst k; lia).
    set (n := Z.of_nat (length peers)) in *.
    assert (HnQ : (0 < inject_Z n)%Q) by (rewrite Zlt_Qlt in Hn; exact Hn).
    assert (HkQ : (0 <= inject_Z k)%Q) by (rewrite Zle_Qle in Hk; exact Hk).
    assert (HcQ : (inject_Z k <= inject_Z n)%Q) by (rewrite Zle_Qle in Hc; exact Hc).
    split; to_Q.
    + apply Qle_shift_div_l; [exact HnQ|]. lra.
    + apply Qle_shift_div_r; [exact HnQ|]. lra.
Qed.

Lemma calculate_usage_factor_range config usage :
  fl 0.1 ≤ (calculate_usage_factor config usage).1 ≤ 1.
Proof.
  unfold calculate_usage_factor.
  repeat match goal with
         | |- context [if ?b then _ else _] => destruct b
         | |- context [match ?o with Some _ => _ | None => _ end] => destruct o
         end; cbn [fst]; split; to_Q; lra.
Qed.

Lemma default_final_score_bounds (t u c : Qc) (k : Z) :
  0 ≤ t ≤ 1 -> fl 0.1 ≤ u ≤ 1 -> 0 ≤ c -> c * fl 1000 = of_int k ->
  let final := (fl 0.6 * t + fl 0.4 * u) * c * fl 100 in
  0 ≤ final /\ final * fl 10 ≤ of_int k.
Proof.
  intros [Ht0 Ht1] [Hu0 Hu1] Hc Hk final. subst final.
  rewrite <- Hk. clear Hk. to_Q.
  destruct t as [t ?], u as [u ?], c as [c ?]. cbn [this] in *.
  split; nra.
Qed.

(** C1. For every grant whose resource sensitivity is "Critical", whatever
    the peers, the usage, the thresholds and the weights of the
    configuration, as long as the Critical ceiling is the shipped 0.0:
    the score produced by [calculate_score] is not eligible for
    auto-certification and its overall score is 0. *)
Theorem C1_critical_never_auto_certified
    (config : AssuranceConfig) (gid eid rid : string) (rname : option string)
    (peers : list string) (acc : gmap string (gset string)) (usage : UsagePattern) :
  CRITICAL (sensitivity config) = fl 0.0 ->
  let s := calculate_score config gid eid rid (Some "Critical") rname peers acc usage in
  auto_certify_eligible s = false /\ overall_score s = fl 0.
Proof.
  intros Hcrit s. subst s. unfold calculate_score.
  destruct (calculate_typicality eid rid peers acc) as [[t pw] tp].
  destruct (calculate_usage_factor config usage) as [u lbl].
  assert (Hc : get_ceiling (sensitivity config) (Some "Critical") = fl 0).
  { unfold get_ceiling, getattr. cbn. rewrite Hcrit. now apply Qc_is_canon. }
  rewrite Hc.
  assert (Hf : (weight_typicality config * t + weight_usage config * u) * fl 0 * fl 100
               = fl 0).
  { replace (fl 0) with 0 by now apply Qc_is_canon. ring. }
  rewrite Hf.
  destruct (leb (high_assurance_threshold config) (fl 0));
    [|destruct (leb (medium_assurance_threshold config) (fl 0))];
    cbn; (split; [reflexivity | now apply Qc_is_canon]).
Qed.

Lemma C1_witness :
  CRITICAL (sensitivity default_AssuranceConfig) = fl 0.0 /\
  let s := calculate_score default_AssuranceConfig "g1" "E1" "R" (Some "Critical")
             (Some "Payments vault") ["P1"; "P2"]
             {[ "P1" := {[ "R" ]} ; "P2" := {[ "R" ]} ]}
             {| total_access_count := 50; last_accessed_days_ago := Some 2%Z;
                access_count_30d := 20; access_count_90d := 40;
                days_since_grant := 400 |} in
  auto_certify_eligible s = false /\ overall_score s = fl 0.
Proof.
  split; [reflexivity|].
  apply C1_critical_never_auto_certified. reflexivity.
Defined.

(** C3. Under the default configuration every score produced by
    [calculate_score] lies in [0, 100] and does not exceed 100 times the
    ceiling of the grant's resource sensitivity. *)
Theorem C3_overall_score_bounded
    (gid eid rid : string) (sens rname : option string)
    (peers : list string) (acc : gmap string (gset string)) (usage : UsagePattern) :
  let s := calculate_score default_AssuranceConfig gid eid rid sens rname peers acc usage in
  0 ≤ overall_score s ≤ fl 100 /\
  overall_score s ≤
    fl 100 * get_ceiling (sensitivity default_AssuranceConfig) (resource_sensitivity s).
Proof.
  intros s. subst s. unfold calculate_score.
  pose proof (calculate_typicality_range eid rid peers acc) as Ht.
  pose proof (calculate_usage_factor_range default_AssuranceConfig usage) as Hu.
  destruct (calculate_typicality eid rid peers acc) as [[t pw] tp].
  destruct (calculate_usage_factor default_AssuranceConfig usage) as [u lbl].
  cbn [fst] in Ht, Hu.
  cbn [sensitivity weight_typicality weight_usage default_AssuranceConfig].
  set (c := get_ceiling default_SensitivityConfig sens).
  set (final := (fl 0.6 * t + fl 0.4 * u) * c * fl 100).
  assert (Hb : exists k : Z, (k <= 1000)%Z /\ c * fl 1000 = of_int k /\
                             0 ≤ final /\ final * fl 10 ≤ of_int k).
  { pose proof (get_ceiling_default_cases sens) as Hc. cbv zeta in Hc. fold c in Hc.
    assert (Hcase : forall k : Z, (k <= 1000)%Z -> 0 ≤ c -> c * fl 1000 = of_int k ->
              (k <= 1000)%Z /\ c * fl 1000 = of_int k /\
              0 ≤ final /\ final * fl 10 ≤ of_int k).
    { intros k Hk1 Hc0 Hk. split; [exact Hk1|]. split; [exact Hk|].
      now apply (default_final_score_bounds t u c k Ht Hu). }
    destruct Hc as [Hc|[Hc|[Hc|Hc]]];
      [exists 1000%Z | exists 850%Z | exists 500%Z | exists 0%Z];
      (apply Hcase; [lia | rewrite Hc; to_Q; lra
                    | rewrite Hc; apply Qc_is_canon; vm_compute; reflexivity]). }
  destruct Hb as (k & Hk1000 & Hk & Hf0 & Hfk).
  assert (Hov : 0 ≤ py_round final 1 /\ py_round final 1 * fl 10 ≤ of_int k).
  { split; [now apply py_round1_nonneg | now apply py_round1_le]. }
  destruct Hov as [Ho0 Hok].
  assert (Hk' : of_int k ≤ of_int 1000) by now apply of_int_le.
  assert (Hgoal : 0 ≤ py_round final 1 ≤ fl 100 /\ py_round final 1 ≤ fl 100 * c).
  { rewrite <- Hk in Hok. clear Hfk Hf0 Hk1000. 
    generalize dependent (py_round final 1). intros o Ho0 Hok.
    rewrite <- Hk in Hk'. clear Hk.
    destruct o as [o ?], c as [c' ?]. to_Q. cbn [this] in *.
    unfold inject_Z in Hk'. repeat split; lra. }
  destruct (leb (high_assurance_threshold default_AssuranceConfig) final);
    [|destruct (leb (medium_assurance_threshold default_AssuranceConfig) final)];
    cbn [overall_score resource_sensitivity]; exact Hgoal.
Qed.

(** C9. The usage factor and label under the default day thresholds
    (30/90/365), case by case. *)
Theorem C9_usage_factor_table (usage : UsagePattern) :
  let r := calculate_usage_factor default_AssuranceConfig usage in
  let n30 := access_count_30d usage in
  (total_access_count usage = 0%Z \/ last_accessed_days_ago usage = None ->
     r = (fl 0.1, "dormant")) /\
  (forall days : Z,
     total_access_count usage <> 0%Z -> last_accessed_days_ago usage = Some days ->
     ((days <= 30)%Z -> (10 <= n30)%Z -> r = (fl 1.0, "active")) /\
     ((days <= 30)%Z -> (3 <= n30 < 10)%Z -> r = (fl 0.9, "active")) /\
     ((days <= 30)%Z -> (n30 < 3)%Z -> r = (fl 0.8, "active")) /\
     ((30 < days <= 90)%Z -> r = (fl 0.6, "occasional")) /\
     ((90 < days <= 365)%Z -> r = (fl 0.3, "stale")) /\
     ((365 < days)%Z -> r = (fl 0.1, "dormant"))).
Proof.
  intros r n30. subst r n30. unfold calculate_usage_factor.
  cbn [active_days_threshold occasional_days_threshold stale_days_threshold
       default_AssuranceConfig].
  split.
  - intros [H|H].
    + rewrite H. reflexivity.
    + rewrite H. now destruct (total_access_count usage =? 0)%Z.
  - intros days Hne Hd. rewrite Hd.
    apply Z.eqb_neq in Hne. rewrite Hne.
    repeat split; intros;
      repeat match goal with
             | |- context [(?a <=? ?b)%Z] => destruct (Z.leb_spec a b); try lia
             end; reflexivity.
Qed.

Lemma C9_witness :
  let usage := {| total_access_count := 12; last_accessed_days_ago := Some 45%Z;
                  access_count_30d := 0; access_count_90d := 12;
                  days_since_grant := 200 |} in
  total_access_count usage <> 0%Z /\ last_accessed_days_ago usage = Some 45%Z /\
  (30 < 45 <= 90)%Z /\
  calculate_usage_factor default_AssuranceConfig usage = (fl 0.6, "occasional").
Proof.
  intros usage.
  assert (Hne : total_access_count usage <> 0%Z) by (cbn; lia).
  assert (Hd : last_accessed_days_ago usage = Some 45%Z) by reflexivity.
  assert (Hr : (30 < 45 <= 90)%Z) by lia.
  split; [exact Hne|]. split; [exact Hd|]. split; [exact Hr|].
  exact (proj1 (proj2 (proj2 (proj2
           (proj2 (C9_usage_factor_table usage) 45%Z Hne Hd)))) Hr).
Defined.

(** Entries of a dictionary filled by a loop of [d[key a] = f a]. *)
Lemma foldl_insert_lookup {A B} (key : A -> string) (f : A -> B)
    (l : list A) (m0 : gmap string B) (k : string) (v : B) :
  foldl (fun m a => <[key a := f a]> m) m0 l !! k = Some v ->
  m0 !! k = Some v \/ exists a, a ∈ l /\ key a = k /\ v = f a.
Proof.
  revert m0. induction l as [|a l IH]; intros m0 H; cbn in H.
  - now left.
  - apply IH in H as [H|(b & Hb & Hk & Hv)].
    + destruct (decide (key a = k)) as [E|E].
      * rewrite <- E, lookup_insert_eq in H. injection H as <-.
        right. exists a. split; [constructor|]. auto.
      * rewrite lookup_insert_ne in H by exact E. now left.
    + right. exists b. split; [now constructor|]. auto.
Qed.

Lemma foldl_insert_is_Some {A B} (key : A -> string) (f : A -> B)
    (l : list A) (m0 : gmap string B) (k : string) :
  is_Some (m0 !! k) \/ (exists a, a ∈ l /\ key a = k) ->
  is_Some (foldl (fun m a => <[key a := f a]> m) m0 l !! k).
Proof.
  revert m0. induction l as [|a l IH]; intros m0 H; cbn.
  - destruct H as [H|(a & Ha & _)]; [exact H|]. inversion Ha.
  - apply IH. destruct H as [H|(b & Hb & Hk)].
    + left. destruct (decide (key a = k)) as [E|E].
      * rewrite <- E, lookup_insert_eq. eauto.
      * now rewrite lookup_insert_ne.
    + inversion Hb; subst.
      * left. rewrite lookup_insert_eq. eauto.
      * right. eauto.
Qed.

Lemma get_ceiling_fallback (cfg : SensitivityConfig) (level : option string) :
  match level with Some s => ~ names_a_level s | None => True end ->
  get_ceiling cfg level = INTERNAL cfg.
Proof.
  unfold get_ceiling, getattr. destruct level as [s|]; [|reflexivity].
  intros H. destruct (Str.truthy s); [|reflexivity].
  unfold names_a_level in H.
  repeat match goal with
         | |- context [String.eqb ?a ?b] =>
           let E := fresh "E" in
           destruct (String.eqb_spec a b) as [E|E];
           [exfalso; apply H; rewrite E; set_solver|]
         end.
  reflexivity.
Qed.



End AssuranceProps.

(** ** Properties of the consensus analysis *)

Module ConsensusProps.
Import Num NumFacts ClusteringData Consensus.
Import ConsensusSpec.
Local Open Scope Qc_scope.

Lemma flat_map_map {A B C} (f : B -> list C) (g : A -> B) (l : list A) :
  flat_map f (map g l) = flat_map (fun x => f (g x)) l.
Proof. induction l as [|a l IH]; cbn; [reflexivity|]. now rewrite IH. Qed.

Lemma flat_map_seq_lookup {A C} (G : option A -> list C) (r : list A) :
  flat_map (fun j => G (r !! j)) (seq 0 (length r)) =
  flat_map (fun b => G (Some b)) r.
Proof.
  revert G. induction r as [|a r IH]; intros G; [reflexivity|].
  cbn [length seq flat_map]. rewrite <- seq_shift, flat_map_map. cbn.
  f_equal. apply (IH G).
Qed.

Lemma set_truthy_true (s : gset string) : set_truthy s = true <-> s <> ∅.
Proof.
  unfold set_truthy. rewrite Bool.negb_true_iff, bool_decide_eq_false. tauto.
Qed.

Lemma set_len_union_pos (a b : gset string) :
  a <> ∅ \/ b <> ∅ -> (0 < set_len (a ∪ b))%Z.
Proof.
  intros H. unfold set_len.
  assert (size (a ∪ b) <> 0%nat); [|lia].
  intros Hs. apply size_empty_inv in Hs. apply leibniz_equiv in Hs.
  destruct H as [H|H]; apply H; apply leibniz_equiv; set_solver.
Qed.

Lemma sim_of_counted (a b : gset string) :
  sim_of (Some a) (Some b) =
  if decide (counted (a, b)) then [jaccard_ratio (a, b)] else [].
Proof.
  unfold sim_of, counted, jaccard_ratio. cbn [fst snd].
  destruct (decide (a <> ∅ \/ b <> ∅)) as [H|H].
  - assert (Ht : set_truthy a || set_truthy b = true).
    { apply Bool.orb_true_iff. rewrite !set_truthy_true. exact H. }
    rewrite Ht. apply set_len_union_pos in H.
    apply Z.ltb_lt in H. now rewrite H.
  - assert (Ht : set_truthy a || set_truthy b = false).
    { apply Bool.not_true_iff_false. rewrite Bool.orb_true_iff, !set_truthy_true.
      exact H. }
    now rewrite Ht.
Qed.

Lemma sim_row (a : gset string) (r : list (gset string)) :
  flat_map (fun b => sim_of (Some a) (Some b)) r =
  map jaccard_ratio (filter counted (map (pair a) r)).
Proof.
  induction r as [|b r IH]; [reflexivity|].
  cbn [flat_map map]. rewrite filter_cons, sim_of_counted, IH.
  now destruct (decide (counted (a, b))).
Qed.

(** The double loop over [i < j] visits the unordered pairs in order and
    keeps the Jaccard index of those that are not both empty. *)
Lemma pairwise_similarities_pairs (peer_sets : list (gset string)) :
  pairwise_similarities peer_sets =
  map jaccard_ratio (filter counted (unordered_pairs peer_sets)).
Proof.
  unfold pairwise_similarities.
  change (flat_map (fun i => flat_map (fun j => sim_of (peer_sets !! i) (peer_sets !! j))
                      (seq (i + 1) (length peer_sets - (i + 1))))
            (seq 0 (length peer_sets)) =
          map jaccard_ratio (filter counted (unordered_pairs peer_sets))).
  induction peer_sets as [|a r IH]; [reflexivity|].
  cbn [length seq flat_map unordered_pairs].
  rewrite filter_app, map_app. f_equal.
  - replace (S (length r) - (0 + 1))%nat with (length r) by lia.
    change (0 + 1)%nat with 1%nat.
    rewrite <- seq_shift, flat_map_map.
    etransitivity;
      [exact (flat_map_seq_lookup (fun ob => sim_of (Some a) ob) r)|].
    apply sim_row.
  - rewrite <- IH, <- seq_shift, flat_map_map.
    apply flat_map_ext. intros i.
    replace (S (length r) - (S i + 1))%nat with (length r - (i + 1))%nat by lia.
    replace (S i + 1)%nat with (S (i + 1)) by lia.
    rewrite <- seq_shift, flat_map_map. reflexivity.
Qed.

Section Score.
Variable config : ClusteringConfig.
Variable list_of_set : gset string -> list string.

Lemma consensus_score_unfold (all_assignments : AllAssignments) (emp_id : string) :
  let emp_assignments := collect_assignments all_assignments emp_id in
  consensus_score (consensus_for config list_of_set all_assignments emp_id) =
  if (Z.of_nat (length emp_assignments) =? 0)%Z then fl 0.0
  else calc_consensus_score (peer_sets_of all_assignments emp_id emp_assignments).
Proof.
  intros emp_assignments. unfold consensus_for. fold emp_assignments.
  destruct (Z.of_nat (length emp_assignments) =? 0)%Z; [reflexivity|].
  repeat match goal with
         | |- context [let '(_, _) := ?x in _] => destruct x eqn:?
         end.
  reflexivity.
Qed.

(** C5, as the code has it.  With exactly one successful strategy the
    consensus score is 1.0.  With two or more it is the mean of the
    Jaccard index over the unordered strategy pairs whose two peer sets
    are not both empty, and 0.0 when every pair has two empty peer sets
    (as for an employee that every strategy voted an outlier). *)
Theorem C5_consensus_score_counts_nonempty_pairs
    (all_assignments : AllAssignments) (emp_id : string) :
  let r := consensus_for config list_of_set all_assignments emp_id in
  let peer_sets :=
    peer_sets_of all_assignments emp_id (collect_assignments all_assignments emp_id) in
  let pairs := filter counted (unordered_pairs peer_sets) in
  (length peer_sets = 1%nat -> consensus_score r = fl 1.0) /\
  ((2 <= length peer_sets)%nat -> pairs = [] -> consensus_score r = fl 0.0) /\
  ((2 <= length peer_sets)%nat -> pairs <> [] ->
     consensus_score r = mean (map jaccard_ratio pairs)).
Proof.
  intros r peer_sets pairs. subst r. rewrite consensus_score_unfold.
  assert (Hlen : length peer_sets =
                 length (collect_assignments all_assignments emp_id)).
  { subst peer_sets. unfold peer_sets_of. apply length_map. }
  rewrite <- Hlen. fold peer_sets.
  unfold calc_consensus_score. rewrite pairwise_similarities_pairs. fold pairs.
  repeat split.
  - intros H1. rewrite H1. reflexivity.
  - intros H2 Hp.
    destruct (Z.eqb_spec (Z.of_nat (length peer_sets)) 0); [lia|].
    apply Nat.leb_le in H2. rewrite H2, Hp. reflexivity.
  - intros H2 Hp.
    destruct (Z.eqb_spec (Z.of_nat (length peer_sets)) 0); [lia|].
    apply Nat.leb_le in H2. rewrite H2.
    destruct pairs; [congruence|reflexivity].
Qed.

End Score.

Lemma C5_witness :
  let peer_sets :=
    peer_sets_of all_outlier "e1" (collect_assignments all_outlier "e1") in
  (2 <= length peer_sets)%nat /\
  filter counted (unordered_pairs peer_sets) = [] /\
  consensus_score (consensus_for default_ClusteringConfig elements all_outlier "e1")
  = fl 0.0.
Proof.
  intros peer_sets.
  assert (H2 : (2 <= length peer_sets)%nat) by (vm_compute; lia).
  assert (Hp : filter counted (unordered_pairs peer_sets) = []) by (vm_compute; reflexivity).
  split; [exact H2|]. split; [exact Hp|].
  exact (proj1 (proj2 (C5_consensus_score_counts_nonempty_pairs
                         default_ClusteringConfig elements all_outlier "e1")) H2 Hp).
Defined.

(** C5 fails as stated: with two successful strategies whose peer sets for
    the employee are both empty, the code yields 0.0 where the mean over
    all pairs with Jaccard(empty, empty) = 1.0 is 1.0 -- for an employee
    alone in its cluster under both strategies, and for an employee that
    both strategies voted an outlier. *)
Lemma C5_counterexample :
  (let r := consensus_for default_ClusteringConfig elements singleton_clusters "e1" in
   let peer_sets :=
     peer_sets_of singleton_clusters "e1" (collect_assignments singleton_clusters "e1") in
   total_strategies r = 2%Z /\ peer_sets = [∅; ∅] /\
   consensus_score_spec peer_sets = fl 1.0 /\
   consensus_score r = fl 0.0 /\
   consensus_score r <> consensus_score_spec peer_sets) /\
  (let r := consensus_for default_ClusteringConfig elements all_outlier "e1" in
   let peer_sets :=
     peer_sets_of all_outlier "e1" (collect_assignments all_outlier "e1") in
   total_strategies r = 2%Z /\
   Forall (fun sa => is_outlier (snd sa) = true) (assignments r) /\
   consensus_score_spec peer_sets = fl 1.0 /\
   consensus_score r = fl 0.0 /\
   consensus_score r <> fl 1.0).
Proof.
  split; cbv zeta.
  - assert (Hs : consensus_score
                   (consensus_for default_ClusteringConfig elements singleton_clusters "e1")
                 = fl 0.0) by (apply Qc_is_canon; vm_compute; reflexivity).
    assert (Hp : consensus_score_spec
                   (peer_sets_of singleton_clusters "e1"
                      (collect_assignments singleton_clusters "e1")) = fl 1.0)
      by (apply Qc_is_canon; vm_compute; reflexivity).
    split; [vm_compute; reflexivity|]. split; [vm_compute; reflexivity|].
    split; [exact Hp|]. split; [exact Hs|].
    rewrite Hs, Hp. intros H. apply (f_equal this) in H. discriminate H.
  - assert (Hs : consensus_score
                   (consensus_for default_ClusteringConfig elements all_outlier "e1")
                 = fl 0.0) by (apply Qc_is_canon; vm_compute; reflexivity).
    split; [vm_compute; reflexivity|].
    split; [vm_compute; repeat constructor|].
    split; [apply Qc_is_canon; vm_compute; reflexivity|]. split; [exact Hs|].
    rewrite Hs. intros H. apply (f_equal this) in H. discriminate H.
Qed.

(** *** The consensus cluster id *)

Lemma occ_cons (y x : Z) (l : list Z) :
  occ y (x :: l) = ((if decide (y = x) then 1 else 0) + occ y l)%Z.
Proof.
  unfold occ. rewrite filter_cons.
  destruct (decide (y = x)); cbn [length]; lia.
Qed.

Lemma occ_app (y : Z) (l1 l2 : list Z) : occ y (l1 ++ l2) = (occ y l1 + occ y l2)%Z.
Proof. unfold occ. rewrite filter_app, length_app. lia. Qed.

Lemma occ_nonneg (y : Z) (l : list Z) : (0 <= occ y l)%Z.
Proof. unfold occ. lia. Qed.

Lemma occ_not_in (y : Z) (l : list Z) : y ∉ l -> occ y l = 0%Z.
Proof.
  induction l as [|x l IH]; intros H; [reflexivity|].
  rewrite occ_cons. apply not_elem_of_cons in H as [Hne Hl].
  rewrite IH by exact Hl. now destruct (decide (y = x)).
Qed.

Lemma counter_get_cons (k n y : Z) (c : list (Z * Z)) :
  counter_get ((k, n) :: c) y = if decide (k = y) then n else counter_get c y.
Proof.
  unfold counter_get. cbn [list_find fst].
  destruct (decide (k = y)); [reflexivity|].
  destruct (list_find (fun p => p.1 = y) c) as [[i [a b]]|]; reflexivity.
Qed.

Lemma counter_get_add (x y : Z) (c : list (Z * Z)) :
  counter_get (counter_add x c) y =
  (counter_get c y + (if decide (y = x) then 1 else 0))%Z.
Proof.
  induction c as [|[k n] c IH]; cbn [counter_add].
  - rewrite counter_get_cons. unfold counter_get. cbn.
    destruct (decide (x = y)), (decide (y = x)); congruence || lia.
  - destruct (Z.eqb_spec k x) as [->|Hne]; rewrite !counter_get_cons.
    + destruct (decide (x = y)), (decide (y = x)); congruence || lia.
    + rewrite IH. destruct (decide (k = y)), (decide (y = x)); congruence || lia.
Qed.

Lemma keys_counter_add (x : Z) (c : list (Z * Z)) :
  map fst (counter_add x c) =
  if decide (x ∈ map fst c) then map fst c else map fst c ++ [x].
Proof.
  induction c as [|[k n] c IH]; cbn [counter_add map fst].
  - destruct (decide (x ∈ [])) as [H|_]; [inversion H|reflexivity].
  - destruct (Z.eqb_spec k x) as [->|Hne]; cbn [map fst].
    + destruct (decide (x ∈ x :: map fst c)) as [_|H]; [reflexivity|].
      exfalso. apply H. constructor.
    + rewrite IH.
      destruct (decide (x ∈ map fst c)) as [H|H];
        destruct (decide (x ∈ k :: map fst c)) as [H'|H']; try reflexivity.
      * exfalso. apply H'. now constructor.
      * apply elem_of_cons in H' as [->|H']; [congruence|contradiction].
Qed.

Lemma Counter_snoc (xs : list Z) (x : Z) :
  Counter (xs ++ [x]) = counter_add x (Counter xs).
Proof. unfold Counter. now rewrite foldl_app. Qed.

Lemma Counter_get (xs : list Z) (y : Z) : counter_get (Counter xs) y = occ y xs.
Proof.
  induction xs as [|x xs IH] using rev_ind; [reflexivity|].
  rewrite Counter_snoc, counter_get_add, IH, occ_app, occ_cons.
  unfold occ at 3. cbn. lia.
Qed.

Lemma Counter_keys (xs : list Z) :
  let keys := map fst (Counter xs) in
  NoDup keys /\ (forall y, y ∈ keys <-> y ∈ xs) /\ first_occurrence_order keys xs.
Proof.
  induction xs as [|x xs IH] using rev_ind.
  - cbn. split; [constructor|]. split; [reflexivity|].
    intros K1 k K2 H. destruct K1; discriminate H.
  - cbv zeta in *. destruct IH as (Hnd & Hin & Hord).
    rewrite Counter_snoc, keys_counter_add.
    destruct (decide (x ∈ map fst (Counter xs))) as [Hx|Hx].
    + split; [exact Hnd|]. split.
      * intros y. rewrite Hin, elem_of_app, list_elem_of_singleton.
        split; [tauto|]. intros [H| ->]; [exact H|]. now apply Hin.
      * intros K1 k K2 HK. destruct (Hord K1 k K2 HK) as (l1 & l2 & -> & Hk & Hl1).
        exists l1, (l2 ++ [x]). split; [now rewrite <- app_assoc|]. auto.
    + split.
      { apply NoDup_app. split; [exact Hnd|]. split.
        - intros y Hy Hy'. apply list_elem_of_singleton in Hy'. subst. contradiction.
        - apply NoDup_singleton. }
      split.
      { intros y. rewrite !elem_of_app, Hin. reflexivity. }
      intros K1 k K2 HK.
      destruct K2 as [|k2 K2] using rev_ind.
      * apply app_inj_tail in HK as [HK ->].
        exists xs, []. split; [reflexivity|]. split.
        -- intros H. apply Hx. now apply Hin.
        -- intros y Hy. rewrite <- HK. now apply Hin.
      * clear IHK2. rewrite app_comm_cons, app_assoc in HK.
        apply app_inj_tail in HK as [HK _].
        destruct (Hord K1 k K2 HK) as (l1 & l2 & -> & Hk & Hl1).
        exists l1, (l2 ++ [x]). split; [now rewrite <- app_assoc|]. auto.
Qed.

Lemma counter_get_entry (c : list (Z * Z)) (k n : Z) :
  NoDup (map fst c) -> (k, n) ∈ c -> counter_get c k = n.
Proof.
  induction c as [|[k' n'] c IH]; intros Hnd Hin; [inversion Hin|].
  rewrite counter_get_cons. cbn in Hnd. apply NoDup_cons in Hnd as [Hk' Hnd].
  apply elem_of_cons in Hin as [Heq|Hin].
  - injection Heq as -> ->. now destruct (decide (k' = k')).
  - destruct (decide (k' = k)) as [->|_]; [|now apply IH].
    exfalso. apply Hk'. apply list_elem_of_fmap. exists (k, n). auto.
Qed.

Lemma first_max_from (b : Z * Z) (c : list (Z * Z)) :
  exists r, foldl keep_best (Some b) c = Some r /\
    ((r = b /\ forall p, p ∈ c -> (snd p <= snd b)%Z) \/
     (exists c1 c2, c = c1 ++ r :: c2 /\ (snd b < snd r)%Z /\
        (forall p, p ∈ c1 -> (snd p < snd r)%Z) /\
        (forall p, p ∈ c2 -> (snd p <= snd r)%Z))).
Proof.
  revert b. induction c as [|p c IH]; intros b.
  - exists b. split; [reflexivity|]. left. split; [reflexivity|].
    intros p Hp. inversion Hp.
  - cbn [foldl keep_best]. destruct (Z.ltb_spec (snd b) (snd p)) as [Hlt|Hge].
    + destruct (IH p) as (r & Hr & [[-> Hall]|(c1 & c2 & -> & Hpr & H1 & H2)]).
      * exists p. split; [exact Hr|]. right. exists [], c.
        split; [reflexivity|]. split; [exact Hlt|]. split; [|exact Hall].
        intros q Hq. inversion Hq.
      * exists r. split; [exact Hr|]. right. exists (p :: c1), c2.
        split; [reflexivity|]. split; [lia|]. split; [|exact H2].
        intros q Hq. apply elem_of_cons in Hq as [->|Hq]; [lia|now apply H1].
    + destruct (IH b) as (r & Hr & [[-> Hall]|(c1 & c2 & -> & Hbr & H1 & H2)]).
      * exists b. split; [exact Hr|]. left. split; [reflexivity|].
        intros q Hq. apply elem_of_cons in Hq as [->|Hq]; [lia|now apply Hall].
      * exists r. split; [exact Hr|]. right. exists (p :: c1), c2.
        split; [reflexivity|]. split; [exact Hbr|]. split; [|exact H2].
        intros q Hq. apply elem_of_cons in Hq as [->|Hq]; [lia|now apply H1].
Qed.

(** [most_common(1)] is the first entry of maximal count. *)
Lemma most_common_1_first_max (c : list (Z * Z)) :
  c <> [] ->
  exists r c1 c2, most_common_1 c = Some r /\ c = c1 ++ r :: c2 /\
    (forall p, p ∈ c1 -> (snd p < snd r)%Z) /\
    (forall p, p ∈ c2 -> (snd p <= snd r)%Z).
Proof.
  destruct c as [|p c]; [congruence|]. intros _.
  unfold most_common_1. change (foldl _ None (p :: c)) with (foldl keep_best (Some p) c).
  destruct (first_max_from p c) as (r & Hr & [[-> Hall]|(c1 & c2 & -> & Hpr & H1 & H2)]).
  - exists p, [], c. split; [exact Hr|]. split; [reflexivity|].
    split; [|exact Hall]. intros q Hq. inversion Hq.
  - exists r, (p :: c1), c2. split; [exact Hr|]. split; [reflexivity|].
    split; [|exact H2].
    intros q Hq. apply elem_of_cons in Hq as [->|Hq]; [lia|now apply H1].
Qed.

(** The winner of [Counter(votes).most_common(1)]: a most voted id, and
    the one that is voted first among the most voted. *)
Lemma most_common_of_votes (votes : list Z) :
  votes <> [] ->
  exists c n l1 l2, most_common_1 (Counter votes) = Some (c, n) /\
    votes = l1 ++ c :: l2 /\ (c ∉ l1) /\
    (forall y, y ∈ l1 -> (occ y votes < occ c votes)%Z) /\
    (forall y, (occ y votes <= occ c votes)%Z).
Proof.
  intros Hne.
  destruct (Counter_keys votes) as (Hnd & Hin & Hord).
  assert (Hc : Counter votes <> []).
  { intros Hc. destruct votes as [|v vs]; [congruence|].
    assert (Hv : v ∈ map fst (Counter (v :: vs))) by (apply Hin; constructor).
    rewrite Hc in Hv. inversion Hv. }
  destruct (most_common_1_first_max _ Hc) as ([c n] & c1 & c2 & Hmc & Hdec & H1 & H2).
  assert (Hget : forall k m, (k, m) ∈ Counter votes -> m = occ k votes).
  { intros k m Hkm. rewrite <- Counter_get. symmetry. now apply counter_get_entry. }
  assert (Hn : n = occ c votes).
  { apply Hget. rewrite Hdec. apply elem_of_app. right. constructor. }
  destruct (Hord (map fst c1) c (map fst c2)) as (l1 & l2 & Hv & Hcl1 & Hl1).
  { rewrite Hdec, map_app. reflexivity. }
  exists c, n, l1, l2. split; [exact Hmc|]. split; [exact Hv|]. split; [exact Hcl1|].
  split.
  - intros y Hy. apply Hl1 in Hy. apply list_elem_of_fmap in Hy as ([k m] & -> & Hkm).
    cbn [fst]. rewrite <- Hn.
    assert (Hm : m = occ k votes).
    { apply Hget. rewrite Hdec. apply elem_of_app. now left. }
    rewrite <- Hm. apply (H1 _ Hkm).
  - intros y. destruct (decide (y ∈ votes)) as [Hy|Hy].
    + apply Hin in Hy. apply list_elem_of_fmap in Hy as ([k m] & -> & Hkm).
      cbn [fst]. rewrite <- Hn, <- (Hget k m Hkm).
      rewrite Hdec in Hkm. apply elem_of_app in Hkm as [Hkm|Hkm].
      * apply H1 in Hkm. cbn in Hkm. lia.
      * apply elem_of_cons in Hkm as [Heq|Hkm].
        -- injection Heq as -> ->. lia.
        -- apply H2 in Hkm. exact Hkm.
    + rewrite (occ_not_in y votes Hy). apply occ_nonneg.
Qed.

Section Cluster.
Variable config : ClusteringConfig.
Variable list_of_set : gset string -> list string.

Lemma consensus_cluster_unfold (all_assignments : AllAssignments) (emp_id : string) :
  let emp_assignments := collect_assignments all_assignments emp_id in
  let votes := votes_of emp_assignments in
  consensus_cluster_id (consensus_for config list_of_set all_assignments emp_id) =
  if (Z.of_nat (length emp_assignments) =? 0)%Z then None
  else Some match votes with
            | [] => (-1)%Z
            | _ => match most_common_1 (Counter votes) with
                   | Some (c, _) => c
                   | None => (-1)%Z
                   end
            end.
Proof.
  intros emp_assignments votes. unfold consensus_for. fold emp_assignments.
  destruct (Z.of_nat (length emp_assignments) =? 0)%Z; [reflexivity|].
  fold (votes_of emp_assignments). fold votes.
  repeat match goal with
         | |- context [let '(_, _) := ?x in _] => destruct x eqn:?
         end.
  cbn [consensus_cluster_id]. f_equal.
  destruct votes; congruence.
Qed.

(** C6, as the code has it.  With no successful strategy there is no
    consensus cluster id.  When every successful strategy voted the
    employee an outlier it is -1.  Otherwise it is a most voted id among
    the non-outlier votes, and among the most voted ids the one whose
    first vote comes first in strategy order: every id voted before it
    has strictly fewer votes. *)
Theorem C6_consensus_cluster_is_first_mode
    (all_assignments : AllAssignments) (emp_id : string) :
  let r := consensus_for config list_of_set all_assignments emp_id in
  let emp_assignments := collect_assignments all_assignments emp_id in
  let votes := votes_of emp_assignments in
  (emp_assignments = [] -> consensus_cluster_id r = None) /\
  (emp_assignments <> [] ->
   Forall (fun sa => is_outlier (snd sa) = true) emp_assignments ->
   consensus_cluster_id r = Some (-1)%Z) /\
  (votes <> [] ->
   exists c l1 l2,
     consensus_cluster_id r = Some c /\
     votes = l1 ++ c :: l2 /\ (c ∉ l1) /\
     (forall y, y ∈ l1 -> (occ y votes < occ c votes)%Z) /\
     (forall y, (occ y votes <= occ c votes)%Z)).
Proof.
  intros r emp_assignments votes. subst r.
  rewrite consensus_cluster_unfold. fold emp_assignments. fold votes.
  repeat split.
  - intros ->. reflexivity.
  - intros Hne Hall.
    destruct emp_assignments as [|a l] eqn:E; [congruence|].
    replace (Z.of_nat (length (a :: l)) =? 0)%Z with false
      by (symmetry; apply Z.eqb_neq; cbn [length]; lia).
    assert (Hv : votes = []).
    { subst votes. unfold votes_of. rewrite <- E in Hall |- *. clear E Hne.
      induction Hall as [|x xs Hx _ IH]; [reflexivity|].
      rewrite filter_cons_False by congruence. exact IH. }
    now rewrite Hv.
  - intros Hv.
    destruct (most_common_of_votes votes Hv) as (c & n & l1 & l2 & Hmc & H).
    exists c, l1, l2. split; [|exact H].
    assert (Hl : emp_assignments <> []).
    { intros E. apply Hv. subst votes. now rewrite E. }
    replace (Z.of_nat (length emp_assignments) =? 0)%Z with false
      by (symmetry; apply Z.eqb_neq; destruct emp_assignments; [congruence|cbn; lia]).
    rewrite Hmc. now destruct votes.
Qed.

End Cluster.

Lemma C6_witness :
  let votes := votes_of (collect_assignments tied_votes "e1") in
  votes <> [] /\
  exists c l1 l2,
    consensus_cluster_id
      (consensus_for default_ClusteringConfig elements tied_votes "e1") = Some c /\
    votes = l1 ++ c :: l2 /\ (c ∉ l1) /\
    (forall y, y ∈ l1 -> (occ y votes < occ c votes)%Z) /\
    (forall y, (occ y votes <= occ c votes)%Z).
Proof.
  intros votes.
  assert (Hv : votes <> []) by (vm_compute; discriminate).
  split; [exact Hv|].
  exact (proj2 (proj2 (C6_consensus_cluster_is_first_mode
                         default_ClusteringConfig elements tied_votes "e1")) Hv).
Defined.

(** C6 fails as stated: on a tie between cluster 3 (voted first) and
    cluster 1 the code returns 3, not the smallest id 1. *)
Lemma C6_counterexample :
  let r := consensus_for default_ClusteringConfig elements tied_votes "e1" in
  let votes := votes_of (collect_assignments tied_votes "e1") in
  votes = [3%Z; 1%Z] /\
  mode_smallest votes = Some 1%Z /\
  consensus_cluster_id r = Some 3%Z /\
  consensus_cluster_id r <> mode_smallest votes.
Proof.
  cbv zeta.
  assert (Hr : consensus_cluster_id
                 (consensus_for default_ClusteringConfig elements tied_votes "e1")
               = Some 3%Z) by (vm_compute; reflexivity).
  assert (Hm : mode_smallest (votes_of (collect_assignments tied_votes "e1"))
               = Some 1%Z) by (vm_compute; reflexivity).
  split; [vm_compute; reflexivity|]. split; [exact Hm|]. split; [exact Hr|].
  rewrite Hr, Hm. discriminate.
Qed.

End ConsensusProps.

(** ** Properties of the graph-community strategy *)

Module GraphProps.
Import Num NumFacts ClusteringData External Strategies.
Import GraphSpec.
Local Open Scope Qc_scope.

Lemma assign_all_snoc (ids : list string) (e : string)
    (body : nat -> string -> option ClusterAssignment) :
  assign_all (ids ++ [e]) body =
  (m ← assign_all ids body; a ← body (length ids) e; Some (<[e := a]> m)).
Proof.
  unfold assign_all. rewrite imap_app, foldl_app. cbn.
  rewrite Nat.add_0_r. reflexivity.
Qed.

(** A loop body that succeeds on every id, with a result that does not
    depend on the position, fills the dictionary for every id. *)
Lemma assign_all_total (ids : list string)
    (body : nat -> string -> option ClusterAssignment)
    (f : string -> ClusterAssignment) :
  (forall i e, ids !! i = Some e -> body i e = Some (f e)) ->
  exists res, assign_all ids body = Some res /\
    (forall e, e ∈ ids -> res !! e = Some (f e)) /\
    (forall e a, res !! e = Some a -> e ∈ ids).
Proof.
  induction ids as [|e ids IH] using rev_ind; intros Hbody.
  - exists ∅. split; [reflexivity|]. split.
    + intros e He. inversion He.
    + intros e a Hea. rewrite lookup_empty in Hea. discriminate.
  - destruct IH as (res & Hres & Hin & Hdom).
    { intros i x Hi. apply Hbody. now apply lookup_app_l_Some. }
    rewrite assign_all_snoc, Hres. cbn.
    rewrite (Hbody (length ids) e) by (rewrite lookup_app_r, Nat.sub_diag by lia; reflexivity).
    cbn. eexists. split; [reflexivity|]. split.
    + intros x Hx. destruct (decide (e = x)) as [->|Hne].
      * apply lookup_insert_eq.
      * rewrite lookup_insert_ne by exact Hne. apply Hin.
        apply elem_of_app in Hx as [Hx|Hx]; [exact Hx|].
        apply list_elem_of_singleton in Hx. congruence.
    + intros x a Hxa. destruct (decide (e = x)) as [->|Hne].
      * apply elem_of_app. right. constructor.
      * rewrite lookup_insert_ne in Hxa by exact Hne.
        apply elem_of_app. left. eauto.
Qed.

(** *** The adjacency dictionary *)

Lemma get_set_eq {V} (k : string) (v : V) (d : list (string * V)) :
  ODict.get k (ODict.set k v d) = Some v.
Proof.
  induction d as [|[k' v'] d IH]; cbn.
  - now destruct (decide (k = k)).
  - destruct (decide (k' = k)) as [E|E]; cbn.
    + now rewrite decide_True by exact E.
    + now rewrite decide_False by exact E.
Qed.

Lemma get_set_ne {V} (k k0 : string) (v : V) (d : list (string * V)) :
  k <> k0 -> ODict.get k0 (ODict.set k v d) = ODict.get k0 d.
Proof.
  intros Hne. induction d as [|[k' v'] d IH]; cbn.
  - now rewrite decide_False by exact Hne.
  - destruct (decide (k' = k)) as [E|E]; cbn.
    + subst. now rewrite !decide_False by exact Hne.
    + destruct (decide (k' = k0)); [reflexivity|exact IH].
Qed.

Lemma get_add_node (n k : string) (G : Graph) :
  ODict.get k (add_node n G) =
  if decide (n = k) then Some (default [] (ODict.get k G)) else ODict.get k G.
Proof.
  unfold add_node. destruct (ODict.get n G) as [v|] eqn:E.
  - destruct (decide (n = k)) as [->|]; [now rewrite E|reflexivity].
  - destruct (decide (n = k)) as [->|Hne].
    + now rewrite get_set_eq, E.
    + now apply get_set_ne.
Qed.

Lemma add_node_keeps (n k : string) (G : Graph) :
  is_Some (ODict.get k G) -> is_Some (ODict.get k (add_node n G)).
Proof.
  intros H. rewrite get_add_node. destruct (decide (n = k)); [eauto|exact H].
Qed.

Lemma add_node_has (n : string) (G : Graph) : is_Some (ODict.get n (add_node n G)).
Proof. rewrite get_add_node, decide_True by reflexivity. eauto. Qed.

Lemma add_edge_keeps (u v k : string) (w : Qc) (G : Graph) :
  is_Some (ODict.get k G) -> is_Some (ODict.get k (add_edge u v w G)).
Proof.
  intros H. unfold add_edge.
  destruct (decide (v = k)) as [->|Hv]; [rewrite get_set_eq; eauto|].
  rewrite get_set_ne by exact Hv.
  destruct (decide (u = k)) as [->|Hu]; [rewrite get_set_eq; eauto|].
  rewrite get_set_ne by exact Hu.
  now apply add_node_keeps, add_node_keeps.
Qed.

Lemma add_edge_other (u v k : string) (w : Qc) (G : Graph) :
  u <> k -> v <> k -> ODict.get k (add_edge u v w G) = ODict.get k G.
Proof.
  intros Hu Hv. unfold add_edge.
  rewrite get_set_ne by exact Hv. rewrite get_set_ne by exact Hu.
  rewrite !get_add_node. now rewrite !decide_False by assumption.
Qed.

Lemma get_initial_nodes (ids : list string) (G : Graph) (k : string) :
  ODict.get k (foldl (fun G emp_id => add_node emp_id G) G ids) =
  if decide (k ∈ ids) then Some (default [] (ODict.get k G)) else ODict.get k G.
Proof.
  revert G. induction ids as [|e ids IH]; intros G; cbn [foldl].
  - destruct (decide (k ∈ [])) as [H|_]; [inversion H|reflexivity].
  - rewrite IH, get_add_node.
    destruct (decide (k ∈ ids)) as [Hin|Hin];
      destruct (decide (k ∈ e :: ids)) as [Hin'|Hin'];
      destruct (decide (e = k)) as [->|Hne]; try reflexivity.
    + exfalso. apply Hin'. now constructor.
    + exfalso. apply Hin'. now constructor.
    + apply elem_of_cons in Hin' as [->|?]; [congruence|contradiction].
    + exfalso. apply Hin'. constructor.
Qed.

Section BuildGraph.
Variable config : ClusteringConfig.
Variable M : Matrix.
Variable ids : list string.
Hypothesis Hcovers : covers M (length ids).

Variable P : Graph -> Prop.
Hypothesis Hstep : forall G i j row p ei ej,
  (i < j < length ids)%nat ->
  M !! i = Some row -> row !! j = Some p ->
  ids !! i = Some ei -> ids !! j = Some ej ->
  P G -> graph_min_edge_weight config ≤ p -> P (add_edge ei ej p G).

Lemma inner_loop_inv (i : nat) (js : list nat) (G : Graph) :
  Forall (fun j => (i < j < length ids)%nat) js -> P G ->
  exists G', foldl (add_pair config M ids i) (Some G) js = Some G' /\ P G'.
Proof.
  revert G. induction js as [|j js IH]; intros G Hjs HG.
  - exists G. split; [reflexivity|exact HG].
  - apply Forall_cons in Hjs as [Hj Hjs]. cbn [foldl].
    destruct (Hcovers i j) as (row & p & Hrow & Hp); [lia|lia|].
    destruct (lookup_lt_is_Some_2 ids i) as [ei Hei]; [lia|].
    destruct (lookup_lt_is_Some_2 ids j) as [ej Hej]; [lia|].
    unfold add_pair at 2. cbn. rewrite Hrow. cbn. rewrite Hp. cbn.
    rewrite Hei. cbn. rewrite Hej. cbn.
    destruct (leb (graph_min_edge_weight config) p) eqn:Hle.
    + apply IH; [exact Hjs|].
      apply (Hstep G i j row p ei ej); auto. now apply leb_le.
    + now apply IH.
Qed.

Lemma build_graph_inv :
  P (foldl (fun G emp_id => add_node emp_id G) [] ids) ->
  exists G, build_graph config M ids = Some G /\ P G.
Proof.
  unfold build_graph.
  generalize (foldl (fun G emp_id => add_node emp_id G) [] ids). intros G0 HG0.
  assert (Hall : Forall (fun i => (i < length ids)%nat) (seq 0 (length ids))).
  { apply Forall_forall. intros i Hi. apply elem_of_seq in Hi. lia. }
  revert G0 HG0 Hall. generalize (seq 0 (length ids)). intros l.
  induction l as [|i l IH]; intros G0 HG0 Hall.
  - exists G0. split; [reflexivity|exact HG0].
  - apply Forall_cons in Hall as [Hi Hall]. cbn [foldl].
    destruct (inner_loop_inv i (seq (i + 1) (length ids - (i + 1))) G0)
      as (G1 & HG1 & HP1); [|exact HG0|].
    { apply Forall_forall. intros j Hj. apply elem_of_seq in Hj. lia. }
    rewrite HG1. now apply IH.
Qed.

End BuildGraph.

Lemma emp_to_cluster_snoc (comms : list (gset string)) (c : gset string) :
  emp_to_cluster_of (comms ++ [c]) =
  gset_to_gmap (Z.of_nat (length comms)) c ∪ emp_to_cluster_of comms.
Proof.
  unfold emp_to_cluster_of. rewrite imap_app, foldl_app. cbn.
  now rewrite Nat.add_0_r.
Qed.

(** An id is mapped to the index of a community that holds it. *)
Lemma emp_to_cluster_member (comms : list (gset string)) (e : string) (k : Z) :
  emp_to_cluster_of comms !! e = Some k ->
  exists i community,
    k = Z.of_nat i /\ comms !! i = Some community /\ e ∈ community.
Proof.
  induction comms as [|c comms IH] using rev_ind; intros H.
  - unfold emp_to_cluster_of in H. cbn in H. rewrite lookup_empty in H. discriminate.
  - rewrite emp_to_cluster_snoc in H.
    apply lookup_union_Some_raw in H as [H|[_ H]].
    + apply lookup_gset_to_gmap_Some in H as [He <-].
      exists (length comms), c. split; [reflexivity|]. split; [|exact He].
      rewrite lookup_app_r, Nat.sub_diag by lia. reflexivity.
    + destruct (IH H) as (i & community & -> & Hi & He).
      exists i, community. split; [reflexivity|]. split; [|exact He].
      now apply lookup_app_l_Some.
Qed.

Lemma graph_assignments_total (G : Graph) (comms : list (gset string))
    (ids : list string) :
  (forall e, e ∈ ids -> is_Some (ODict.get e G)) ->
  exists res, graph_assignments G comms ids = Some res /\
    (forall e, e ∈ ids -> res !! e = Some (assignment_of G comms e)) /\
    (forall e a, res !! e = Some a -> e ∈ ids).
Proof.
  intros Hnodes. unfold graph_assignments.
  destruct (assign_all_total ids
    (fun (_ : nat) emp_id =>
       let cluster_id := default (-1)%Z (emp_to_cluster_of comms !! emp_id) in
       confidence ←
         (if (0 <=? cluster_id)%Z then
            community ← comms !! Z.to_nat cluster_id;
            neighbors ← ODict.get emp_id G;
            let neighbors_in_community :=
              filter (fun nw : string * Qc => nw.1 ∈ community) neighbors in
            match neighbors_in_community with
            | [] => Some (fl 0.5)
            | _ => Some (mean (map snd neighbors_in_community))
            end
          else Some (fl 0.0));
       Some {| employee_id := emp_id; strategy := GRAPH_COMMUNITY;
               cluster_id := cluster_id; confidence := confidence;
               is_outlier := (cluster_id =? -1)%Z |})
    (assignment_of G comms)) as (res & Hres & Hin & Hdom).
  - intros i e Hie.
    assert (He : e ∈ ids) by (apply list_elem_of_lookup; eauto).
    destruct (Hnodes e He) as [nbrs Hnbrs].
    unfold assignment_of. cbv beta zeta. rewrite Hnbrs. cbn [default from_option id].
    destruct (emp_to_cluster_of comms !! e) as [k|] eqn:Hk; cbn [default from_option id].
    + destruct (emp_to_cluster_member comms e k Hk) as (n & community & -> & Hn & _).
      rewrite Nat2Z.id, Hn. cbn.
      destruct (0 <=? Z.of_nat n)%Z; cbn; [|reflexivity].
      now destruct (filter _ nbrs).
    + reflexivity.
  - exists res. split; [exact Hres|]. split; [exact Hin|exact Hdom].
Qed.


Lemma far_apart_covers : covers far_apart 2.
Proof.
  intros i j Hi Hj.
  destruct i as [|[|i]]; [| |lia]; (destruct j as [|[|j]]; [| |lia]);
    cbn; eauto.
Qed.

Lemma far_apart_isolated (emp : string) :
  isolated default_ClusteringConfig far_apart ["a"; "b"] emp.
Proof.
  intros i j row p Hij Hrow Hp _. cbn [length] in Hij.
  assert (i = 0%nat /\ j = 1%nat) as [-> ->] by lia.
  cbn in Hrow. injection Hrow as <-. cbn in Hp. injection Hp as <-.
  reflexivity.
Qed.



End GraphProps.

(** ** Properties of the proximity calculator *)

Module ProximityProps.
Import Num NumFacts External PeerProximity.
Import ProximitySpec.
Local Open Scope Qc_scope.

Lemma div_nonneg (x y : Qc) : 0 ≤ x -> 0 < y -> 0 ≤ x / y.
Proof.
  intros Hx Hy. unfold Qcdiv. apply Qcmult_nonneg_nonneg; [exact Hx|].
  now apply Qclt_le_weak, Qcinv_pos.
Qed.

Lemma of_int_nonneg (n : Z) : (0 <= n)%Z -> 0 ≤ of_int n.
Proof. intros H. rewrite <- of_int_0. now apply of_int_le. Qed.

Lemma of_int_pos (n : Z) : (0 < n)%Z -> 0 < of_int n.
Proof. intros H. to_Q. unfold Qlt. cbn. lia. Qed.

Lemma fl_0 : fl 0 = 0.
Proof. now apply Qc_is_canon. Qed.

Lemma fl_0_0 : fl 0.0 = 0.
Proof. now apply Qc_is_canon. Qed.

Lemma fl_1_0 : fl 1.0 = 1.
Proof. now apply Qc_is_canon. Qed.

(** Adding a non-negative term, possibly under a test, keeps a score
    non-negative. *)
Lemma add_if_nonneg (b : bool) (s t : Qc) :
  0 ≤ s -> 0 ≤ t -> 0 ≤ (if b then s + t else s).
Proof. intros Hs Ht. destruct b; [now apply Qcplus_nonneg_nonneg|exact Hs]. Qed.

Lemma clip_range (s : Qc) : 0 ≤ s -> 0 ≤ fmin s (fl 1.0) ≤ 1.
Proof.
  intros Hs. split.
  - apply fmin_ge; [exact Hs|]. to_Q. lra.
  - pose proof (fmin_le_r s (fl 1.0)) as H. now rewrite fl_1_0 in H at 2.
Qed.

Ltac lit := to_Q; lra.

Section Scores.
Variable ext : Externals.
Hypothesis np_exp_nonneg : forall x, 0 ≤ np_exp ext x.

Lemma manager_distance_term_nonneg a b chains :
  0 ≤ manager_distance_term a b chains.
Proof.
  unfold manager_distance_term. destruct chains as [chains|]; [|lit].
  destruct (bool_decide (chains = ∅)); [lit|].
  set (chain_a := default [] (chains !! employee_id a)).
  set (chain_b := default [] (chains !! employee_id b)).
  assert (Hidx : forall x l, (0 <= index_of x l)%Z).
  { intros x l. unfold index_of. induction l as [|y l IH]; cbn; [lia|].
    destruct (decide (y = x)); cbn; [lia|].
    destruct (index_opt x l); cbn in *; lia. }
  assert (Hmin : forall l,
    match foldr (fun ancestor best =>
                   let d := (index_of ancestor chain_a + index_of ancestor chain_b)%Z in
                   match best with
                   | None => Some d
                   | Some m => Some (Z.min m d)
                   end) None l with
    | Some d => (0 <= d)%Z
    | None => True
    end).
  { induction l as [|x l IH]; cbn; [exact I|].
    pose proof (Hidx x chain_a). pose proof (Hidx x chain_b).
    destruct (foldr _ None l); lia. }
  specialize (Hmin (elements (list_to_set chain_a ∩ list_to_set chain_b : gset string))).
  destruct (foldr _ None _) as [d|]; [|lit].
  apply Qcmult_nonneg_nonneg; [lit|].
  apply div_nonneg; [lit|].
  apply Qclt_le_trans with (fl 1.0); [lit|].
  rewrite <- (Qcplus_0_r (fl 1.0)) at 1.
  apply Qcplus_le_mono_l. now apply of_int_nonneg.
Qed.

Lemma structural_range a b chains :
  0 ≤ calculate_structural_proximity a b chains ≤ 1.
Proof.
  unfold calculate_structural_proximity. apply clip_range.
  repeat first [ apply add_if_nonneg | apply Qcplus_nonneg_nonneg
               | apply manager_distance_term_nonneg | lit ].
Qed.

Lemma functional_range a b : 0 ≤ calculate_functional_proximity a b ≤ 1.
Proof.
  unfold calculate_functional_proximity. apply clip_range.
  repeat first [ apply add_if_nonneg | apply Qcplus_nonneg_nonneg | lit ].
  apply Qcmult_nonneg_nonneg; [lit|].
  rewrite <- fl_0. apply fmax_ge_l.
Qed.

Lemma fsum_nonneg (xs : list Qc) : Forall (fun x => 0 ≤ x) xs -> 0 ≤ fsum xs.
Proof.
  induction 1 as [|x xs Hx _ IH]; cbn; [lit|].
  now apply Qcplus_nonneg_nonneg.
Qed.

Lemma zip_mult_nonneg (xs ys : list Qc) :
  Forall (fun x => 0 ≤ x) xs -> Forall (fun x => 0 ≤ x) ys ->
  Forall (fun x => 0 ≤ x) (zip_with Qcmult xs ys).
Proof.
  intros Hx. revert ys. induction Hx as [|x xs Hx _ IH]; intros ys Hy; [constructor|].
  destruct Hy as [|y ys Hy Hys]; cbn; [constructor|].
  constructor; [now apply Qcmult_nonneg_nonneg|now apply IH].
Qed.

Lemma activity_values_nonneg f (rs : list string) :
  nonneg_activity f ->
  Forall (fun x => 0 ≤ x) (map (fun r => default (fl 0) (activity_vector f !! r)) rs).
Proof.
  intros Hf. apply Forall_fmap, Forall_forall. intros r _. cbn.
  destruct (activity_vector f !! r) as [x|] eqn:E; cbn; [now apply (Hf r)|lit].
Qed.

Lemma behavioral_range a b :
  nonneg_activity a -> nonneg_activity b ->
  0 ≤ calculate_behavioral_proximity ext a b ≤ 1.
Proof.
  intros Ha Hb. unfold calculate_behavioral_proximity. apply clip_range.
  set (s1 := if _ || _ then _ else fl 0.0).
  assert (Hs1 : 0 ≤ s1).
  { subst s1. destruct (_ || _); [|lit].
    destruct (Z.ltb_spec 0 (Z.of_nat (size (access_set a ∪ access_set b)))); [|lit].
    apply Qcplus_nonneg_nonneg; [lit|].
    apply Qcmult_nonneg_nonneg; [lit|].
    apply div_nonneg; [apply of_int_nonneg; lia|now apply of_int_pos]. }
  destruct (_ && _); [|exact Hs1].
  set (rs := elements _).
  destruct (ltb (fl 0) _ && ltb (fl 0) _) eqn:Hn; [|exact Hs1].
  apply andb_prop in Hn as [Hna Hnb]. apply ltb_lt in Hna, Hnb.
  rewrite fl_0 in Hna, Hnb.
  apply Qcplus_nonneg_nonneg; [exact Hs1|].
  apply Qcmult_nonneg_nonneg; [lit|].
  apply div_nonneg.
  - apply fsum_nonneg, zip_mult_nonneg; now apply activity_values_nonneg.
  - now apply Qcmult_pos_pos.
Qed.

Lemma temporal_range a b : 0 ≤ calculate_temporal_proximity ext a b ≤ 1.
Proof.
  unfold calculate_temporal_proximity, gaussian. apply clip_range.
  repeat first [ apply add_if_nonneg | apply Qcplus_nonneg_nonneg
               | apply Qcmult_nonneg_nonneg | apply np_exp_nonneg | lit ].
Qed.

(** The overall proximity lies between 0 and the sum of the weights. *)
Lemma proximity_range (weights : ProximityWeights) a b chains :
  nonneg_weights weights -> nonneg_activity a -> nonneg_activity b ->
  0 ≤ (calculate_proximity ext weights a b chains).1 ≤ total weights.
Proof.
  intros (Hs & Hf & Hb & Ht) Ha Hb'. unfold calculate_proximity, total. cbn [fst].
  pose proof (structural_range a b chains) as [Hs0 Hs1].
  pose proof (functional_range a b) as [Hf0 Hf1].
  pose proof (behavioral_range a b Ha Hb') as [Hb0 Hb1].
  pose proof (temporal_range a b) as [Ht0 Ht1].
  generalize dependent (calculate_structural_proximity a b chains).
  generalize dependent (calculate_functional_proximity a b).
  generalize dependent (calculate_behavioral_proximity ext a b).
  generalize dependent (calculate_temporal_proximity ext a b).
  intros pt Ht0 Ht1 pb Hb0 Hb1 pf Hf0 Hf1 ps Hs0 Hs1.
  destruct weights as [ws wf wb wt]. cbn [structural functional behavioral temporal] in *.
  destruct ws as [ws ?], wf as [wf ?], wb as [wb ?], wt as [wt ?],
           ps as [ps ?], pf as [pf ?], pb as [pb ?], pt as [pt ?].
  to_Q. cbn [this] in *. split; nra.
Qed.

End Scores.

(** *** The matrix *)

Lemma square_entry (n : nat) (M : Matrix) (i j : nat) :
  square n M -> (i < n)%nat -> (j < n)%nat -> is_Some (entry M i j).
Proof.
  intros [Hlen Hrows] Hi Hj. unfold entry.
  destruct (lookup_lt_is_Some_2 M i) as [row Hrow]; [lia|].
  rewrite Hrow. cbn. apply lookup_lt_is_Some_2.
  rewrite Forall_forall in Hrows. rewrite (Hrows row); [exact Hj|].
  apply list_elem_of_lookup. eauto.
Qed.

Lemma entry_range (n : nat) (M : Matrix) (i j : nat) (x : Qc) :
  square n M -> entry M i j = Some x -> (i < n)%nat /\ (j < n)%nat.
Proof.
  intros [Hlen Hrows] H. unfold entry in H.
  destruct (M !! i) as [row|] eqn:Hrow; [|discriminate]. cbn in H.
  split.
  - rewrite <- Hlen. apply lookup_lt_is_Some_1. eauto.
  - rewrite Forall_forall in Hrows. rewrite <- (Hrows row).
    + apply lookup_lt_is_Some_1. eauto.
    + apply list_elem_of_lookup. eauto.
Qed.

Lemma square_mset (n : nat) (M : Matrix) (i j : nat) (v : Qc) :
  square n M -> square n (mset i j v M).
Proof.
  intros [Hlen Hrows]. unfold mset. split.
  - now rewrite length_alter.
  - apply Forall_alter; [exact Hrows|].
    intros row Hrow. now rewrite length_insert.
Qed.

Lemma entry_mset (n : nat) (M : Matrix) (i j i' j' : nat) (v : Qc) :
  square n M -> (i < n)%nat -> (j < n)%nat ->
  entry (mset i j v M) i' j' =
  if decide (i' = i /\ j' = j) then Some v else entry M i' j'.
Proof.
  intros [Hlen Hrows] Hi Hj. unfold entry, mset.
  destruct (decide (i' = i)) as [->|Hne].
  - rewrite list_lookup_alter_eq.
    destruct (lookup_lt_is_Some_2 M i) as [row Hrow]; [lia|].
    rewrite Hrow. cbn.
    assert (Hr : length row = n).
    { rewrite Forall_forall in Hrows. apply Hrows, list_elem_of_lookup. eauto. }
    destruct (decide (j' = j)) as [->|Hnej].
    + rewrite decide_True by auto. apply list_lookup_insert_eq. lia.
    + rewrite decide_False by tauto. now apply list_lookup_insert_ne.
  - rewrite list_lookup_alter_ne by congruence.
    now rewrite decide_False by tauto.
Qed.

(** The paired write of the loops keeps the invariant. *)
Lemma sym_bounded_write (n : nat) (B : Qc) (M : Matrix) (a b : nat) (p : Qc) :
  sym_bounded n B M -> (a < n)%nat -> (b < n)%nat -> 0 ≤ p ≤ B ->
  sym_bounded n B (mset b a p (mset a b p M)).
Proof.
  intros (Hsq & Hsym & Hbd) Ha Hb Hp.
  assert (Hsq1 : square n (mset a b p M)) by now apply square_mset.
  assert (He : forall i j, entry (mset b a p (mset a b p M)) i j =
                 if decide (i = b /\ j = a) then Some p
                 else if decide (i = a /\ j = b) then Some p else entry M i j).
  { intros i j. rewrite (entry_mset n) by assumption.
    destruct (decide (i = b /\ j = a)); [reflexivity|].
    now rewrite (entry_mset n) by assumption. }
  split; [now apply square_mset|]. split.
  - intros i j. rewrite !He.
    destruct (decide (i = b /\ j = a)), (decide (i = a /\ j = b)),
             (decide (j = b /\ i = a)), (decide (j = a /\ i = b));
      try reflexivity; try tauto. apply Hsym.
  - intros i j x. rewrite He.
    destruct (decide (i = b /\ j = a)); [intros [= <-]; exact Hp|].
    destruct (decide (i = a /\ j = b)); [intros [= <-]; exact Hp|].
    apply Hbd.
Qed.

Lemma sym_bounded_zeros (n : nat) (B : Qc) : 0 ≤ B -> sym_bounded n B (zeros n).
Proof.
  intros HB.
  assert (He : forall i j x, entry (zeros n) i j = Some x -> x = fl 0).
  { intros i j x H. unfold entry, zeros in H.
    destruct (replicate n (replicate n (fl 0)) !! i) as [row|] eqn:Hrow; [|discriminate].
    apply lookup_replicate in Hrow as [-> _]. cbn in H.
    apply lookup_replicate in H as [-> _]. reflexivity. }
  assert (Hsq : square n (zeros n)).
  { split; [apply length_replicate|].
    apply Forall_replicate. apply length_replicate. }
  split; [exact Hsq|]. split.
  - intros i j.
    destruct (entry (zeros n) i j) as [x|] eqn:Hx, (entry (zeros n) j i) as [y|] eqn:Hy.
    + apply He in Hx, Hy. congruence.
    + destruct (entry_range n _ _ _ _ Hsq Hx) as [Hi Hj].
      destruct (square_entry n _ j i Hsq Hj Hi) as [z Hz]. congruence.
    + destruct (entry_range n _ _ _ _ Hsq Hy) as [Hi Hj].
      destruct (square_entry n _ i j Hsq Hj Hi) as [z Hz]. congruence.
    + reflexivity.
  - intros i j x Hx. apply He in Hx. subst x. rewrite fl_0. split; [apply Qcle_refl|exact HB].
Qed.

Lemma entry_fill_diagonal (n : nat) (M : Matrix) (v : Qc) (i j : nat) :
  square n M -> (i < n)%nat -> (j < n)%nat ->
  entry (fill_diagonal v M) i j = if decide (i = j) then Some v else entry M i j.
Proof.
  intros [Hlen Hrows] Hi Hj. unfold entry, fill_diagonal.
  rewrite list_lookup_imap.
  destruct (lookup_lt_is_Some_2 M i) as [row Hrow]; [lia|].
  rewrite Hrow. cbn.
  assert (Hr : length row = n).
  { rewrite Forall_forall in Hrows. apply Hrows, list_elem_of_lookup. eauto. }
  destruct (decide (i = j)) as [->|Hne].
  - apply list_lookup_insert_eq. lia.
  - now apply list_lookup_insert_ne.
Qed.

Lemma square_fill_diagonal (n : nat) (M : Matrix) (v : Qc) :
  square n M -> square n (fill_diagonal v M).
Proof.
  intros [Hlen Hrows]. unfold fill_diagonal. split.
  - now rewrite length_imap.
  - apply Forall_forall. intros row Hrow.
    apply list_elem_of_lookup in Hrow as [i Hi].
    rewrite list_lookup_imap in Hi.
    destruct (M !! i) as [r|] eqn:Hr; [|discriminate]. cbn in Hi.
    injection Hi as <-. rewrite length_insert.
    rewrite Forall_forall in Hrows. apply Hrows, list_elem_of_lookup. eauto.
Qed.

Lemma foldl_inv {A B} (P : A -> Prop) (f : A -> B -> A) (l : list B) (a : A) :
  (forall acc x, x ∈ l -> P acc -> P (f acc x)) -> P a -> P (foldl f a l).
Proof.
  revert a. induction l as [|x l IH]; intros a Hf Ha; [exact Ha|].
  cbn. apply IH.
  - intros acc y Hy. apply Hf. now constructor.
  - apply Hf; [constructor|exact Ha].
Qed.

Lemma id_to_idx_snoc (ids : list string) (e : string) :
  id_to_idx_of (ids ++ [e]) = <[e := length ids]> (id_to_idx_of ids).
Proof.
  unfold id_to_idx_of. rewrite imap_app, foldl_app. cbn.
  now rewrite Nat.add_0_r.
Qed.

(** [id_to_idx] maps every id of the list, and only to positions of it. *)
Lemma id_to_idx_spec (ids : list string) :
  (forall e, e ∈ ids -> is_Some (id_to_idx_of ids !! e)) /\
  (forall e i, id_to_idx_of ids !! e = Some i -> (i < length ids)%nat).
Proof.
  induction ids as [|x ids [IH1 IH2]] using rev_ind.
  - split; [intros e He; inversion He|].
    intros e i H. unfold id_to_idx_of in H. cbn in H.
    rewrite lookup_empty in H. discriminate.
  - rewrite id_to_idx_snoc, length_app. cbn [length]. split.
    + intros e He. destruct (decide (x = e)) as [->|Hne].
      * rewrite lookup_insert_eq. eauto.
      * rewrite lookup_insert_ne by exact Hne. apply IH1.
        apply elem_of_app in He as [He|He]; [exact He|].
        apply list_elem_of_singleton in He. congruence.
    + intros e i H. destruct (decide (x = e)) as [->|Hne].
      * rewrite lookup_insert_eq in H. injection H as <-. lia.
      * rewrite lookup_insert_ne in H by exact Hne. apply IH2 in H. lia.
Qed.

Lemma odict_get_elem {V} (k : string) (v : V) (d : list (string * V)) :
  ODict.get k d = Some v -> (k, v) ∈ d.
Proof.
  induction d as [|[k' v'] d IH]; cbn; [discriminate|].
  destruct (decide (k' = k)) as [->|_].
  - intros [= ->]. constructor.
  - intros H. constructor. now apply IH.
Qed.

Lemma odict_set_elem {V} (k k0 : string) (v v0 : V) (d : list (string * V)) :
  (k0, v0) ∈ ODict.set k v d -> (k0, v0) ∈ d \/ v0 = v.
Proof.
  induction d as [|[k' v'] d IH]; cbn.
  - intros H. apply list_elem_of_singleton in H. injection H as _ ->. now right.
  - destruct (decide (k' = k)) as [->|_]; intros H;
      apply elem_of_cons in H as [H|H].
    + injection H as _ ->. now right.
    + left. now constructor.
    + left. rewrite H. constructor.
    + destruct (IH H) as [H'|H']; [left; now constructor|now right].
Qed.

(** Every member of a LOB group is an id of the list. *)
Lemma lob_groups_members (ids : list string) (features : gmap string EmployeeFeatures) :
  forall lob g e, (lob, g) ∈ lob_groups_of ids features -> e ∈ g -> e ∈ ids.
Proof.
  unfold lob_groups_of.
  induction ids as [|x ids IH] using rev_ind; intros lob g e Hg He.
  - cbn in Hg. inversion Hg.
  - rewrite foldl_app in Hg. cbn [foldl] in Hg.
    apply elem_of_app.
    destruct (features !! x) as [feat|]; [|left; eauto].
    apply odict_set_elem in Hg as [Hg| ->]; [left; eauto|].
    apply elem_of_app in He as [He|He]; [|now right].
    left. destruct (ODict.get _ _) as [g0|] eqn:Hg0; cbn in He.
    + apply odict_get_elem in Hg0. eauto.
    + inversion He.
Qed.

Section Loops.
Variable ext : Externals.
Variable weights : ProximityWeights.
Variable features : gmap string EmployeeFeatures.
Variable manager_chains : option (gmap string (list string)).
Hypothesis np_exp_nonneg : forall x, 0 ≤ np_exp ext x.
Hypothesis weights_nonneg : nonneg_weights weights.
Hypothesis features_nonneg : forall e f, features !! e = Some f -> nonneg_activity f.

Lemma full_loop_inv (ids : list string) (M : Matrix) :
  sym_bounded (length ids) (total weights) M ->
  sym_bounded (length ids) (total weights)
    (full_loop ext weights features manager_chains ids M).
Proof.
  intros HM. unfold full_loop.
  apply (foldl_inv (sym_bounded (length ids) (total weights))); [|exact HM].
  intros acc i Hi Hacc. apply elem_of_seq in Hi.
  apply (foldl_inv (sym_bounded (length ids) (total weights))); [|exact Hacc].
  intros acc' j Hj Hacc'. apply elem_of_seq in Hj.
  unfold compare_at.
  destruct (ids !! i ≫= (features !!.)) as [feat_a|] eqn:Ha; [|exact Hacc'].
  destruct (ids !! j ≫= (features !!.)) as [feat_b|] eqn:Hb; [|exact Hacc'].
  apply sym_bounded_write; [exact Hacc'|lia|lia|].
  apply proximity_range; [exact np_exp_nonneg|exact weights_nonneg| |].
  - destruct (ids !! i) as [e|]; [|discriminate]. cbn in Ha. eauto.
  - destruct (ids !! j) as [e|]; [|discriminate]. cbn in Hb. eauto.
Qed.

(** The blocked loop never fails and keeps the invariant. *)
Lemma blocked_loop_inv (ids : list string) (M : Matrix) :
  sym_bounded (length ids) (total weights) M ->
  exists M',
    blocked_loop ext weights features manager_chains (id_to_idx_of ids)
      (lob_groups_of ids features) M = Some M' /\
    sym_bounded (length ids) (total weights) M'.
Proof.
  intros HM. unfold blocked_loop.
  destruct (id_to_idx_spec ids) as [Hsome Hlt].
  pose proof (lob_groups_members ids features) as Hmem.
  set (P := fun acc : option Matrix =>
              exists M', acc = Some M' /\ sym_bounded (length ids) (total weights) M').
  apply (foldl_inv P); [|exists M; auto].
  intros acc [lob g] Hg Hacc.
  apply (foldl_inv P); [|exact Hacc].
  intros acc1 [i emp_a] Ha (M1 & -> & HM1).
  assert (Hain : emp_a ∈ ids).
  { apply (Hmem lob g); [exact Hg|].
    apply list_elem_of_lookup_1 in Ha as [k Hk].
    rewrite list_lookup_imap in Hk.
    destruct (g !! k) as [e|] eqn:He; [|discriminate]. cbn in Hk.
    injection Hk as _ <-. apply list_elem_of_lookup. eauto. }
  unfold compare_group. cbn.
  destruct (features !! emp_a) as [feat_a|] eqn:Hfa; [|exists M1; auto].
  destruct (Hsome emp_a Hain) as [idx_a Hidx_a]. rewrite Hidx_a. cbn.
  apply (foldl_inv P); [|exists M1; auto].
  intros acc2 emp_b Hb (M2 & -> & HM2).
  assert (Hbin : emp_b ∈ ids).
  { apply (Hmem lob g); [exact Hg|].
    apply list_elem_of_lookup_1 in Hb as [k Hk].
    rewrite lookup_drop in Hk. apply list_elem_of_lookup. eauto. }
  unfold compare_in_group. cbn.
  destruct (features !! emp_b) as [feat_b|] eqn:Hfb; [|exists M2; auto].
  destruct (Hsome emp_b Hbin) as [idx_b Hidx_b]. rewrite Hidx_b. cbn.
  eexists. split; [reflexivity|].
  apply sym_bounded_write; [exact HM2|eauto|eauto|].
  apply proximity_range; eauto.
Qed.

End Loops.

(** *** The weights of the calculator *)

Lemma fabs_lt (x e : Qc) : ltb (fabs x) e = true -> - e < x /\ x < e.
Proof.
  unfold fabs. destruct (ltb x (fl 0)) eqn:Hx; intros H; apply ltb_lt in H.
  - apply ltb_lt in Hx. destruct x as [x ?], e as [e ?]. to_Q. cbn [this] in *. lra.
  - apply ltb_ge in Hx. destruct x as [x ?], e as [e ?]. to_Q. cbn [this] in *. lra.
Qed.

Lemma total_nonneg (w : ProximityWeights) : nonneg_weights w -> 0 ≤ total w.
Proof.
  intros (Hs & Hf & Hb & Ht). unfold total.
  repeat apply Qcplus_nonneg_nonneg; assumption.
Qed.

Lemma total_normalize (w : ProximityWeights) : total (normalize w) = 1.
Proof.
  unfold normalize. destruct (eqb (total w) (fl 0)) eqn:E.
  - now apply Qc_is_canon.
  - assert (Hne : total w <> 0).
    { intros H. rewrite <- fl_0 in H. apply eqb_eq in H. congruence. }
    unfold total at 1. cbn [structural functional behavioral temporal].
    unfold total in *. field. exact Hne.
Qed.

Lemma normalize_nonneg (w : ProximityWeights) :
  nonneg_weights w -> nonneg_weights (normalize w).
Proof.
  intros Hw. pose proof (total_nonneg w Hw) as Ht.
  unfold normalize. destruct (eqb (total w) (fl 0)) eqn:E.
  - repeat split; cbn; lit.
  - assert (Hpos : 0 < total w).
    { apply Qcle_lt_or_eq in Ht as [Ht|Ht]; [exact Ht|].
      exfalso. apply Bool.not_true_iff_false in E. apply E, eqb_eq.
      rewrite fl_0. congruence. }
    destruct Hw as (Hs & Hf & Hb & Htm).
    repeat split; cbn [structural functional behavioral temporal];
      now apply div_nonneg.
Qed.

(** What [__init__] leaves in [self.weights], for non-negative weights:
    non-negative weights whose sum is below 1.001, and exactly 1 once they
    were renormalised or when they summed to 1 already. *)
Lemma init_weights_spec (w : ProximityWeights) :
  nonneg_weights w ->
  let weights := init_weights (Some w) in
  nonneg_weights weights /\ total weights < fl 1.001 /\
  (validate w = false \/ total w = 1 -> total weights = 1).
Proof.
  intros Hw weights. subst weights. unfold init_weights. cbn [default from_option id].
  destruct (validate w) eqn:Hv.
  - split; [exact Hw|]. split.
    + unfold validate in Hv. apply fabs_lt in Hv as [_ Hv].
      destruct (total w) as [t ?]. to_Q. cbn [this] in *. lra.
    + intros [H|H]; [discriminate|exact H].
  - split; [now apply normalize_nonneg|]. rewrite total_normalize.
    split; [lit|reflexivity].
Qed.


Lemma two_engineers_nonneg :
  forall e f, two_engineers !! e = Some f -> nonneg_activity f.
Proof.
  intros e f Hf r x Hx. unfold two_engineers in Hf.
  apply lookup_insert_Some in Hf as [[_ <-]|[_ Hf]].
  - cbn in Hx. rewrite lookup_empty in Hx. discriminate.
  - apply lookup_singleton_Some in Hf as [_ <-].
    cbn in Hx. rewrite lookup_empty in Hx. discriminate.
Qed.



End ProximityProps.

(** ** Properties of the pipeline *)

Module EngineProps.
Import Num NumFacts External PeerProximity ClusteringData Assurance Engine.
Import EngineSpec.
Import ProximitySpec ProximityProps.
Local Open Scope Qc_scope.

Lemma validate_total_1 (w : ProximityWeights) : total w = 1 -> validate w = true.
Proof.
  intros H. unfold validate. rewrite H.
  replace (1 - fl 1.0) with (fl 0) by (apply Qc_is_canon; reflexivity).
  reflexivity.
Qed.

Lemma total_scaled (w : ProximityWeights) : total w <> 0 -> total (scaled w) = 1.
Proof.
  intros Hne. unfold total at 1, scaled. cbn [structural functional behavioral temporal].
  unfold total in *. field. exact Hne.
Qed.

Lemma normalize_scaled (w : ProximityWeights) : total w <> 0 -> normalize w = scaled w.
Proof.
  intros Hne. unfold normalize.
  destruct (eqb (total w) (fl 0)) eqn:E; [|reflexivity].
  apply eqb_eq in E. rewrite fl_0 in E. contradiction.
Qed.

Lemma scaled_total_1 (w : ProximityWeights) : total w = 1 -> scaled w = w.
Proof.
  intros H. unfold scaled. rewrite H. destruct w as [s f b t].
  cbn [structural functional behavioral temporal].
  f_equal; apply (right_id 1 Qcdiv).
Qed.

(** [__init__] leaves the same weights for [w] and for [w] divided by its
    sum, when [w] fails [validate] or sums to 1. *)
Lemma init_weights_scaled (w : ProximityWeights) :
  total w <> 0 -> validate w = false \/ total w = 1 ->
  init_weights (Some w) = init_weights (Some (scaled w)).
Proof.
  intros Hne [Hv|H1].
  - unfold init_weights. cbn [default from_option id].
    rewrite Hv, (validate_total_1 (scaled w)) by now apply total_scaled.
    now apply normalize_scaled.
  - now rewrite scaled_total_1.
Qed.


(** *** An example population: five engineers of one team *)



(** *** Determinism *)

Lemma foldl_ext_eq {A B} (f g : A -> B -> A) (l : list B) (a : A) :
  (forall acc x, f acc x = g acc x) -> foldl f a l = foldl g a l.
Proof.
  intros H. revert a. induction l as [|x l IH]; intros a; [reflexivity|].
  cbn. now rewrite H, IH.
Qed.

Section SameReadings.
Variable ext : Externals.
Variables rt1 rt2 : Runtime.
Hypothesis same_clock : forall k, clock rt1 k = clock rt2 k.
Hypothesis same_order : forall s, list_of_set rt1 s = list_of_set rt2 s.

Lemma days_since_same (date : option string) (k : nat) :
  days_since ext rt1 date k = days_since ext rt2 date k.
Proof. unfold days_since. now rewrite same_clock. Qed.

Lemma features_of_same team_lookup sub_lob_lookup access activity emp k :
  features_of ext rt1 team_lookup sub_lob_lookup access activity emp k =
  features_of ext rt2 team_lookup sub_lob_lookup access activity emp k.
Proof.
  unfold features_of. rewrite days_since_same.
  destruct (days_since ext rt2 (Data.e_hire_date emp) k) as [hired k1].
  now rewrite days_since_same.
Qed.

Lemma extract_features_same employees access_grants activity_summaries teams sub_lobs :
  extract_features ext rt1 employees access_grants activity_summaries teams sub_lobs =
  extract_features ext rt2 employees access_grants activity_summaries teams sub_lobs.
Proof.
  unfold extract_features. apply foldl_ext_eq.
  intros [features k] emp. now rewrite features_of_same.
Qed.

Lemma consensus_for_same config all_assignments emp_id :
  Consensus.consensus_for config (list_of_set rt1) all_assignments emp_id =
  Consensus.consensus_for config (list_of_set rt2) all_assignments emp_id.
Proof.
  unfold Consensus.consensus_for.
  destruct (_ =? 0)%Z; [reflexivity|].
  repeat match goal with
         | |- context [let '(_, _) := ?x in _] => destruct x eqn:?
         end.
  now rewrite same_order.
Qed.

Lemma analyze_consensus_same config all_assignments employee_ids :
  Consensus.analyze_consensus config (list_of_set rt1) all_assignments employee_ids =
  Consensus.analyze_consensus config (list_of_set rt2) all_assignments employee_ids.
Proof.
  unfold Consensus.analyze_consensus. apply foldl_ext_eq.
  intros results emp_id. now rewrite consensus_for_same.
Qed.

End SameReadings.




End EngineProps.

(** ** Properties of the proximity weights and of the pair score *)

Module PairProps.
Import Num NumFacts External PeerProximity.
Import ProximitySpec ProximityProps EngineProps.
Local Open Scope Qc_scope.


Lemma div_1 (x : Qc) : x / 1 = x.
Proof. field. discriminate. Qed.


Lemma same_sym (a b : option string) : same a b = same b a.
Proof.
  unfold same. destruct (decide (a = b)) as [->|E]; [reflexivity|].
  rewrite !bool_decide_eq_false_2 by congruence.
  now rewrite !andb_false_r.
Qed.

Lemma foldr_ext_eq {A B} (f g : B -> A -> A) (a : A) (l : list B) :
  (forall x acc, f x acc = g x acc) -> foldr f a l = foldr g a l.
Proof. intros H. induction l as [|x l IH]; cbn; [reflexivity|]. now rewrite IH, H. Qed.

Lemma manager_distance_term_sym a b chains :
  manager_distance_term a b chains = manager_distance_term b a chains.
Proof.
  unfold manager_distance_term. destruct chains as [chains|]; [|reflexivity].
  destruct (bool_decide (chains = ∅)); [reflexivity|].
  cbv zeta.
  rewrite (comm_L (∩) (list_to_set (default [] (chains !! employee_id a)) : gset string)).
  erewrite foldr_ext_eq; [reflexivity|].
  intros x acc. cbv beta. now rewrite Z.add_comm.
Qed.

Lemma zip_with_comm (xs ys : list Qc) :
  zip_with Qcmult xs ys = zip_with Qcmult ys xs.
Proof.
  revert ys. induction xs as [|x xs IH]; intros [|y ys]; cbn; try reflexivity.
  now rewrite IH, Qcmult_comm.
Qed.

Section Pair.
Variable ext : Externals.

Lemma structural_sym a b chains :
  calculate_structural_proximity a b chains = calculate_structural_proximity b a chains.
Proof.
  unfold calculate_structural_proximity.
  rewrite (manager_distance_term_sym a b).
  now rewrite (same_sym (manager_id a)), (same_sym (team_id a)),
    (same_sym (sub_lob_id a)), (same_sym (lob_id a)), (same_sym (location_id a)).
Qed.

Lemma functional_sym a b :
  calculate_functional_proximity a b = calculate_functional_proximity b a.
Proof.
  unfold calculate_functional_proximity.
  rewrite (same_sym (job_code a)), (same_sym (job_family a)),
    (same_sym (cost_center_id a)).
  rewrite (andb_comm (0 <? job_level a)%Z).
  replace (Z.abs (job_level a - job_level b)) with (Z.abs (job_level b - job_level a))
    by lia.
  reflexivity.
Qed.

Lemma behavioral_sym a b :
  calculate_behavioral_proximity ext a b = calculate_behavioral_proximity ext b a.
Proof.
  unfold calculate_behavioral_proximity.
  rewrite (orb_comm (negb (bool_decide (access_set a = ∅)))).
  assert (Hi : access_set a ∩ access_set b = access_set b ∩ access_set a)
    by apply (comm_L (∩)).
  assert (Hu : access_set a ∪ access_set b = access_set b ∪ access_set a)
    by apply (comm_L (∪)).
  assert (Hd : dom (activity_vector a) ∪ dom (activity_vector b) =
               dom (activity_vector b) ∪ dom (activity_vector a))
    by apply (comm_L (∪)).
  rewrite Hi, Hu, Hd. clear Hi Hu Hd.
  rewrite (andb_comm (negb (bool_decide (activity_vector a = ∅)))).
  cbv zeta.
  set (rs := elements (dom (activity_vector b) ∪ dom (activity_vector a))).
  set (va := map (fun r => default (fl 0) (activity_vector a !! r)) rs).
  set (vb := map (fun r => default (fl 0) (activity_vector b !! r)) rs).
  rewrite (andb_comm (ltb (fl 0) (np_sqrt ext (fsum (map (fun x => x * x) va))))).
  rewrite (zip_with_comm va vb).
  rewrite (Qcmult_comm (np_sqrt ext (fsum (map (fun x => x * x) va)))).
  reflexivity.
Qed.

Lemma temporal_sym a b :
  calculate_temporal_proximity ext a b = calculate_temporal_proximity ext b a.
Proof.
  unfold calculate_temporal_proximity.
  rewrite (andb_comm (0 <? tenure_days a)%Z), (andb_comm (0 <? time_in_role_days a)%Z).
  replace (Z.abs (tenure_days a - tenure_days b))
    with (Z.abs (tenure_days b - tenure_days a)) by lia.
  replace (Z.abs (time_in_role_days a - time_in_role_days b))
    with (Z.abs (time_in_role_days b - time_in_role_days a)) by lia.
  destruct (decide (hire_quarter a = hire_quarter b)) as [E|E].
  - now rewrite E.
  - rewrite !bool_decide_eq_false_2 by congruence.
    now rewrite !andb_false_r.
Qed.

Lemma proximity_sym weights a b chains :
  calculate_proximity ext weights a b chains = calculate_proximity ext weights b a chains.
Proof.
  unfold calculate_proximity.
  now rewrite (structural_sym a b), (functional_sym a b), (behavioral_sym a b),
    (temporal_sym a b).
Qed.

(** X3. The proximity of two employees does not depend on their order:
    the overall score and the four component scores of [a] to [b] are
    those of [b] to [a]. *)
Theorem X3_proximity_symmetric (weights : ProximityWeights)
    (a b : EmployeeFeatures) (manager_chains : option (gmap string (list string))) :
  calculate_proximity ext weights a b manager_chains =
  calculate_proximity ext weights b a manager_chains.
Proof.
  unfold calculate_proximity.
  rewrite (structural_sym a b), (functional_sym a b).
  now rewrite (behavioral_sym a b), (temporal_sym a b).
Qed.

End Pair.

End PairProps.

(** ** The content of the proximity matrix *)

Module MatrixProps.
Import Num NumFacts External PeerProximity.
Import ProximitySpec ProximityProps MatrixSpec PairProps.
Local Open Scope Qc_scope.

(** A property reached by one step of a loop and kept by all steps holds
    after the loop. *)
Lemma foldl_reach {A B} (Inv P : A -> Prop) (f : A -> B -> A) (l : list B) (a : A) :
  Inv a ->
  (forall acc y, y ∈ l -> Inv acc -> Inv (f acc y)) ->
  (forall acc y, y ∈ l -> Inv acc -> P acc -> P (f acc y)) ->
  (P a \/ exists x, x ∈ l /\ forall acc, Inv acc -> P (f acc x)) ->
  Inv (foldl f a l) /\ P (foldl f a l).
Proof.
  revert a. induction l as [|y l IH]; intros a Ha Hinv Hkeep Hreach; cbn.
  - destruct Hreach as [Hp|(x & Hx & _)]; [auto|inversion Hx].
  - apply IH.
    + apply Hinv; [constructor|exact Ha].
    + intros acc z Hz. apply Hinv. now constructor.
    + intros acc z Hz. apply Hkeep. now constructor.
    + destruct Hreach as [Hp|(x & Hx & Hst)].
      * left. apply Hkeep; [constructor|exact Ha|exact Hp].
      * apply elem_of_cons in Hx as [->|Hx]; [left; now apply Hst|].
        right. eauto.
Qed.

Lemma entry_write (n : nat) (M : Matrix) (a b : nat) (p : Qc) (i j : nat) :
  square n M -> (a < n)%nat -> (b < n)%nat ->
  entry (mset b a p (mset a b p M)) i j =
  if decide (i = b /\ j = a) then Some p
  else if decide (i = a /\ j = b) then Some p else entry M i j.
Proof.
  intros Hsq Ha Hb.
  rewrite (entry_mset n); [|now apply square_mset|assumption|assumption].
  destruct (decide (i = b /\ j = a)); [reflexivity|].
  now rewrite (entry_mset n) by assumption.
Qed.

(** A paired write at the positions of [both_hold] establishes it. *)
Lemma write_here (n : nat) (M : Matrix) (a b : nat) (p : Qc) (i j : nat) :
  square n M -> (a < n)%nat -> (b < n)%nat ->
  (a = i /\ b = j) \/ (a = j /\ b = i) ->
  both_hold i j p (mset b a p (mset a b p M)).
Proof.
  intros Hsq Ha Hb Hab. unfold both_hold.
  rewrite !(entry_write n) by assumption.
  split; repeat match goal with |- context [decide ?P] => destruct (decide P) end;
    try reflexivity; exfalso; intuition lia.
Qed.

(** A paired write elsewhere keeps it. *)
Lemma write_elsewhere (n : nat) (M : Matrix) (a b : nat) (p x : Qc) (i j : nat) :
  square n M -> (a < n)%nat -> (b < n)%nat ->
  ~ ((a = i /\ b = j) \/ (a = j /\ b = i)) ->
  both_hold i j x M -> both_hold i j x (mset b a p (mset a b p M)).
Proof.
  intros Hsq Ha Hb Hab [H1 H2]. unfold both_hold.
  rewrite !(entry_write n) by assumption.
  split; repeat match goal with |- context [decide ?P] => destruct (decide P) end;
    try assumption; exfalso; intuition lia.
Qed.

Lemma zeros_square (n : nat) : square n (zeros n).
Proof.
  split; [apply length_replicate|].
  apply Forall_replicate. apply length_replicate.
Qed.

Lemma zeros_entry (n i j : nat) :
  (i < n)%nat -> (j < n)%nat -> entry (zeros n) i j = Some (fl 0).
Proof.
  intros Hi Hj. unfold entry, zeros.
  rewrite lookup_replicate_2 by exact Hi. cbn.
  now apply lookup_replicate_2.
Qed.

Section Content.
Variable ext : Externals.
Variable weights : ProximityWeights.
Variable features : gmap string EmployeeFeatures.
Variable manager_chains : option (gmap string (list string)).
Variable ids : list string.

Local Abbreviation n := (length ids).
Local Abbreviation value := (pair_proximity ext weights features manager_chains ids).
Local Abbreviation prox a b := (calculate_proximity ext weights a b manager_chains).1.

Lemma value_sym (i j : nat) : value i j = value j i.
Proof.
  unfold pair_proximity.
  destruct (features_at features ids i) as [fa|], (features_at features ids j) as [fb|];
    try reflexivity.
  now rewrite (proximity_sym ext weights fa fb).
Qed.

(** *** The full loop *)

Section Full.
Variables i0 j0 : nat.
Hypothesis i0_lt_j0 : (i0 < j0)%nat.
Hypothesis j0_lt_n : (j0 < n)%nat.

Local Abbreviation P := (both_hold i0 j0 (value i0 j0)).

Lemma compare_at_square (i j : nat) (M : Matrix) :
  square n M -> square n (compare_at ext weights features manager_chains ids i M j).
Proof.
  intros Hsq. unfold compare_at.
  destruct (ids !! i ≫= (features !!.)); [|exact Hsq].
  destruct (ids !! j ≫= (features !!.)); [|exact Hsq].
  now repeat apply square_mset.
Qed.

Lemma compare_at_keeps (i j : nat) (M : Matrix) :
  (i < j < n)%nat -> square n M -> P M ->
  P (compare_at ext weights features manager_chains ids i M j).
Proof.
  intros Hij Hsq HP. unfold compare_at.
  destruct (ids !! i ≫= (features !!.)) as [fa|] eqn:Ha; [|exact HP].
  destruct (ids !! j ≫= (features !!.)) as [fb|] eqn:Hb; [|exact HP].
  destruct (decide (i = i0 /\ j = j0)) as [[-> ->]|Hne].
  - replace (value i0 j0) with (prox fa fb).
    + apply (write_here n); [assumption|lia|lia|auto].
    + unfold pair_proximity, features_at. now rewrite Ha, Hb.
  - apply (write_elsewhere n); [assumption|lia|lia| |exact HP]. lia.
Qed.

Lemma compare_at_reaches (M : Matrix) :
  square n M -> is_Some (features_at features ids i0) ->
  is_Some (features_at features ids j0) ->
  P (compare_at ext weights features manager_chains ids i0 M j0).
Proof.
  intros Hsq [fa Ha] [fb Hb]. unfold compare_at.
  unfold pair_proximity. rewrite Ha, Hb.
  unfold features_at in Ha, Hb. rewrite Ha, Hb.
  apply (write_here n); [assumption|lia|lia|auto].
Qed.

Lemma full_loop_content (M : Matrix) :
  square n M -> both_hold i0 j0 (fl 0) M ->
  P (full_loop ext weights features manager_chains ids M).
Proof.
  intros Hsq H0. unfold full_loop.
  apply (foldl_reach (square n) P); [exact Hsq| | |].
  - intros acc i Hi Hacc. apply foldl_inv; [|exact Hacc].
    intros acc' j Hj Hacc'. now apply compare_at_square.
  - intros acc i Hi Hacc HP. apply elem_of_seq in Hi.
    apply (foldl_reach (square n) P); [exact Hacc| | |now left].
    + intros acc' j Hj Hacc'. now apply compare_at_square.
    + intros acc' j Hj Hacc' HP'. apply elem_of_seq in Hj.
      apply compare_at_keeps; [lia|assumption|assumption].
  - destruct (features_at features ids i0) as [fa|] eqn:Ha,
             (features_at features ids j0) as [fb|] eqn:Hb.
    2,3,4: left; unfold pair_proximity; rewrite Ha, ?Hb; exact H0.
    right. exists i0. split; [apply elem_of_seq; lia|].
    intros acc Hacc.
    apply (foldl_reach (square n) P); [exact Hacc| | |].
    + intros acc' j Hj Hacc'. now apply compare_at_square.
    + intros acc' j Hj Hacc' HP'. apply elem_of_seq in Hj.
      apply compare_at_keeps; [lia|assumption|assumption].
    + right. exists j0. split; [apply elem_of_seq; lia|].
      intros acc' Hacc'. apply compare_at_reaches; [assumption|eauto|eauto].
Qed.

End Full.

(** *** The blocked loop *)

Lemma odict_set_elem_key {V} (k k0 : string) (v v0 : V) (d : list (string * V)) :
  (k0, v0) ∈ ODict.set k v d -> (k0, v0) ∈ d \/ (k0 = k /\ v0 = v).
Proof.
  induction d as [|[k' v'] d IH]; cbn.
  - intros H. apply list_elem_of_singleton in H. injection H as -> ->. now right.
  - destruct (decide (k' = k)) as [->|_]; intros H;
      apply elem_of_cons in H as [H|H].
    + injection H as -> ->. now right.
    + left. now constructor.
    + left. rewrite H. constructor.
    + destruct (IH H) as [H'|H']; [left; now constructor|now right].
Qed.

Lemma lob_groups_snoc (l : list string) (x : string) :
  lob_groups_of (l ++ [x]) features =
  match features !! x with
  | Some feat =>
    ODict.set (lob_key feat)
      (default [] (ODict.get (lob_key feat) (lob_groups_of l features)) ++ [x])
      (lob_groups_of l features)
  | None => lob_groups_of l features
  end.
Proof. unfold lob_groups_of. rewrite foldl_app. reflexivity. Qed.

(** The members of a LOB group have features, filed under its key. *)
Lemma lob_groups_keys (l : list string) (k : string) (g : list string) (e : string) :
  (k, g) ∈ lob_groups_of l features -> e ∈ g ->
  exists feat, features !! e = Some feat /\ lob_key feat = k.
Proof.
  revert k g e. induction l as [|x l IH] using rev_ind; intros k g e Hg He.
  - inversion Hg.
  - rewrite lob_groups_snoc in Hg.
    destruct (features !! x) as [feat|] eqn:Hx; [|eauto].
    apply odict_set_elem_key in Hg as [Hg|[-> ->]]; [eauto|].
    apply elem_of_app in He as [He|He].
    + destruct (ODict.get _ _) as [g0|] eqn:Hg0; cbn in He; [|inversion He].
      apply odict_get_elem in Hg0. eauto.
    + apply list_elem_of_singleton in He as ->. eauto.
Qed.

(** An id that has features is a member of the group of its key. *)
Lemma lob_groups_complete (l : list string) (e : string) (feat : EmployeeFeatures) :
  e ∈ l -> features !! e = Some feat ->
  exists g, ODict.get (lob_key feat) (lob_groups_of l features) = Some g /\ e ∈ g.
Proof.
  induction l as [|x l IH] using rev_ind; intros He Hf; [inversion He|].
  rewrite lob_groups_snoc.
  destruct (decide (e = x)) as [->|Hne].
  - rewrite Hf. rewrite GraphProps.get_set_eq. eexists. split; [reflexivity|].
    apply elem_of_app. right. constructor.
  - apply elem_of_app in He as [He|He];
      [|apply list_elem_of_singleton in He; contradiction].
    destruct (IH He Hf) as (g & Hg & Heg).
    destruct (features !! x) as [fx|] eqn:Hx; [|eauto].
    destruct (decide (lob_key fx = lob_key feat)) as [Ek|Ek].
    + rewrite Ek, GraphProps.get_set_eq, Hg. eexists. split; [reflexivity|].
      apply elem_of_app. now left.
    + rewrite GraphProps.get_set_ne by exact Ek. eauto.
Qed.

(** [id_to_idx] maps an id to a position that holds it. *)
Lemma id_to_idx_position (l : list string) (e : string) (i : nat) :
  id_to_idx_of l !! e = Some i -> l !! i = Some e.
Proof.
  revert i. induction l as [|x l IH] using rev_ind; intros i H.
  - unfold id_to_idx_of in H. cbn in H. rewrite lookup_empty in H. discriminate.
  - rewrite id_to_idx_snoc in H. destruct (decide (x = e)) as [->|Hne].
    + rewrite lookup_insert_eq in H. injection H as <-.
      rewrite lookup_app_r by lia. now rewrite Nat.sub_diag.
    + rewrite lookup_insert_ne in H by exact Hne.
      apply lookup_app_l_Some. now apply IH.
Qed.

Lemma id_to_idx_NoDup (l : list string) (e : string) (i : nat) :
  NoDup l -> l !! i = Some e -> id_to_idx_of l !! e = Some i.
Proof.
  intros Hnd Hi.
  destruct (proj1 (id_to_idx_spec l) e) as [i' Hi'].
  { apply list_elem_of_lookup. eauto. }
  rewrite Hi'. f_equal.
  apply id_to_idx_position in Hi'.
  exact (NoDup_lookup l i' i e Hnd Hi' Hi).
Qed.

Section Blocked.
Variables i0 j0 : nat.
Hypothesis i0_lt_n : (i0 < n)%nat.
Hypothesis j0_lt_n : (j0 < n)%nat.
Hypothesis i0_ne_j0 : i0 <> j0.

(** The value the blocked loop leaves at the pair of positions. *)
Local Abbreviation expected :=
  (if same_lob features ids i0 j0 then value i0 j0 else fl 0).
Local Abbreviation Inv :=
  (fun acc : option Matrix => exists M, acc = Some M /\ square n M).
Local Abbreviation P :=
  (fun acc : option Matrix => exists M, acc = Some M /\ both_hold i0 j0 expected M).
Local Abbreviation idx := (id_to_idx_of ids).
Local Abbreviation groups := (lob_groups_of ids features).

(** A write of the loop at the pair of positions writes its value. *)
Lemma written_value (emp_a emp_b : string) (feat_a feat_b : EmployeeFeatures)
    (idx_a idx_b : nat) :
  features !! emp_a = Some feat_a -> features !! emp_b = Some feat_b ->
  lob_key feat_a = lob_key feat_b ->
  idx !! emp_a = Some idx_a -> idx !! emp_b = Some idx_b ->
  (idx_a = i0 /\ idx_b = j0) \/ (idx_a = j0 /\ idx_b = i0) ->
  expected = prox feat_a feat_b.
Proof.
  intros Hfa Hfb Hk Ha Hb Hpos.
  apply id_to_idx_position in Ha, Hb.
  assert (Hva : features_at features ids idx_a = Some feat_a)
    by (unfold features_at; rewrite Ha; exact Hfa).
  assert (Hvb : features_at features ids idx_b = Some feat_b)
    by (unfold features_at; rewrite Hb; exact Hfb).
  destruct Hpos as [[-> ->]|[-> ->]].
  - unfold same_lob, pair_proximity. rewrite Hva, Hvb.
    now rewrite bool_decide_eq_true_2.
  - unfold same_lob, pair_proximity. rewrite Hva, Hvb.
    rewrite bool_decide_eq_true_2 by congruence.
    apply (f_equal fst (proximity_sym ext weights feat_b feat_a manager_chains)).
Qed.

Section Group.
Variables (k : string) (g : list string).
Hypothesis g_in_groups : (k, g) ∈ groups.

Lemma member_facts (e : string) :
  e ∈ g ->
  exists feat i, features !! e = Some feat /\ lob_key feat = k /\
    idx !! e = Some i /\ (i < n)%nat.
Proof.
  intros He.
  destruct (lob_groups_keys ids k g e g_in_groups He) as (feat & Hf & Hk).
  pose proof (lob_groups_members ids features k g e g_in_groups He) as Hin.
  destruct (proj1 (id_to_idx_spec ids) e Hin) as [i Hi].
  exists feat, i. repeat split; try assumption.
  exact (proj2 (id_to_idx_spec ids) e i Hi).
Qed.

Section Inner.
Variables (emp_a : string) (feat_a : EmployeeFeatures) (idx_a : nat).
Hypothesis emp_a_features : features !! emp_a = Some feat_a.
Hypothesis emp_a_key : lob_key feat_a = k.
Hypothesis emp_a_idx : idx !! emp_a = Some idx_a.
Hypothesis idx_a_lt_n : (idx_a < n)%nat.

Local Abbreviation step :=
  (compare_in_group ext weights features manager_chains idx feat_a idx_a).

Lemma compare_in_group_unfold (M : Matrix) (emp_b : string) :
  emp_b ∈ g ->
  exists feat_b idx_b,
    features !! emp_b = Some feat_b /\ lob_key feat_b = k /\
    idx !! emp_b = Some idx_b /\ (idx_b < n)%nat /\
    step (Some M) emp_b =
    Some (mset idx_b idx_a (prox feat_a feat_b)
            (mset idx_a idx_b (prox feat_a feat_b) M)).
Proof.
  intros Hb. destruct (member_facts emp_b Hb) as (feat_b & idx_b & Hf & Hk & Hi & Hlt).
  exists feat_b, idx_b. repeat split; try assumption.
  unfold compare_in_group. cbn. rewrite Hf, Hi. reflexivity.
Qed.

Lemma compare_in_group_Inv (acc : option Matrix) (emp_b : string) :
  emp_b ∈ g -> Inv acc -> Inv (step acc emp_b).
Proof.
  intros Hb (M & -> & Hsq).
  destruct (compare_in_group_unfold M emp_b Hb) as (fb & ib & _ & _ & _ & Hlt & ->).
  eexists. split; [reflexivity|]. now repeat apply square_mset.
Qed.

Lemma compare_in_group_keeps (acc : option Matrix) (emp_b : string) :
  emp_b ∈ g -> Inv acc -> P acc -> P (step acc emp_b).
Proof.
  intros Hb (M & -> & Hsq) (M' & [= <-] & HP).
  destruct (compare_in_group_unfold M emp_b Hb) as (fb & ib & Hf & Hk & Hi & Hlt & ->).
  eexists. split; [reflexivity|].
  destruct (decide ((idx_a = i0 /\ ib = j0) \/ (idx_a = j0 /\ ib = i0))) as [Hpos|Hpos].
  - rewrite (written_value emp_a emp_b feat_a fb idx_a ib) by congruence.
    now apply (write_here n).
  - now apply (write_elsewhere n).
Qed.

Lemma compare_in_group_reaches (acc : option Matrix) (emp_b : string) (idx_b : nat) :
  emp_b ∈ g -> idx !! emp_b = Some idx_b ->
  (idx_a = i0 /\ idx_b = j0) \/ (idx_a = j0 /\ idx_b = i0) ->
  Inv acc -> P (step acc emp_b).
Proof.
  intros Hb Hib Hpos (M & -> & Hsq).
  destruct (compare_in_group_unfold M emp_b Hb) as (fb & ib & Hf & Hk & Hi & Hlt & ->).
  assert (ib = idx_b) as -> by congruence.
  eexists. split; [reflexivity|].
  rewrite (written_value emp_a emp_b feat_a fb idx_a idx_b) by congruence.
  now apply (write_here n).
Qed.

End Inner.

Local Abbreviation row := (compare_group ext weights features manager_chains idx g).

Lemma compare_group_unfold (M : Matrix) (p : nat) (emp_a : string) :
  g !! p = Some emp_a ->
  exists feat_a idx_a,
    features !! emp_a = Some feat_a /\ lob_key feat_a = k /\
    idx !! emp_a = Some idx_a /\ (idx_a < n)%nat /\
    row (Some M) (p, emp_a) =
    foldl (compare_in_group ext weights features manager_chains idx feat_a idx_a)
          (Some M) (drop (p + 1) g).
Proof.
  intros Hp.
  assert (Ha : emp_a ∈ g) by (apply list_elem_of_lookup; eauto).
  destruct (member_facts emp_a Ha) as (feat_a & idx_a & Hf & Hk & Hi & Hlt).
  exists feat_a, idx_a. repeat split; try assumption.
  unfold compare_group. cbn. rewrite Hf, Hi. reflexivity.
Qed.

Lemma in_drop (p : nat) (e : string) : e ∈ drop p g -> e ∈ g.
Proof.
  intros H. apply list_elem_of_lookup_1 in H as [q Hq].
  rewrite lookup_drop in Hq. apply list_elem_of_lookup. eauto.
Qed.

Lemma compare_group_Inv (acc : option Matrix) (p : nat) (emp_a : string) :
  g !! p = Some emp_a -> Inv acc -> Inv (row acc (p, emp_a)).
Proof.
  intros Hp (M & -> & Hsq).
  destruct (compare_group_unfold M p emp_a Hp) as (fa & ia & Hf & Hk & Hi & Hlt & ->).
  apply (foldl_inv Inv); [|eauto].
  intros acc e He. eapply compare_in_group_Inv; eauto using in_drop.
Qed.

Lemma compare_group_keeps (acc : option Matrix) (p : nat) (emp_a : string) :
  g !! p = Some emp_a -> Inv acc -> P acc -> P (row acc (p, emp_a)).
Proof.
  intros Hp (M & -> & Hsq) HP.
  destruct (compare_group_unfold M p emp_a Hp) as (fa & ia & Hf & Hk & Hi & Hlt & ->).
  apply (foldl_reach Inv P); [eauto| | |now left].
  - intros acc e He. eapply compare_in_group_Inv; eauto using in_drop.
  - intros acc e He. eapply compare_in_group_keeps; eauto using in_drop.
Qed.

Lemma compare_group_reaches (acc : option Matrix) (p q : nat) (emp_a emp_b : string)
    (idx_a idx_b : nat) :
  g !! p = Some emp_a -> g !! q = Some emp_b -> (p < q)%nat ->
  idx !! emp_a = Some idx_a -> idx !! emp_b = Some idx_b ->
  (idx_a = i0 /\ idx_b = j0) \/ (idx_a = j0 /\ idx_b = i0) ->
  Inv acc -> P (row acc (p, emp_a)).
Proof.
  intros Hp Hq Hpq Hia Hib Hpos (M & -> & Hsq).
  destruct (compare_group_unfold M p emp_a Hp) as (fa & ia & Hf & Hk & Hi & Hlt & ->).
  assert (ia = idx_a) as -> by congruence.
  apply (foldl_reach Inv P); [eauto| | |].
  - intros acc e He. eapply compare_in_group_Inv; eauto using in_drop.
  - intros acc e He. eapply compare_in_group_keeps; eauto using in_drop.
  - right. exists emp_b.
    assert (Hd : emp_b ∈ drop (p + 1) g).
    { apply list_elem_of_lookup. exists (q - (p + 1))%nat.
      rewrite lookup_drop. rewrite <- Hq. f_equal. lia. }
    split; [exact Hd|]. intros acc Hacc.
    eapply compare_in_group_reaches; eauto using in_drop.
Qed.

Local Abbreviation block :=
  (fun acc : option Matrix => foldl row acc (imap (fun i e => (i, e)) g)).

Lemma in_imap (p : nat) (e : string) :
  (p, e) ∈ imap (fun i e => (i, e)) g -> g !! p = Some e.
Proof.
  intros H. apply list_elem_of_lookup_1 in H as [q Hq].
  rewrite list_lookup_imap in Hq.
  destruct (g !! q) as [e'|] eqn:He; [|discriminate]. cbn in Hq.
  injection Hq as <- <-. exact He.
Qed.

Lemma block_Inv (acc : option Matrix) : Inv acc -> Inv (block acc).
Proof.
  intros Hacc. apply (foldl_inv Inv); [|exact Hacc].
  intros acc' [p e] Hpe. apply compare_group_Inv. now apply in_imap.
Qed.

Lemma block_keeps (acc : option Matrix) : Inv acc -> P acc -> P (block acc).
Proof.
  intros Hacc HP. apply (foldl_reach Inv P); [exact Hacc| | |now left].
  - intros acc' [p e] Hpe. apply compare_group_Inv. now apply in_imap.
  - intros acc' [p e] Hpe. apply compare_group_keeps. now apply in_imap.
Qed.

Lemma block_reaches (acc : option Matrix) (p q : nat) (emp_a emp_b : string)
    (idx_a idx_b : nat) :
  g !! p = Some emp_a -> g !! q = Some emp_b -> (p < q)%nat ->
  idx !! emp_a = Some idx_a -> idx !! emp_b = Some idx_b ->
  (idx_a = i0 /\ idx_b = j0) \/ (idx_a = j0 /\ idx_b = i0) ->
  Inv acc -> P (block acc).
Proof.
  intros Hp Hq Hpq Hia Hib Hpos Hacc.
  apply (foldl_reach Inv P); [exact Hacc| | |].
  - intros acc' [p' e] Hpe. apply compare_group_Inv. now apply in_imap.
  - intros acc' [p' e] Hpe. apply compare_group_keeps. now apply in_imap.
  - right. exists (p, emp_a). split.
    + apply list_elem_of_lookup. exists p. rewrite list_lookup_imap, Hp. reflexivity.
    + intros acc' Hacc'.
      now apply (compare_group_reaches acc' p q emp_a emp_b idx_a idx_b).
Qed.

End Group.

Lemma blocked_loop_content (M : Matrix) :
  NoDup ids -> square n M -> both_hold i0 j0 (fl 0) M ->
  exists M',
    blocked_loop ext weights features manager_chains idx groups M = Some M' /\
    square n M' /\ both_hold i0 j0 expected M'.
Proof.
  intros Hnd Hsq H0.
  assert (Hgoal : Inv (blocked_loop ext weights features manager_chains idx groups M) /\
                  P (blocked_loop ext weights features manager_chains idx groups M)).
  { unfold blocked_loop.
    apply (foldl_reach Inv P); [eauto| | |].
    - intros acc [k g] Hg. now apply (block_Inv k g).
    - intros acc [k g] Hg. now apply (block_keeps k g).
    - destruct (decide (same_lob features ids i0 j0 = true)) as [Hsame|Hsame].
      2:{ left. apply not_true_is_false in Hsame. exists M.
          split; [reflexivity|]. rewrite Hsame. exact H0. }
      right. unfold same_lob in Hsame.
      destruct (features_at features ids i0) as [fa|] eqn:Hfa; [|discriminate].
      destruct (features_at features ids j0) as [fb|] eqn:Hfb; [|discriminate].
      apply bool_decide_eq_true_1 in Hsame.
      unfold features_at in Hfa, Hfb.
      destruct (ids !! i0) as [ei|] eqn:Hei; [|discriminate].
      destruct (ids !! j0) as [ej|] eqn:Hej; [|discriminate].
      cbn in Hfa, Hfb.
      assert (Hne : ei <> ej).
      { intros ->. apply i0_ne_j0. exact (NoDup_lookup ids i0 j0 ej Hnd Hei Hej). }
      destruct (lob_groups_complete ids ei fa) as (g & Hg & Hig);
        [apply list_elem_of_lookup; eauto|exact Hfa|].
      destruct (lob_groups_complete ids ej fb) as (g' & Hg' & Hjg);
        [apply list_elem_of_lookup; eauto|exact Hfb|].
      rewrite <- Hsame, Hg in Hg'. injection Hg' as <-.
      apply odict_get_elem in Hg.
      apply list_elem_of_lookup_1 in Hig as [p Hp], Hjg as [q Hq].
      pose proof (id_to_idx_NoDup ids ei i0 Hnd Hei) as Hii.
      pose proof (id_to_idx_NoDup ids ej j0 Hnd Hej) as Hij.
      exists (lob_key fa, g). split; [exact Hg|]. intros acc Hacc.
      destruct (Nat.lt_total p q) as [Hpq|[Hpq|Hpq]].
      + apply (block_reaches (lob_key fa) g Hg acc p q ei ej i0 j0); auto.
      + subst q. congruence.
      + apply (block_reaches (lob_key fa) g Hg acc q p ej ei j0 i0); auto. }
  destruct Hgoal as [(M1 & H1 & Hsq1) (M2 & H2 & HP2)].
  exists M1. split; [exact H1|]. split; [exact Hsq1|]. congruence.
Qed.

End Blocked.

Lemma full_loop_square (M : Matrix) :
  square n M -> square n (full_loop ext weights features manager_chains ids M).
Proof.
  intros Hsq. unfold full_loop. apply foldl_inv; [|exact Hsq].
  intros acc i Hi Hacc. apply foldl_inv; [|exact Hacc].
  intros acc' j Hj Hacc'. now apply compare_at_square.
Qed.

Lemma blocked_loop_total (M : Matrix) :
  square n M ->
  exists M',
    blocked_loop ext weights features manager_chains (id_to_idx_of ids)
      (lob_groups_of ids features) M = Some M' /\ square n M'.
Proof.
  intros Hsq. unfold blocked_loop.
  apply (foldl_inv (fun acc : option Matrix => exists M, acc = Some M /\ square n M));
    [|eauto].
  intros acc [k g] Hg Hacc. now apply (block_Inv k g).
Qed.

End Content.

(** X4. Without LOB blocking the matrix is always produced, has 1.0 on the
    diagonal, and holds at every other pair of positions the proximity of
    the two employees standing there, 0.0 when one of them has no
    features. *)
Theorem X4_full_matrix_content
    (ext : Externals) (weights : ProximityWeights)
    (features : gmap string EmployeeFeatures)
    (manager_chains : option (gmap string (list string)))
    (employee_ids : list string) :
  let n := length employee_ids in
  exists M,
    calculate_pairwise_proximity_matrix ext weights features manager_chains
      employee_ids false = Some M /\
    forall i j, (i < n)%nat -> (j < n)%nat ->
      entry M i j =
      Some (if decide (i = j) then fl 1.0
            else pair_proximity ext weights features manager_chains employee_ids i j).
Proof.
  intros n. eexists. split; [reflexivity|].
  intros i j Hi Hj. fold n.
  pose proof (full_loop_square ext weights features manager_chains employee_ids
                (zeros n) (zeros_square n)) as Hsq.
  rewrite (entry_fill_diagonal n) by assumption.
  destruct (decide (i = j)) as [_|Hne]; [reflexivity|].
  assert (H0 : forall a b, (a < n)%nat -> (b < n)%nat ->
                 both_hold a b (fl 0) (zeros n)).
  { intros a b Ha Hb. split; now apply zeros_entry. }
  destruct (Nat.lt_total i j) as [Hij|[Hij|Hij]]; [|contradiction|].
  - apply (full_loop_content ext weights features manager_chains employee_ids
             i j Hij Hj (zeros n) (zeros_square n) (H0 i j Hi Hj)).
  - rewrite (value_sym ext weights features manager_chains employee_ids i j).
    apply (full_loop_content ext weights features manager_chains employee_ids
             j i Hij Hi (zeros n) (zeros_square n) (H0 j i Hj Hi)).
Qed.

(** X5. With LOB blocking and employee ids that are all different, the
    matrix is always produced, has 1.0 on the diagonal, holds the proximity
    of the two employees at every pair of positions whose employees both
    have features filed under the same LOB key, and 0.0 at every other pair:
    employees of different LOBs are never compared. *)
Theorem X5_blocked_matrix_content
    (ext : Externals) (weights : ProximityWeights)
    (features : gmap string EmployeeFeatures)
    (manager_chains : option (gmap string (list string)))
    (employee_ids : list string) :
  NoDup employee_ids ->
  let n := length employee_ids in
  exists M,
    calculate_pairwise_proximity_matrix ext weights features manager_chains
      employee_ids true = Some M /\
    forall i j, (i < n)%nat -> (j < n)%nat ->
      entry M i j =
      Some (if decide (i = j) then fl 1.0
            else if same_lob features employee_ids i j
                 then pair_proximity ext weights features manager_chains
                        employee_ids i j
                 else fl 0).
Proof.
  intros Hnd n.
  destruct (blocked_loop_total ext weights features manager_chains employee_ids
              (zeros n) (zeros_square n)) as (M0 & HM0 & Hsq).
  exists (fill_diagonal (fl 1.0) M0). split.
  { unfold calculate_pairwise_proximity_matrix. fold n. rewrite HM0. reflexivity. }
  intros i j Hi Hj.
  rewrite (entry_fill_diagonal n) by assumption.
  destruct (decide (i = j)) as [_|Hne]; [reflexivity|].
  destruct (blocked_loop_content ext weights features manager_chains employee_ids
              i j Hi Hj Hne (zeros n) Hnd (zeros_square n))
    as (M1 & HM1 & _ & Hij & _).
  { split; now apply zeros_entry. }
  fold n in HM1. rewrite HM0 in HM1. injection HM1 as <-. exact Hij.
Qed.

Lemma X5_witness :
  NoDup ["a"; "b"] /\
  exists M,
    calculate_pairwise_proximity_matrix GraphSpec.no_library default_ProximityWeights
      two_engineers None ["a"; "b"] true = Some M /\
    forall i j, (i < 2)%nat -> (j < 2)%nat ->
      entry M i j =
      Some (if decide (i = j) then fl 1.0
            else if same_lob two_engineers ["a"; "b"] i j
                 then pair_proximity GraphSpec.no_library default_ProximityWeights
                        two_engineers None ["a"; "b"] i j
                 else fl 0).
Proof.
  assert (Hnd : NoDup ["a"; "b"]) by (apply (bool_decide_unpack _); vm_compute; exact I).
  split; [exact Hnd|].
  exact (X5_blocked_matrix_content GraphSpec.no_library default_ProximityWeights
           two_engineers None ["a"; "b"] Hnd).
Defined.

End MatrixProps.

(** ** Facts on sorting and slicing *)

Module PyListFacts.
Import Num NumFacts PyList.
Local Open Scope Qc_scope.

Lemma insert_by_perm {A} (before : A -> A -> bool) (x : A) (l : list A) :
  insert_by before x l ≡ₚ x :: l.
Proof.
  induction l as [|y l IH]; cbn; [reflexivity|].
  destruct (before y x); [|reflexivity].
  rewrite IH. apply Permutation_swap.
Qed.

Lemma sort_by_perm {A} (before : A -> A -> bool) (l : list A) :
  sort_by before l ≡ₚ l.
Proof.
  induction l as [|x l IH]; cbn; [reflexivity|].
  rewrite insert_by_perm. now rewrite IH.
Qed.

Section Sorted.
Context {A : Type} (before : A -> A -> bool) (R : relation A).
Hypothesis before_true : forall x y, before y x = true -> R y x.
Hypothesis before_false : forall x y, before y x = false -> R x y.
Hypothesis R_trans : Transitive R.

Lemma insert_by_sorted (x : A) (l : list A) :
  StronglySorted R l -> StronglySorted R (insert_by before x l).
Proof.
  induction 1 as [|y l Hl IH Hy]; cbn.
  - repeat constructor.
  - destruct (before y x) eqn:E.
    + constructor; [exact IH|].
      apply Forall_forall. intros z Hz.
      rewrite insert_by_perm in Hz.
      apply elem_of_cons in Hz as [->|Hz]; [now apply before_true|].
      rewrite Forall_forall in Hy. now apply Hy.
    + apply before_false in E.
      constructor; [now constructor|].
      constructor; [exact E|].
      eapply Forall_impl; [exact Hy|]. intros z Hz. now transitivity y.
Qed.

Lemma sort_by_sorted (l : list A) : StronglySorted R (sort_by before l).
Proof.
  induction l as [|x l IH]; cbn; [constructor|]. now apply insert_by_sorted.
Qed.

End Sorted.

(** The result of a descending sort: no element is followed by one of
    greater key. *)
Lemma sort_desc_sorted {A} (key : A -> Qc) (l : list A) :
  StronglySorted (fun a b => key b ≤ key a) (sort_desc key l).
Proof.
  apply sort_by_sorted.
  - intros x y H. apply ltb_lt in H. now apply Qclt_le_weak.
  - intros x y H. now apply ltb_ge in H.
  - intros a b c Hab Hbc. now apply Qcle_trans with (key b).
Qed.

Lemma sort_asc_sorted {A} (key : A -> Qc) (l : list A) :
  StronglySorted (fun a b => key a ≤ key b) (sort_asc key l).
Proof.
  apply sort_by_sorted.
  - intros x y H. apply ltb_lt in H. now apply Qclt_le_weak.
  - intros x y H. now apply ltb_ge in H.
  - intros a b c Hab Hbc. now apply Qcle_trans with (key b).
Qed.

Lemma slice_to_take {A} (k : Z) (l : list A) :
  exists n, slice_to k l = take n l /\ ((0 <= k)%Z -> n = Z.to_nat k).
Proof.
  unfold slice_to. destruct (Z.leb_spec 0 k).
  - eauto.
  - eexists. split; [reflexivity|]. lia.
Qed.

End PyListFacts.

(** ** Properties of the peer search *)

Module PeerSearchProps.
Import Num NumFacts External PeerProximity PyList PyListFacts PeerSearch.
Local Open Scope Qc_scope.

Section Search.
Variable ext : Externals.
Variable weights : ProximityWeights.
Variable employee_id : string.
Variable features : list (string * EmployeeFeatures).
Variable top_k : Z.
Variable min_proximity : Qc.
Variable manager_chains : option (gmap string (list string)).

Lemma find_peers_unfold (target : EmployeeFeatures) :
  ODict.get employee_id features = Some target ->
  exists n,
    find_peers ext weights employee_id features top_k min_proximity manager_chains =
    take n (sort_desc peer_proximity
              (omap (candidate ext weights employee_id target min_proximity
                       manager_chains) features)) /\
    ((0 <= top_k)%Z -> n = Z.to_nat top_k).
Proof.
  intros Ht. unfold find_peers. rewrite Ht. apply slice_to_take.
Qed.

Lemma candidate_Some (target : EmployeeFeatures) (item : string * EmployeeFeatures)
    (p : Peer) :
  candidate ext weights employee_id target min_proximity manager_chains item = Some p <->
  item.1 <> employee_id /\
  calculate_proximity ext weights target item.2 manager_chains = (peer_proximity p, p.2) /\
  peer_id p = item.1 /\ min_proximity ≤ peer_proximity p.
Proof.
  destruct item as [other f], p as [[pid px] comps].
  unfold candidate, peer_id, peer_proximity. cbn [fst snd].
  destruct (decide (other = employee_id)) as [E|E].
  { split; [discriminate|]. intros [H _]. contradiction. }
  destruct (calculate_proximity ext weights target f manager_chains) as [x c].
  destruct (leb min_proximity x) eqn:El.
  - apply leb_le in El. split.
    + intros [= <- <- <-]. auto.
    + intros (_ & [= <- <-] & <- & _). reflexivity.
  - apply leb_gt in El. split; [discriminate|].
    intros (_ & [= <- <-] & _ & H). exfalso.
    now apply (Qclt_not_le _ _ El).
Qed.

(** X6. Every entry returned by [find_peers] is another employee of the
    feature dictionary, carries the proximity (overall and by component)
    of the target to that employee, and reaches [min_proximity]; an
    employee without features has no peers. *)
Theorem X6_find_peers_sound (p : Peer) :
  p ∈ find_peers ext weights employee_id features top_k min_proximity manager_chains ->
  peer_id p <> employee_id /\
  min_proximity ≤ peer_proximity p /\
  exists target f,
    ODict.get employee_id features = Some target /\
    (peer_id p, f) ∈ features /\
    calculate_proximity ext weights target f manager_chains = (peer_proximity p, p.2).
Proof.
  intros Hp.
  destruct (ODict.get employee_id features) as [target|] eqn:Ht.
  2:{ unfold find_peers in Hp. rewrite Ht in Hp. inversion Hp. }
  destruct (find_peers_unfold target Ht) as (n & Hn & _).
  rewrite Hn in Hp. apply elem_of_take in Hp as (i & Hp & _).
  apply list_elem_of_lookup_2 in Hp.
  unfold sort_desc in Hp. rewrite sort_by_perm in Hp.
  apply list_elem_of_omap in Hp as (item & Hitem & Hc).
  apply candidate_Some in Hc as (Hne & Hprox & Hid & Hmin).
  split; [now rewrite Hid|]. split; [exact Hmin|].
  exists target, item.2. split; [reflexivity|].
  split; [|exact Hprox]. rewrite Hid. now destruct item.
Qed.

(** X7. The result of [find_peers] is in descending order of proximity
    and, for a [top_k] that is not negative, has at most [top_k] entries. *)
Theorem X7_find_peers_sorted_bounded :
  let r := find_peers ext weights employee_id features top_k min_proximity
             manager_chains in
  StronglySorted (fun a b => peer_proximity b ≤ peer_proximity a) r /\
  ((0 <= top_k)%Z -> (Z.of_nat (length r) <= top_k)%Z).
Proof.
  intros r. subst r.
  destruct (ODict.get employee_id features) as [target|] eqn:Ht.
  2:{ unfold find_peers. rewrite Ht. split; [constructor|]. cbn. lia. }
  destruct (find_peers_unfold target Ht) as (n & -> & Hn).
  split.
  - set (s := sort_desc _ _).
    pose proof (sort_desc_sorted peer_proximity
      (omap (candidate ext weights employee_id target min_proximity manager_chains)
            features)) as Hs.
    fold s in Hs. rewrite <- (take_drop n s) in Hs.
    now apply StronglySorted_app_1_l in Hs.
  - intros Hk. rewrite (Hn Hk), length_take. lia.
Qed.

(** X8. With a [top_k] that is not negative, an employee of the feature
    dictionary, other than the target, whose proximity reaches
    [min_proximity] is left out of the result only when the result holds
    [top_k] entries, each at least as close as that employee. *)
Theorem X8_find_peers_keeps_the_closest
    (target : EmployeeFeatures) (other : string) (f : EmployeeFeatures)
    (x : Qc) (comps : Qc * Qc * Qc * Qc) :
  (0 <= top_k)%Z ->
  ODict.get employee_id features = Some target ->
  (other, f) ∈ features -> other <> employee_id ->
  calculate_proximity ext weights target f manager_chains = (x, comps) ->
  min_proximity ≤ x ->
  let r := find_peers ext weights employee_id features top_k min_proximity
             manager_chains in
  (other, x, comps) ∈ r \/
  (Z.of_nat (length r) = top_k /\ forall p, p ∈ r -> x ≤ peer_proximity p).
Proof.
  intros Hk Ht Hin Hne Ec Hmin r. subst r.
  destruct (find_peers_unfold target Ht) as (n & -> & Hn).
  rewrite (Hn Hk). clear Hn.
  set (cands := omap _ features).
  assert (Hc : (other, x, comps) ∈ cands).
  { apply list_elem_of_omap. exists (other, f). split; [exact Hin|].
    apply candidate_Some. cbn. rewrite Ec. auto. }
  set (s := sort_desc peer_proximity cands).
  assert (Hs : (other, x, comps) ∈ s).
  { subst s. unfold sort_desc. now rewrite sort_by_perm. }
  pose proof (sort_desc_sorted peer_proximity cands) as Hsorted. fold s in Hsorted.
  rewrite <- (take_drop (Z.to_nat top_k) s) in Hs, Hsorted.
  apply elem_of_app in Hs as [Hs|Hs]; [now left|right].
  split.
  - rewrite length_take.
    apply list_elem_of_lookup_1 in Hs as (i & Hi).
    apply lookup_lt_Some in Hi. rewrite length_drop in Hi. unfold Peer in *. lia.
  - intros p Hp.
    apply (StronglySorted_app_1_elem_of _ _ _ p (other, x, comps) Hsorted Hp Hs).
Qed.

End Search.

(** Among the two engineers, the peers of "a" at the default arguments. *)
Lemma X6_witness :
  exists p,
    p ∈ find_peers GraphSpec.no_library default_ProximityWeights "a"
          Examples.engineers_in_order 20 (fl 0.3) None /\
    peer_id p <> "a" /\ fl 0.3 ≤ peer_proximity p /\
    exists target f,
      ODict.get "a" Examples.engineers_in_order = Some target /\
      (peer_id p, f) ∈ Examples.engineers_in_order /\
      calculate_proximity GraphSpec.no_library default_ProximityWeights target f None =
      (peer_proximity p, p.2).
Proof.
  assert (H : is_Some (head (find_peers GraphSpec.no_library default_ProximityWeights "a"
                               Examples.engineers_in_order 20 (fl 0.3) None)))
    by (vm_compute; eauto).
  destruct H as [p H]. exists p. apply head_Some_elem_of in H.
  split; [exact H|].
  exact (X6_find_peers_sound GraphSpec.no_library default_ProximityWeights "a"
           Examples.engineers_in_order 20 (fl 0.3) None p H).
Defined.

Lemma X8_witness :
  let target := ProximitySpec.engineer "a" in
  let f := ProximitySpec.engineer "b" in
  let x := (calculate_proximity GraphSpec.no_library default_ProximityWeights
              target f None).1 in
  let comps := (calculate_proximity GraphSpec.no_library default_ProximityWeights
                  target f None).2 in
  let r := find_peers GraphSpec.no_library default_ProximityWeights "a"
             Examples.engineers_in_order 20 (fl 0.3) None in
  (0 <= 20)%Z /\
  ODict.get "a" Examples.engineers_in_order = Some target /\
  ("b", f) ∈ Examples.engineers_in_order /\ "b" <> "a" /\
  fl 0.3 ≤ x /\
  (("b", x, comps) ∈ r \/
   (Z.of_nat (length r) = 20%Z /\ forall p, p ∈ r -> x ≤ peer_proximity p)).
Proof.
  cbv zeta.
  assert (Hk : (0 <= 20)%Z) by lia.
  assert (Ht : ODict.get "a" Examples.engineers_in_order
               = Some (ProximitySpec.engineer "a")) by reflexivity.
  assert (Hin : ("b", ProximitySpec.engineer "b") ∈ Examples.engineers_in_order)
    by (right; left).
  assert (Hne : "b" <> "a") by discriminate.
  assert (Hmin : fl 0.3 ≤ (calculate_proximity GraphSpec.no_library
                             default_ProximityWeights (ProximitySpec.engineer "a")
                             (ProximitySpec.engineer "b") None).1)
    by (apply leb_le; vm_compute; reflexivity).
  split; [exact Hk|]. split; [exact Ht|]. split; [exact Hin|]. split; [exact Hne|].
  split; [exact Hmin|].
  exact (X8_find_peers_keeps_the_closest GraphSpec.no_library default_ProximityWeights
           "a" Examples.engineers_in_order 20 (fl 0.3) None
           (ProximitySpec.engineer "a") "b" (ProximitySpec.engineer "b") _ _
           Hk Ht Hin Hne (surjective_pairing _) Hmin).
Defined.

End PeerSearchProps.

(** ** Facts on insertion-ordered dictionaries *)

Module ODictFacts.

Lemma get_set_same {K V} `{EqDecision K} (k : K) (v : V) (d : list (K * V)) :
  ODict.get k (ODict.set k v d) = Some v.
Proof.
  induction d as [|[k' v'] d IH]; cbn.
  - now rewrite decide_True.
  - destruct (decide (k' = k)) as [E|E]; cbn.
    + now rewrite decide_True.
    + now rewrite decide_False.
Qed.

Lemma get_set_other {K V} `{EqDecision K} (k k0 : K) (v : V) (d : list (K * V)) :
  k <> k0 -> ODict.get k0 (ODict.set k v d) = ODict.get k0 d.
Proof.
  intros Hne. induction d as [|[k' v'] d IH]; cbn.
  - now rewrite decide_False.
  - destruct (decide (k' = k)) as [->|E]; cbn.
    + now rewrite !decide_False.
    + destruct (decide (k' = k0)); [reflexivity|exact IH].
Qed.

Lemma get_elem {K V} `{EqDecision K} (k : K) (v : V) (d : list (K * V)) :
  ODict.get k d = Some v -> (k, v) ∈ d.
Proof.
  induction d as [|[k' v'] d IH]; cbn; [discriminate|].
  destruct (decide (k' = k)) as [->|_].
  - intros [= ->]. constructor.
  - intros H. constructor. now apply IH.
Qed.

(** In a dictionary, whose keys are all different, an item is what [get]
    finds at its key. *)
Lemma get_NoDup {K V} `{EqDecision K} (k : K) (v : V) (d : list (K * V)) :
  NoDup (map fst d) -> (k, v) ∈ d -> ODict.get k d = Some v.
Proof.
  induction d as [|[k' v'] d IH]; cbn; intros Hnd Hin; [inversion Hin|].
  apply NoDup_cons in Hnd as [Hk Hnd].
  apply elem_of_cons in Hin as [[= -> ->]|Hin].
  - now rewrite decide_True.
  - destruct (decide (k' = k)) as [->|_]; [|now apply IH].
    exfalso. apply Hk. apply list_elem_of_fmap. now exists (k, v).
Qed.

End ODictFacts.

(** ** Properties of the cluster queries *)

Module ClusterQueryProps.
Import Num NumFacts ClusteringData Consensus ClusterQueries ODictFacts.

Section Members.
Variable employee_id : string.
Variable strategy : ClusteringStrategy.
Variable all_assignments : list (ClusteringStrategy * list (string * ClusterAssignment)).

Lemma get_cluster_members_spec (m : string) :
  m ∈ get_cluster_members employee_id strategy all_assignments <->
  exists assignments a am,
    ODict.get strategy all_assignments = Some assignments /\
    ODict.get employee_id assignments = Some a /\
    cluster_id a <> (-1)%Z /\
    (m, am) ∈ assignments /\ cluster_id am = cluster_id a /\ m <> employee_id.
Proof.
  unfold get_cluster_members.
  destruct (ODict.get strategy all_assignments) as [assignments|];
    [|split; [intros H; inversion H|intros (? & ? & ? & [=] & _)]].
  destruct (ODict.get employee_id assignments) as [a|] eqn:He.
  2:{ split; [intros H; inversion H|].
      intros (? & ? & ? & [= <-] & He' & _). congruence. }
  destruct (Z.eqb_spec (cluster_id a) (-1)) as [E|E].
  { split; [intros H; inversion H|].
    intros (? & a' & ? & [= <-] & He' & Hne & _).
    rewrite He in He'. injection He' as <-. contradiction. }
  rewrite list_elem_of_omap. split.
  - intros ([e ae] & Hin & Hsome).
    destruct (Z.eqb_spec (cluster_id ae) (cluster_id a)) as [Ec|Ec]; [|discriminate].
    destruct (decide (e = employee_id)) as [Ee|Ee].
    + rewrite bool_decide_eq_true_2 in Hsome by exact Ee. discriminate.
    + rewrite bool_decide_eq_false_2 in Hsome by exact Ee. cbn in Hsome.
      injection Hsome as <-. exists assignments, a, ae.
      repeat split; try assumption; reflexivity.
  - intros (? & a' & am & [= <-] & He' & _ & Hin & Hc & Hne).
    rewrite He in He'. injection He' as <-.
    exists (m, am). split; [exact Hin|]. cbn.
    rewrite Hc, Z.eqb_refl, bool_decide_eq_false_2 by exact Hne. reflexivity.
Qed.

(** X9. Cluster membership is mutual: when the keys of the strategy's
    dictionary are all different, a member of the cluster of an employee
    has that employee among the members of its own cluster. *)
Theorem X9_cluster_members_mutual (assignments : list (string * ClusterAssignment))
    (m : string) :
  ODict.get strategy all_assignments = Some assignments ->
  NoDup (map fst assignments) ->
  m ∈ get_cluster_members employee_id strategy all_assignments ->
  employee_id ∈ get_cluster_members m strategy all_assignments.
Proof.
  intros Hs Hnd H. apply get_cluster_members_spec in H
    as (assignments' & a & am & Hs' & He & Hc & Hin & Hcm & Hne).
  rewrite Hs in Hs'. injection Hs' as <-.
  unfold get_cluster_members. rewrite Hs.
  rewrite (get_NoDup m am assignments Hnd Hin).
  destruct (Z.eqb_spec (cluster_id am) (-1)) as [E|E]; [congruence|].
  apply list_elem_of_omap. exists (employee_id, a).
  split; [now apply get_elem|]. cbn.
  rewrite Hcm, Z.eqb_refl, bool_decide_eq_false_2 by congruence. reflexivity.
Qed.

(** X10. [get_cluster_members] returns the peer set that
    [analyze_consensus] computes for a strategy: for a dictionary whose keys
    are all different and an assignment that is flagged an outlier exactly
    when its cluster is -1, the members are the elements of that set. *)
Theorem X10_cluster_members_are_the_peer_set
    (assignments : list (string * ClusterAssignment)) (a : ClusterAssignment)
    (m : string) :
  ODict.get strategy all_assignments = Some assignments ->
  NoDup (map fst assignments) ->
  ODict.get employee_id assignments = Some a ->
  (is_outlier a = true <-> cluster_id a = (-1)%Z) ->
  m ∈ get_cluster_members employee_id strategy all_assignments <->
  m ∈ (if is_outlier a then (∅ : gset string)
       else cluster_members (list_to_map assignments) employee_id a).
Proof.
  intros Hs Hnd He Hout. rewrite get_cluster_members_spec. split.
  - intros (assignments' & a' & am & Hs' & He' & Hc & Hin & Hcm & Hne).
    rewrite Hs in Hs'. injection Hs' as <-.
    rewrite He in He'. injection He' as <-.
    destruct (is_outlier a) eqn:Eo; [exfalso; now apply Hc, Hout|].
    unfold cluster_members. apply elem_of_dom. exists am.
    apply map_lookup_filter_Some. split; [|auto].
    now apply elem_of_list_to_map_1.
  - destruct (is_outlier a) eqn:Eo; [intros H; set_solver|].
    unfold cluster_members. intros H.
    apply elem_of_dom in H as [am H].
    apply map_lookup_filter_Some in H as [Hin [Hne Hcm]].
    apply elem_of_list_to_map_2 in Hin.
    exists assignments, a, am. repeat split; try assumption.
    intros E. apply Hout in E. congruence.
Qed.

End Members.

Lemma X9_witness :
  let assignments := default [] (ODict.get DBSCAN Examples.one_cluster) in
  ODict.get DBSCAN Examples.one_cluster = Some assignments /\
  NoDup (map fst assignments) /\
  "e2" ∈ get_cluster_members "e1" DBSCAN Examples.one_cluster /\
  "e1" ∈ get_cluster_members "e2" DBSCAN Examples.one_cluster.
Proof.
  cbv zeta.
  assert (Hs : ODict.get DBSCAN Examples.one_cluster
               = Some (default [] (ODict.get DBSCAN Examples.one_cluster)))
    by reflexivity.
  assert (Hnd : NoDup (map fst (default [] (ODict.get DBSCAN Examples.one_cluster))))
    by (apply (bool_decide_unpack _); vm_compute; exact I).
  assert (Hm : "e2" ∈ get_cluster_members "e1" DBSCAN Examples.one_cluster)
    by (apply (bool_decide_unpack _); vm_compute; exact I).
  split; [exact Hs|]. split; [exact Hnd|]. split; [exact Hm|].
  exact (X9_cluster_members_mutual "e1" DBSCAN Examples.one_cluster _ "e2" Hs Hnd Hm).
Defined.

Lemma X10_witness :
  let assignments := default [] (ODict.get DBSCAN Examples.one_cluster) in
  let a := {| employee_id := "e1"; strategy := DBSCAN; cluster_id := 0;
              confidence := fl 1.0; is_outlier := false |} in
  ODict.get DBSCAN Examples.one_cluster = Some assignments /\
  NoDup (map fst assignments) /\
  ODict.get "e1" assignments = Some a /\
  (is_outlier a = true <-> cluster_id a = (-1)%Z) /\
  ("e2" ∈ get_cluster_members "e1" DBSCAN Examples.one_cluster <->
   "e2" ∈ (if is_outlier a then (∅ : gset string)
           else cluster_members (list_to_map assignments) "e1" a)).
Proof.
  cbv zeta.
  assert (Hs : ODict.get DBSCAN Examples.one_cluster
               = Some (default [] (ODict.get DBSCAN Examples.one_cluster)))
    by reflexivity.
  assert (Hnd : NoDup (map fst (default [] (ODict.get DBSCAN Examples.one_cluster))))
    by (apply (bool_decide_unpack _); vm_compute; exact I).
  split; [exact Hs|]. split; [exact Hnd|]. split; [reflexivity|].
  split; [split; discriminate|].
  exact (X10_cluster_members_are_the_peer_set "e1" DBSCAN Examples.one_cluster _ _ "e2"
           Hs Hnd eq_refl (conj (fun H => False_ind _ (Bool.diff_false_true H))
                                (fun H : 0%Z = (-1)%Z => ltac:(discriminate H)))).
Defined.

End ClusterQueryProps.

(** ** Properties of the clustering strategies *)

Module StrategyProps.
Import Num NumFacts ClusteringData External Strategies ODictFacts.
Import ProximityProps GraphProps.
Local Open Scope Qc_scope.

(** What a completed loop of assignments holds. *)
Lemma assign_all_Some (ids : list string)
    (body : nat -> string -> option ClusterAssignment)
    (res : gmap string ClusterAssignment) :
  assign_all ids body = Some res ->
  (forall e, e ∈ ids -> is_Some (res !! e)) /\
  (forall e a, res !! e = Some a -> exists i, ids !! i = Some e /\ body i e = Some a).
Proof.
  revert res. induction ids as [|x ids IH] using rev_ind; intros res H.
  - cbn in H. injection H as <-. split.
    + intros e He. inversion He.
    + intros e a Ha. rewrite lookup_empty in Ha. discriminate.
  - rewrite assign_all_snoc in H.
    destruct (assign_all ids body) as [m|] eqn:Hm; [|discriminate]. cbn in H.
    destruct (body (length ids) x) as [ax|] eqn:Hx; [|discriminate]. cbn in H.
    injection H as <-. destruct (IH m eq_refl) as [IH1 IH2]. split.
    + intros e He. destruct (decide (x = e)) as [->|Hne].
      * rewrite lookup_insert_eq. eauto.
      * rewrite lookup_insert_ne by exact Hne. apply IH1.
        apply elem_of_app in He as [He|He]; [exact He|].
        apply list_elem_of_singleton in He. congruence.
    + intros e a Ha. destruct (decide (x = e)) as [->|Hne].
      * rewrite lookup_insert_eq in Ha. injection Ha as <-.
        exists (length ids). split; [|exact Hx].
        rewrite lookup_app_r by lia. now rewrite Nat.sub_diag.
      * rewrite lookup_insert_ne in Ha by exact Hne.
        destruct (IH2 e a Ha) as (i & Hi & Hb). exists i.
        split; [now apply lookup_app_l_Some|exact Hb].
Qed.

Lemma foldl_fmax_ge (xs : list Qc) (x0 : Qc) :
  x0 ≤ foldl fmax x0 xs /\ forall x, x ∈ xs -> x ≤ foldl fmax x0 xs.
Proof.
  revert x0. induction xs as [|y xs IH]; intros x0; cbn.
  - split; [apply Qcle_refl|]. intros x Hx. inversion Hx.
  - destruct (IH (fmax x0 y)) as [IH1 IH2].
    assert (Hx0 : x0 ≤ fmax x0 y) by apply fmax_ge_l.
    assert (Hy : y ≤ fmax x0 y).
    { unfold fmax. destruct (leb y x0) eqn:E; [now apply leb_le|apply Qcle_refl]. }
    split; [now apply Qcle_trans with (fmax x0 y)|].
    intros x Hx. apply elem_of_cons in Hx as [->|Hx]; [|now apply IH2].
    now apply Qcle_trans with (fmax x0 y).
Qed.

Lemma list_max_ge (xs : list Qc) (m x : Qc) :
  list_max xs = Some m -> x ∈ xs -> x ≤ m.
Proof.
  destruct xs as [|x0 xs]; [discriminate|]. cbn. intros [= <-] Hx.
  destruct (foldl_fmax_ge xs x0) as [H0 H1].
  apply elem_of_cons in Hx as [->|Hx]; [exact H0|now apply H1].
Qed.

Lemma mapM_lookup {A B} (f : A -> option B) (l : list A) (k : list B) (i : nat) (a : A) :
  mapM f l = Some k -> l !! i = Some a -> exists b, k !! i = Some b /\ f a = Some b.
Proof.
  intros H Hi. apply mapM_Some in H.
  destruct (Forall2_lookup_l _ _ _ _ _ H Hi) as (b & Hb & Hf). eauto.
Qed.

Lemma range_elem (lo hi k : Z) : k ∈ range lo hi -> (lo <= k < hi)%Z.
Proof.
  unfold range. intros H. apply list_elem_of_fmap in H as (i & -> & Hi).
  apply elem_of_seq in Hi. lia.
Qed.

Section Strategies.
Variable ext : Externals.
Variable config : ClusteringConfig.

(** X11. [run_all_strategies] holds, for every requested strategy that
    did not raise, exactly the assignments that strategy returns, and
    nothing for a strategy that raised or was not requested. *)
Theorem X11_run_all_strategies_lookup (proximity_matrix : Matrix)
    (employee_ids : list string) (strategies : option (list ClusteringStrategy))
    (s : ClusteringStrategy) :
  ODict.get s (run_all_strategies ext config proximity_matrix employee_ids strategies) =
  if bool_decide (s ∈ default all_strategies strategies)
  then run_strategy ext config s proximity_matrix employee_ids
  else None.
Proof.
  unfold run_all_strategies.
  generalize (default all_strategies strategies). intros l.
  induction l as [|x l IH] using rev_ind; [reflexivity|].
  rewrite foldl_app. cbn [foldl].
  destruct (decide (x = s)) as [->|Hne].
  - rewrite (bool_decide_eq_true_2 (s ∈ l ++ [s]))
      by (apply elem_of_app; right; constructor).
    destruct (run_strategy ext config s proximity_matrix employee_ids) as [r|] eqn:Hr.
    + apply get_set_same.
    + rewrite IH. now destruct (bool_decide (s ∈ l)).
  - assert (Hin : bool_decide (s ∈ l ++ [x]) = bool_decide (s ∈ l)).
    { apply bool_decide_ext. rewrite elem_of_app, list_elem_of_singleton.
      split; [intros [H|H]; [exact H|congruence]|auto]. }
    rewrite Hin.
    destruct (run_strategy ext config x proximity_matrix employee_ids) as [r|];
      [|exact IH].
    now rewrite get_set_other.
Qed.

(** X12. When DBSCAN returns, every employee id has an assignment and no
    other key has one; each assignment carries its own employee id, is
    flagged an outlier exactly when its cluster is -1, and an outlier has
    confidence 0.0. *)
Theorem X12_dbscan_assignments (proximity_matrix : Matrix)
    (employee_ids : list string) (res : gmap string ClusterAssignment) :
  cluster_dbscan ext config proximity_matrix employee_ids = Some res ->
  (forall e, e ∈ employee_ids -> is_Some (res !! e)) /\
  (forall e a, res !! e = Some a ->
     e ∈ employee_ids /\ employee_id a = e /\ strategy a = DBSCAN /\
     is_outlier a = (cluster_id a =? -1)%Z /\
     (is_outlier a = true -> confidence a = fl 0.0)).
Proof.
  unfold cluster_dbscan. intros H.
  destruct (DBSCAN_fit_predict ext _ _ _) as [labels|]; [|discriminate]. cbn in H.
  apply assign_all_Some in H as [H1 H2]. split; [exact H1|].
  intros e a Ha. destruct (H2 e a Ha) as (i & Hi & Hb).
  split; [apply list_elem_of_lookup; eauto|].
  destruct (labels !! i) as [c|]; [|discriminate]. cbn in Hb.
  destruct (c =? -1)%Z eqn:Ec; cbn in Hb.
  - injection Hb as <-. cbn. rewrite Ec. auto.
  - destruct (mean_proximity _ _ _) as [p|]; [|discriminate]. cbn in Hb.
    injection Hb as <-. cbn. rewrite Ec. repeat split. discriminate.
Qed.

(** X13. When K-means returns, every employee id has an assignment, none
    is an outlier, and the confidence of an assignment is never negative,
    whatever distances the library reports. *)
Theorem X13_kmeans_assignments (proximity_matrix : Matrix)
    (employee_ids : list string) (res : gmap string ClusterAssignment) :
  cluster_kmeans ext config proximity_matrix employee_ids = Some res ->
  (forall e, e ∈ employee_ids -> is_Some (res !! e)) /\
  (forall e a, res !! e = Some a ->
     e ∈ employee_ids /\ employee_id a = e /\ strategy a = KMEANS /\
     is_outlier a = false /\ 0 ≤ confidence a).
Proof.
  unfold cluster_kmeans. intros H.
  destruct (if (kmeans_n_clusters config =? 0)%Z then _ else _) as [k|];
    [|discriminate]. cbn in H.
  destruct (KMeans ext k 42 10 _) as [[labels D]|]; [|discriminate]. cbn in H.
  apply assign_all_Some in H as [H1 H2]. split; [exact H1|].
  intros e a Ha. destruct (H2 e a Ha) as (i & Hi & Hb).
  split; [apply list_elem_of_lookup; eauto|].
  destruct (labels !! i) as [c|]; [|discriminate]. cbn in Hb.
  destruct (D !! i) as [row|] eqn:Hrow; [|discriminate]. cbn in Hb.
  destruct (np_get row c) as [dist|] eqn:Hdist; [|discriminate]. cbn in Hb.
  destruct (mapM (fun r => np_get r c) D) as [column|] eqn:Hcol; [|discriminate].
  cbn in Hb.
  destruct (list_max column) as [max_dist|] eqn:Hmax; [|discriminate]. cbn in Hb.
  injection Hb as <-. cbn. repeat split.
  destruct (mapM_lookup _ _ _ _ _ Hcol Hrow) as (d & Hd & Hd').
  rewrite Hdist in Hd'. injection Hd' as <-.
  assert (Hle : dist ≤ max_dist).
  { apply (list_max_ge column); [exact Hmax|]. apply list_elem_of_lookup. eauto. }
  destruct (ltb (fl 0) max_dist) eqn:Hpos; [|lit].
  apply ltb_lt in Hpos. rewrite fl_0 in Hpos.
  assert (Hdiv : dist / max_dist ≤ 1).
  { clear - Hle Hpos. destruct dist as [d ?], max_dist as [m ?].
    to_Q. cbn [this] in *. apply Qle_shift_div_r; [exact Hpos|]. lra. }
  destruct (dist / max_dist) as [q ?]. to_Q. cbn [this] in *. lra.
Qed.

(** X14. The silhouette search for the number of clusters fails only on
    a minimal cluster size of zero (a division by zero), and otherwise
    returns a number between 2 and the larger of 2 and
    min([kmeans_max_clusters], [n_samples // kmeans_min_cluster_size]). *)
Theorem X14_auto_select_k_range (fit : Z -> option (list Z))
    (distance_matrix : Matrix) (n_samples : Z) :
  let max_k := Z.max 2 (Z.min (kmeans_max_clusters config)
                              (n_samples / kmeans_min_cluster_size config)) in
  if decide (kmeans_min_cluster_size config = 0%Z)
  then auto_select_k ext config fit distance_matrix n_samples = None
  else exists k,
    auto_select_k ext config fit distance_matrix n_samples = Some k /\
    (2 <= k <= max_k)%Z.
Proof.
  intros max_k. unfold auto_select_k.
  destruct (decide (kmeans_min_cluster_size config = 0%Z)) as [E|E].
  { now rewrite E. }
  apply Z.eqb_neq in E. rewrite E. cbv zeta. fold max_k.
  match goal with |- context [foldl ?f _ _] => set (step := f) end.
  assert (Hinv : forall l acc,
            (forall k, k ∈ l -> (2 <= k <= max_k)%Z) ->
            (2 <= acc.1 <= max_k)%Z -> (2 <= (foldl step acc l).1 <= max_k)%Z).
  { induction l as [|k l IH]; intros acc Hl Hacc; [exact Hacc|].
    cbn. apply IH.
    - intros k' Hk'. apply Hl. now constructor.
    - assert (Hk : (2 <= k <= max_k)%Z) by (apply Hl; constructor).
      subst step. cbv beta. destruct acc as [bk bs]. cbn [fst] in *.
      repeat match goal with
             | |- context [match ?o with Some _ => _ | None => _ end] => destruct o
             | |- context [if ?b then _ else _] => destruct b
             end; cbn [fst]; assumption. }
  specialize (Hinv (range 2 (max_k + 1)) (2%Z, fl (-1))).
  destruct (foldl step (2%Z, fl (-1)) (range 2 (max_k + 1))) as [bk bs].
  exists bk. split; [reflexivity|].
  apply Hinv.
  - intros k Hk. apply range_elem in Hk. lia.
  - cbn. lia.
Qed.

End Strategies.

Lemma X12_witness :
  exists res,
    cluster_dbscan EngineSpec.example_library default_ClusteringConfig
      Examples.close_pair ["e1"; "e2"] = Some res /\
    (forall e, e ∈ ["e1"; "e2"] -> is_Some (res !! e)) /\
    (forall e a, res !! e = Some a ->
       e ∈ ["e1"; "e2"] /\ employee_id a = e /\ strategy a = DBSCAN /\
       is_outlier a = (cluster_id a =? -1)%Z /\
       (is_outlier a = true -> confidence a = fl 0.0)).
Proof.
  assert (H : is_Some (cluster_dbscan EngineSpec.example_library
                         default_ClusteringConfig Examples.close_pair ["e1"; "e2"]))
    by (vm_compute; eauto).
  destruct H as [res H]. exists res. split; [exact H|].
  exact (X12_dbscan_assignments EngineSpec.example_library default_ClusteringConfig
           Examples.close_pair ["e1"; "e2"] res H).
Defined.

Lemma X13_witness :
  exists res,
    cluster_kmeans Examples.kmeans_library default_ClusteringConfig
      Examples.close_pair ["e1"; "e2"] = Some res /\
    (forall e, e ∈ ["e1"; "e2"] -> is_Some (res !! e)) /\
    (forall e a, res !! e = Some a ->
       e ∈ ["e1"; "e2"] /\ employee_id a = e /\ strategy a = KMEANS /\
       is_outlier a = false /\ 0 ≤ confidence a).
Proof.
  assert (H : is_Some (cluster_kmeans Examples.kmeans_library
                         default_ClusteringConfig Examples.close_pair ["e1"; "e2"]))
    by (vm_compute; eauto).
  destruct H as [res H]. exists res. split; [exact H|].
  exact (X13_kmeans_assignments Examples.kmeans_library default_ClusteringConfig
           Examples.close_pair ["e1"; "e2"] res H).
Defined.

End StrategyProps.

(** ** Invariants of the consensus results *)

Module ConsensusInvariants.
Import Num NumFacts ClusteringData Consensus ConsensusSpec ConsensusProps.
Import ProximityProps.
Local Open Scope Qc_scope.

Lemma div_unit (x y : Qc) : 0 ≤ x -> x ≤ y -> 0 < y -> 0 ≤ x / y ≤ 1.
Proof.
  intros H0 Hle Hy. destruct x as [x ?], y as [y ?]. to_Q. cbn [this] in *.
  split.
  - apply Qle_shift_div_l; [exact Hy|]. lra.
  - apply Qle_shift_div_r; [exact Hy|]. lra.
Qed.

Lemma of_int_succ (n : nat) : of_int (Z.of_nat (S n)) = of_int (Z.of_nat n) + 1.
Proof. to_Q. rewrite Nat2Z.inj_succ. unfold Z.succ. rewrite inject_Z_plus. reflexivity. Qed.

Lemma fsum_unit (xs : list Qc) :
  (forall x, x ∈ xs -> 0 ≤ x ≤ 1) ->
  0 ≤ fsum xs ≤ of_int (Z.of_nat (length xs)).
Proof.
  induction xs as [|x xs IH]; intros H.
  - split; apply Qcle_refl || (now apply leb_le).
  - destruct IH as [I0 I1]; [intros y Hy; apply H; now constructor|].
    destruct (H x) as [H0 H1]; [constructor|].
    cbn [fsum foldr length]. rewrite of_int_succ. fold (fsum xs).
    destruct x as [x ?], (fsum xs) as [s ?], (of_int (Z.of_nat (length xs))) as [n ?].
    to_Q. cbn [this] in *. split; lra.
Qed.

Lemma mean_unit (xs : list Qc) :
  xs <> [] -> (forall x, x ∈ xs -> 0 ≤ x ≤ 1) -> 0 ≤ mean xs ≤ 1.
Proof.
  intros Hne H. destruct (fsum_unit xs H) as [H0 H1]. unfold mean.
  apply div_unit; [exact H0|exact H1|].
  apply of_int_pos. destruct xs; [congruence|cbn; lia].
Qed.

Lemma jaccard_ratio_range (p : gset string * gset string) :
  counted p -> 0 ≤ jaccard_ratio p ≤ 1.
Proof.
  intros Hc. unfold jaccard_ratio. apply div_unit.
  - apply of_int_nonneg. unfold set_len. lia.
  - apply of_int_le. unfold set_len. apply inj_le, subseteq_size.
    intros x Hx. apply elem_of_intersection in Hx as [Hx _]. now apply elem_of_union_l.
  - apply of_int_pos. now apply set_len_union_pos.
Qed.

Lemma calc_consensus_score_range (peer_sets : list (gset string)) :
  0 ≤ calc_consensus_score peer_sets ≤ 1.
Proof.
  unfold calc_consensus_score.
  destruct (2 <=? length peer_sets)%nat; [|split; lit].
  rewrite pairwise_similarities_pairs.
  set (sims := map jaccard_ratio _).
  assert (Hs : forall x, x ∈ sims -> 0 ≤ x ≤ 1).
  { intros x Hx. apply list_elem_of_fmap in Hx as (p & -> & Hp).
    apply list_elem_of_filter in Hp as [Hp _]. now apply jaccard_ratio_range. }
  destruct sims as [|s0 sims0] eqn:E; [split; lit|].
  apply mean_unit; [discriminate|exact Hs].
Qed.

Lemma analyze_consensus_lookup config list_of_set
    (all_assignments : AllAssignments) (employee_ids : list string) (e : string) :
  analyze_consensus config list_of_set all_assignments employee_ids !! e =
  if bool_decide (e ∈ employee_ids)
  then Some (consensus_for config list_of_set all_assignments e) else None.
Proof.
  unfold analyze_consensus.
  induction employee_ids as [|x ids IH] using rev_ind; [reflexivity|].
  rewrite foldl_app. cbn [foldl]. destruct (decide (x = e)) as [->|Hne].
  - rewrite lookup_insert_eq, bool_decide_eq_true_2; [reflexivity|].
    apply elem_of_app. right. constructor.
  - rewrite lookup_insert_ne by exact Hne. rewrite IH.
    assert (Hb : bool_decide (e ∈ ids ++ [x]) = bool_decide (e ∈ ids)).
    { apply bool_decide_ext. rewrite elem_of_app, list_elem_of_singleton.
      split; [intros [H|H]; [exact H|congruence]|auto]. }
    now rewrite Hb.
Qed.

Lemma collect_assignments_length (all_assignments : AllAssignments) (e : string) :
  (length (collect_assignments all_assignments e) <= length all_assignments)%nat.
Proof.
  unfold collect_assignments. induction all_assignments as [|[s m] l IH]; cbn; [lia|].
  destruct (m !! e); cbn; lia.
Qed.

(** The union of the peer sets that are not empty is the union of all. *)
Lemma union_non_empty (peer_sets : list (gset string)) (p : string) :
  p ∈ (match filter (fun s => set_truthy s = true) peer_sets with
       | [] => (∅ : gset string)
       | [s] => s
       | l => ⋃ l
       end) <->
  exists s, s ∈ peer_sets /\ p ∈ s.
Proof.
  set (l := filter _ peer_sets).
  assert (Hl : p ∈ ⋃ l <-> exists s, s ∈ peer_sets /\ p ∈ s).
  { rewrite elem_of_union_list. subst l. split.
    - intros (s & Hs & Hp). apply list_elem_of_filter in Hs as [_ Hs]. eauto.
    - intros (s & Hs & Hp). exists s. split; [|exact Hp].
      apply list_elem_of_filter. split; [|exact Hs].
      apply set_truthy_true. set_solver. }
  rewrite <- Hl. destruct l as [|s [|t l]]; cbn; [set_solver|set_solver|reflexivity].
Qed.

Section Results.
Variable config : ClusteringConfig.
Variable list_of_set : gset string -> list string.
Variable all_assignments : AllAssignments.
Variable emp_id : string.

Local Abbreviation r := (consensus_for config list_of_set all_assignments emp_id).
Local Abbreviation emp_assignments := (collect_assignments all_assignments emp_id).
Local Abbreviation peer_sets :=
  (peer_sets_of all_assignments emp_id (collect_assignments all_assignments emp_id)).

Ltac open_lets :=
  repeat match goal with
         | |- context [let '(_, _) := ?x in _] => destruct x eqn:?
         end.

Lemma consensus_for_peers :
  exists S : gset string,
    peer_ids r = (if (Z.of_nat (length emp_assignments) =? 0)%Z then []
                  else list_of_set S) /\
    peer_count r = set_len S /\
    forall p, p ∈ S <->
      (length emp_assignments <> 0)%nat /\ exists s, s ∈ peer_sets /\ p ∈ s.
Proof.
  unfold consensus_for.
  destruct (Z.eqb_spec (Z.of_nat (length emp_assignments)) 0) as [E|E].
  - exists ∅. split; [reflexivity|]. split; [reflexivity|].
    intros p. split; [set_solver|]. intros [H _]. lia.
  - open_lets. cbn [peer_ids peer_count].
    match goal with
    | H : _ = (?cp, ?ap) |- context [list_of_set ?ap] =>
      assert (Hap : forall p, p ∈ ap <-> exists s, s ∈ peer_sets /\ p ∈ s);
      [intros p; rewrite <- union_non_empty; revert H;
       destruct (filter (fun s => set_truthy s = true) peer_sets) as [|s [|t l]];
       intros [= <- <-]; reflexivity|];
      exists ap
    end.
    split; [reflexivity|]. split; [reflexivity|].
    intros p. rewrite Hap. split; [intros H; split; [lia|exact H]|].
    now intros [_ H].
Qed.

Lemma consensus_for_votes :
  let votes := votes_of emp_assignments in
  let outlier_votes :=
    Z.of_nat (length (filter (fun sa => is_outlier (snd sa) = true) emp_assignments)) in
  total_strategies r = Z.of_nat (length emp_assignments) /\
  strategies_agreeing r =
  if (Z.of_nat (length emp_assignments) =? 0)%Z then 0%Z
  else match votes with
       | [] => outlier_votes
       | _ => match most_common_1 (Counter votes) with
              | Some (c, _) => occ c votes
              | None => occ (-1) votes
              end
       end.
Proof.
  intros votes outlier_votes. unfold consensus_for.
  destruct (Z.eqb_spec (Z.of_nat (length emp_assignments)) 0) as [E|E].
  { split; [cbn; lia|reflexivity]. }
  fold (votes_of emp_assignments). fold votes. fold outlier_votes.
  open_lets. cbn [total_strategies strategies_agreeing]. split; [reflexivity|].
  destruct votes as [|v vs] eqn:Ev; [congruence|]. rewrite <- Ev in *.
  match goal with H : (_, _) = (_, _) |- _ => injection H as <- <- end.
  rewrite Counter_get. now destruct (most_common_1 (Counter votes)) as [[c n]|].
Qed.

Lemma consensus_for_review :
  let score := consensus_score r in
  let threshold := consensus_threshold config in
  let outlier_votes :=
    Z.of_nat (length (filter (fun sa => is_outlier (snd sa) = true) emp_assignments)) in
  let total := Z.of_nat (length emp_assignments) in
  (total = 0%Z /\ needs_human_review r = true /\
   disagreement_reason r = Some NoClusteringResults) \/
  (total <> 0%Z /\ score < threshold /\ needs_human_review r = true /\
   disagreement_reason r = Some (LowConsensusScore score threshold)) \/
  (total <> 0%Z /\ threshold ≤ score /\ (0 < outlier_votes < total)%Z /\
   needs_human_review r = true /\
   disagreement_reason r = Some (OutlierDisagreement outlier_votes total)) \/
  (total <> 0%Z /\ threshold ≤ score /\ (outlier_votes = 0 \/ outlier_votes = total)%Z /\
   ((needs_human_review r = true /\ disagreement_reason r = Some NoCommonPeers) \/
    (needs_human_review r = false /\ disagreement_reason r = None))).
Proof.
  intros score threshold outlier_votes total. subst score.
  rewrite consensus_score_unfold. unfold consensus_for. fold total.
  destruct (Z.eqb_spec total 0) as [E|E]; [left; auto|right].
  fold outlier_votes. fold threshold.
  set (score := calc_consensus_score peer_sets).
  open_lets. cbn [needs_human_review disagreement_reason].
  match goal with H : (if ?c then _ else _) = (_, _) |- _ =>
    lazymatch type of c with bool => idtac end; destruct c eqn:Hlow; [injection H as <- <-|] end.
  { left. apply ltb_lt in Hlow. auto. }
  right. apply ltb_ge in Hlow.
  match goal with H : (if ?c then _ else _) = (_, _) |- _ =>
    lazymatch type of c with bool => idtac end; destruct c eqn:Hout; [injection H as <- <-|] end.
  { left. apply andb_true_iff in Hout as [H1 H2]. apply Z.ltb_lt in H1, H2.
    repeat split; auto; lia. }
  right. split; [exact E|]. split; [exact Hlow|]. split.
  { pose proof (AssuranceProps.count_le_length (fun sa : ClusteringStrategy * ClusterAssignment =>
                                     is_outlier sa.2 = true) emp_assignments) as Hc.
    fold outlier_votes in Hc. fold total in Hc.
    apply andb_false_iff in Hout as [H|H]; apply Z.ltb_ge in H.
    - left. subst outlier_votes. lia.
    - right. lia. }
  match goal with H : (if ?c then _ else _) = (_, _) |- _ =>
    lazymatch type of c with bool => idtac end; destruct c; injection H as <- <- end; auto.
Qed.

Lemma consensus_for_assignments : assignments r = emp_assignments.
Proof.
  unfold consensus_for.
  destruct (Z.eqb_spec (Z.of_nat (length emp_assignments)) 0) as [E|E].
  - cbn [assignments]. destruct emp_assignments; [reflexivity|cbn in E; lia].
  - open_lets. reflexivity.
Qed.

End Results.

(** X15. [analyze_consensus] holds one result for each listed employee
    and none for any other id; the result carries the id of its employee,
    counts the strategies that assigned the employee, and for an employee
    that no strategy assigned it is flagged for review with the reason that
    no clustering results are available, with score 0.0 and no peers. *)
Theorem X15_analyze_consensus_results (config : ClusteringConfig)
    (list_of_set : gset string -> list string)
    (all_assignments : AllAssignments) (employee_ids : list string) (e : string) :
  match analyze_consensus config list_of_set all_assignments employee_ids !! e with
  | None => e ∉ employee_ids
  | Some r =>
    e ∈ employee_ids /\ cr_employee_id r = e /\
    assignments r = collect_assignments all_assignments e /\
    total_strategies r = Z.of_nat (length (assignments r)) /\
    (assignments r = [] ->
       needs_human_review r = true /\
       disagreement_reason r = Some NoClusteringResults /\
       consensus_cluster_id r = None /\
       consensus_score r = fl 0.0 /\ peer_ids r = [] /\ peer_count r = 0%Z)
  end.
Proof.
  rewrite analyze_consensus_lookup.
  destruct (decide (e ∈ employee_ids)) as [Hin|Hin].
  2:{ now rewrite bool_decide_eq_false_2. }
  rewrite bool_decide_eq_true_2 by exact Hin. split; [exact Hin|].
  unfold consensus_for.
  destruct (collect_assignments all_assignments e) as [|a l] eqn:Ea.
  - cbn. repeat split; reflexivity.
  - rewrite <- Ea.
    destruct (Z.eqb_spec (Z.of_nat (length (collect_assignments all_assignments e))) 0)
      as [E|E]; [rewrite Ea in E; cbn in E; lia|].
    repeat match goal with
           | |- context [let '(_, _) := ?x in _] => destruct x eqn:?
           end.
    cbn [cr_employee_id assignments total_strategies].
    split; [reflexivity|]. split; [reflexivity|]. split; [reflexivity|].
    intros H. rewrite Ea in H. discriminate.
Qed.

(** X16. The consensus score of every employee lies between 0 and 1. *)
Theorem X16_consensus_score_in_unit_interval (config : ClusteringConfig)
    (list_of_set : gset string -> list string)
    (all_assignments : AllAssignments) (emp_id : string) :
  0 ≤ consensus_score (consensus_for config list_of_set all_assignments emp_id) ≤ 1.
Proof.
  pose proof (consensus_score_unfold config list_of_set all_assignments emp_id) as H.
  cbv zeta in H. rewrite H.
  destruct (_ =? _)%Z; [split; lit|apply calc_consensus_score_range].
Qed.

(** X17. An employee is flagged for human review exactly when a reason is
    recorded.  A consensus score below the threshold always flags the
    employee, and so does, at or above the threshold, being an outlier for
    some strategies but not for all; an employee that is not flagged has a
    score at or above the threshold and is an outlier for none or for all
    of its strategies. *)
Theorem X17_review_flag_and_reason (config : ClusteringConfig)
    (list_of_set : gset string -> list string)
    (all_assignments : AllAssignments) (emp_id : string) :
  let r := consensus_for config list_of_set all_assignments emp_id in
  let outlier_votes :=
    Z.of_nat (length (filter (fun sa => is_outlier (snd sa) = true) (assignments r))) in
  (needs_human_review r = true <-> disagreement_reason r <> None) /\
  (consensus_score r < consensus_threshold config -> needs_human_review r = true) /\
  ((0 < outlier_votes < total_strategies r)%Z -> needs_human_review r = true) /\
  (needs_human_review r = false ->
     consensus_threshold config ≤ consensus_score r /\
     (outlier_votes = 0 \/ outlier_votes = total_strategies r)%Z).
Proof.
  cbv zeta. rewrite consensus_for_assignments.
  rewrite (proj1 (consensus_for_votes config list_of_set all_assignments emp_id)).
  pose proof (consensus_for_review config list_of_set all_assignments emp_id) as H.
  cbv zeta in H.
  destruct H as [(Ht & Hn & Hr)|[(Ht & Hs & Hn & Hr)|[(Ht & Hs & Hv & Hn & Hr)|
                 (Ht & Hs & Hv & [[Hn Hr]|[Hn Hr]])]]];
    rewrite Hn, Hr;
    repeat split; intros; try congruence; try lia; try assumption;
    try (exfalso; eapply Qclt_not_le; eassumption).
Qed.

(** X18. The number of agreeing strategies never exceeds the number of
    strategies that assigned the employee, which never exceeds the number
    of strategies run; when at least one strategy assigned the employee, at
    least one strategy agrees. *)
Theorem X18_strategies_agreeing_bounds (config : ClusteringConfig)
    (list_of_set : gset string -> list string)
    (all_assignments : AllAssignments) (emp_id : string) :
  let r := consensus_for config list_of_set all_assignments emp_id in
  (0 <= strategies_agreeing r <= total_strategies r)%Z /\
  (total_strategies r <= Z.of_nat (length all_assignments))%Z /\
  (0 < total_strategies r -> 1 <= strategies_agreeing r)%Z.
Proof.
  intros r.
  destruct (consensus_for_votes config list_of_set all_assignments emp_id) as [Ht Ha].
  fold r in Ht, Ha. rewrite Ht, Ha. clear Ht Ha.
  pose proof (collect_assignments_length all_assignments emp_id) as Hlen.
  set (ea := collect_assignments all_assignments emp_id) in *.
  split; [|split; [lia|]].
  - destruct (Z.eqb_spec (Z.of_nat (length ea)) 0) as [E|E]; [lia|].
    assert (Hocc : forall c, (0 <= occ c (votes_of ea) <= Z.of_nat (length ea))%Z).
    { intros c. split; [apply occ_nonneg|]. unfold occ, votes_of.
      etransitivity; [apply AssuranceProps.count_le_length|].
      rewrite length_map. apply AssuranceProps.count_le_length. }
    destruct (votes_of ea); [|destruct (most_common_1 _) as [[c n]|]; apply Hocc].
    split; [lia|apply AssuranceProps.count_le_length].
  - intros Hpos.
    destruct (Z.eqb_spec (Z.of_nat (length ea)) 0) as [E|E]; [lia|].
    destruct (votes_of ea) as [|v vs] eqn:Ev.
    + assert (Hall : filter (fun sa => is_outlier sa.2 = true) ea = ea).
      { unfold votes_of in Ev. apply fmap_nil_inv in Ev.
        clear - Ev. induction ea as [|a l IH]; [reflexivity|].
        rewrite filter_cons in Ev. rewrite filter_cons.
        destruct (is_outlier a.2) eqn:Eo.
        - rewrite decide_False in Ev by discriminate.
          rewrite decide_True by reflexivity. f_equal. now apply IH.
        - rewrite decide_True in Ev by reflexivity. discriminate. }
      rewrite Hall. lia.
    + rewrite <- Ev.
      destruct (most_common_of_votes (votes_of ea)) as (c & n & l1 & l2 & Hmc & Hv & _);
        [rewrite Ev; discriminate|].
      rewrite Hmc, Hv, occ_app, occ_cons, decide_True by reflexivity.
      pose proof (occ_nonneg c l1). pose proof (occ_nonneg c l2). lia.
Qed.

(** X19. When [list(s)] lists each element of a set once, the peers of an
    employee are listed once each, the employee is not among them,
    [peer_count] is their number, and an id is a peer exactly when some
    strategy that did not vote the employee an outlier put both in the
    same cluster. *)
Theorem X19_peers_share_a_cluster (config : ClusteringConfig)
    (list_of_set : gset string -> list string)
    (all_assignments : AllAssignments) (emp_id : string) :
  (forall s, Permutation (list_of_set s) (elements s)) ->
  let r := consensus_for config list_of_set all_assignments emp_id in
  NoDup (peer_ids r) /\ (emp_id ∉ peer_ids r) /\
  peer_count r = Z.of_nat (length (peer_ids r)) /\
  forall p, p ∈ peer_ids r <->
    exists strategy a ap,
      (strategy, a) ∈ assignments r /\ is_outlier a = false /\
      default ∅ (ODict.get strategy all_assignments) !! p = Some ap /\
      p <> emp_id /\ cluster_id ap = cluster_id a.
Proof.
  intros Hlist r.
  destruct (consensus_for_peers config list_of_set all_assignments emp_id)
    as (S & Hids & Hcount & HS).
  fold r in Hids, Hcount.
  assert (Hmem : forall p, p ∈ peer_ids r <-> p ∈ S).
  { intros p. rewrite Hids.
    destruct (Z.eqb_spec (Z.of_nat (length (collect_assignments all_assignments emp_id))) 0)
      as [E|E].
    - split; [intros H; inversion H|]. intros H. apply HS in H as [H _]. lia.
    - now rewrite Hlist, elem_of_elements. }
  assert (Hchar : forall p, p ∈ S <->
            exists strategy a ap,
              (strategy, a) ∈ assignments r /\ is_outlier a = false /\
              default ∅ (ODict.get strategy all_assignments) !! p = Some ap /\
              p <> emp_id /\ cluster_id ap = cluster_id a).
  { intros p. rewrite HS. subst r. unfold consensus_for.
    destruct (Z.eqb_spec (Z.of_nat (length (collect_assignments all_assignments emp_id))) 0)
      as [E|E].
    { split; [intros [H _]; lia|]. intros (? & ? & ? & H & _). inversion H. }
    repeat match goal with
           | |- context [let '(_, _) := ?x in _] => destruct x eqn:?
           end.
    cbn [assignments]. unfold peer_sets_of. split.
    - intros (_ & s & Hs & Hp).
      apply list_elem_of_fmap in Hs as ([strategy a] & -> & Hin).
      destruct (is_outlier a) eqn:Eo; [set_solver|].
      unfold cluster_members in Hp. apply elem_of_dom in Hp as [ap Hp].
      apply map_lookup_filter_Some in Hp as [Hp [Hne Hc]].
      exists strategy, a, ap. auto.
    - intros (strategy & a & ap & Hin & Eo & Hp & Hne & Hc). split; [lia|].
      exists (cluster_members (default ∅ (ODict.get strategy all_assignments)) emp_id a).
      split.
      + apply list_elem_of_fmap. exists (strategy, a). rewrite Eo. auto.
      + unfold cluster_members. apply elem_of_dom. exists ap.
        apply map_lookup_filter_Some. auto. }
  split; [|split; [|split]].
  - rewrite Hids. destruct (_ =? _)%Z; [constructor|].
    rewrite Hlist. apply NoDup_elements.
  - rewrite Hmem, Hchar. intros (? & ? & ? & _ & _ & _ & H & _). congruence.
  - rewrite Hcount, Hids. unfold set_len.
    destruct (Z.eqb_spec (Z.of_nat (length (collect_assignments all_assignments emp_id))) 0)
      as [E|E].
    + assert (HS0 : S = ∅).
      { apply leibniz_equiv. intros p. split; [|set_solver].
        intros H. apply HS in H as [H _]. lia. }
      rewrite HS0. reflexivity.
    + now rewrite Hlist.
  - intros p. now rewrite Hmem, Hchar.
Qed.

Lemma X19_witness :
  let r := consensus_for default_ClusteringConfig elements
             Examples.one_cluster_maps "e1" in
  (forall s : gset string, Permutation (elements s) (elements s)) /\
  NoDup (peer_ids r) /\ ("e1" ∉ peer_ids r) /\
  peer_count r = Z.of_nat (length (peer_ids r)) /\
  forall p, p ∈ peer_ids r <->
    exists strategy a ap,
      (strategy, a) ∈ assignments r /\ is_outlier a = false /\
      default ∅ (ODict.get strategy Examples.one_cluster_maps) !! p = Some ap /\
      p <> "e1" /\ cluster_id ap = cluster_id a.
Proof.
  cbv zeta.
  assert (H : forall s : gset string, Permutation (elements s) (elements s))
    by reflexivity.
  split; [exact H|].
  exact (X19_peers_share_a_cluster default_ClusteringConfig elements
           Examples.one_cluster_maps "e1" H).
Defined.

End ConsensusInvariants.

(** ** Further properties of the assurance scorer *)

Module ScorerProps.
Import Num NumFacts ClusteringData Assurance AssuranceProps ProximityProps.
Local Open Scope Qc_scope.

Ltac split_tests :=
  repeat match goal with
         | |- context [(?a <=? ?b)%Z] => destruct (Z.leb_spec a b)
         | |- context [(?a =? ?b)%Z] => destruct (Z.eqb_spec a b)
         end.

(** The typicality of a non-empty peer list is the ratio of the two
    counts. *)
Lemma calculate_typicality_ratio (eid rid : string) (peers : list string)
    (acc : gmap string (gset string)) :
  let '(t, pw, tp) := calculate_typicality eid rid peers acc in
  (peers = [] /\ t = fl 0.5 /\ pw = 0%Z /\ tp = 0%Z) \/
  (peers <> [] /\ t = of_int pw / of_int tp /\ (0 <= pw <= tp)%Z /\ (0 < tp)%Z /\
   tp = Z.of_nat (length peers)).
Proof.
  unfold calculate_typicality. destruct peers as [|p ps] eqn:E; [left; auto|].
  rewrite <- E. right.
  assert (Hn : (0 < Z.of_nat (length peers))%Z) by (subst; cbn; lia).
  apply Z.ltb_lt in Hn as Hb. rewrite Hb.
  pose proof (count_le_length
    (fun peer_id => rid ∈ default (∅ : gset string) (acc !! peer_id)) peers) as Hc.
  split; [subst; discriminate|]. split; [reflexivity|]. split; [lia|]. split; [lia|].
  reflexivity.
Qed.

Lemma build_access_snoc (grants : list Data.AccessGrant) (g : Data.AccessGrant) :
  build_access_by_employee (grants ++ [g]) =
  let acc := build_access_by_employee grants in
  <[Data.g_employee_id g :=
      default ∅ (acc !! Data.g_employee_id g) ∪ {[Data.g_resource_id g]}]> acc.
Proof. unfold build_access_by_employee. now rewrite foldl_app. Qed.

Lemma foldl_insert_NoDup {A B} (key : A -> string) (f : A -> B)
    (l : list A) (a : A) :
  NoDup (map key l) -> a ∈ l ->
  foldl (fun m x => <[key x := f x]> m) (∅ : gmap string B) l !! key a = Some (f a).
Proof.
  induction l as [|x l IH] using rev_ind; intros Hnd Hin; [inversion Hin|].
  rewrite map_app in Hnd. apply NoDup_app in Hnd as (Hnd & Hx & _).
  rewrite foldl_app. cbn [foldl].
  apply elem_of_app in Hin as [Hin|Hin].
  - rewrite lookup_insert_ne; [now apply IH|].
    intros E. apply (Hx (key a)).
    + apply list_elem_of_fmap. now exists a.
    + rewrite <- E. cbn. constructor.
  - apply list_elem_of_singleton in Hin as ->. apply lookup_insert_eq.
Qed.

(** X20. A grant that was used more recently, and at least as often in
    the last 30 days, never gets a lower usage factor, whatever the day
    thresholds of the configuration. *)
Theorem X20_usage_factor_monotone (config : AssuranceConfig)
    (u1 u2 : UsagePattern) (d1 d2 : Z) :
  total_access_count u1 <> 0%Z ->
  last_accessed_days_ago u1 = Some d1 ->
  last_accessed_days_ago u2 = Some d2 ->
  (d1 <= d2)%Z ->
  (access_count_30d u2 <= access_count_30d u1)%Z ->
  (calculate_usage_factor config u2).1 ≤ (calculate_usage_factor config u1).1.
Proof.
  intros Ht H1 H2 Hd Hc. unfold calculate_usage_factor. rewrite H1, H2.
  split_tests; cbn [fst]; try lia; lit.
Qed.

(** X21. Under the default configuration a grant is eligible for
    automatic certification only when it is classified high assurance, its
    sensitivity ceiling is at least 0.85 (so never for a Confidential or
    Critical resource), its usage is active or occasional, and the
    employee has peers of whom at least two thirds hold the resource. *)
Theorem X21_auto_certify_requirements
    (gid eid rid : string) (sens rname : option string)
    (peers : list string) (acc : gmap string (gset string)) (usage : UsagePattern) :
  let s := calculate_score default_AssuranceConfig gid eid rid sens rname peers acc usage in
  auto_certify_eligible s = true ->
  classification s = "high_assurance" /\
  fl 0.85 ≤ sensitivity_ceiling s /\
  (usage_pattern s = "active" \/ usage_pattern s = "occasional") /\
  peers <> [] /\
  (2 * total_peers s <= 3 * peers_with_access s)%Z.
Proof.
  intros s. subst s. unfold calculate_score.
  pose proof (calculate_typicality_ratio eid rid peers acc) as Ht.
  destruct (calculate_typicality eid rid peers acc) as [[t pw] tp].
  assert (Hu : exists u lbl, calculate_usage_factor default_AssuranceConfig usage = (u, lbl) /\
            ((lbl = "active" /\ fl 0.8 ≤ u ≤ 1) \/ (lbl = "occasional" /\ u = fl 0.6) \/
             u ≤ fl 0.3)).
  { unfold calculate_usage_factor.
    repeat match goal with
           | |- context [if ?b then _ else _] => destruct b
           | |- context [match ?o with Some _ => _ | None => _ end] => destruct o
           end; eexists _, _; (split; [reflexivity|]);
      first [left; split; [reflexivity|split; lit]
            |right; left; split; reflexivity
            |right; right; lit]. }
  destruct Hu as (u & lbl & -> & Hu).
  cbn [sensitivity weight_typicality weight_usage high_assurance_threshold
       medium_assurance_threshold default_AssuranceConfig].
  pose proof (get_ceiling_default_cases sens) as Hc. cbv zeta in Hc.
  set (c := get_ceiling default_SensitivityConfig sens) in *.
  set (final := (fl 0.6 * t + fl 0.4 * u) * c * fl 100).
  destruct (leb (fl 80.0) final) eqn:Hhigh.
  2:{ destruct (leb (fl 50.0) final); cbn [auto_certify_eligible];
      destruct (eqb c (fl 0)); discriminate. }
  cbn [auto_certify_eligible classification sensitivity_ceiling usage_pattern
       total_peers peers_with_access].
  intros _. apply leb_le in Hhigh. subst final.
  assert (Ht01 : 0 ≤ t ≤ 1).
  { pose proof (calculate_typicality_range eid rid peers acc) as H.
    destruct Ht as [(_ & -> & _)|(_ & -> & Hpw & Htp & _)]; [split; lit|].
    apply ConsensusInvariants.div_unit;
      [apply of_int_nonneg; lia|apply of_int_le; lia|now apply of_int_pos]. }
  assert (Hu1 : u ≤ 1).
  { destruct Hu as [[_ [_ H]]|[[_ ->]|H]]; [exact H|lit|].
    apply Qcle_trans with (fl 0.3); [exact H|lit]. }
  assert (Hfacts : fl 0.85 ≤ c /\ fl (2 # 3) ≤ t /\ fl 0.5 ≤ u).
  { clear Ht Hu.
    destruct Hc as [Hc|[Hc|[Hc|Hc]]]; rewrite Hc in *; clear Hc c;
      destruct t as [t ?], u as [u ?]; to_Q; cbn [this] in *;
      repeat split; lra. }
  destruct Hfacts as (Hc85 & Ht23 & Hu5).
  split; [reflexivity|]. split; [exact Hc85|]. split.
  { destruct Hu as [[-> _]|[[-> _]|H]]; [now left|now right|].
    exfalso. apply (Qclt_not_le (fl 0.3) (fl 0.5)); [lit|].
    now apply Qcle_trans with u. }
  destruct Ht as [(_ & -> & _)|(Hne & -> & Hpw & Htp & _)].
  { exfalso. apply (Qclt_not_le (fl 0.5) (fl (2 # 3))); [lit|exact Ht23]. }
  split; [exact Hne|].
  clear - Ht23 Htp. to_Q.
  assert (Hy : (0 < inject_Z tp)%Q) by (rewrite Zlt_Qlt in Htp; exact Htp).
  assert (Hq : (inject_Z 2 * inject_Z tp <= inject_Z 3 * inject_Z pw)%Q).
  { assert (Hz : (/ inject_Z tp * inject_Z tp == 1)%Q).
    { rewrite Qmult_comm. apply Qmult_inv_r. lra. }
    set (x := inject_Z pw) in *. set (y := inject_Z tp) in *. set (z := (/ y)%Q) in *.
    unfold Qdiv in Ht23.
    assert (H1 : ((2 # 3) * y <= x * z * y)%Q).
    { apply Qmult_le_compat_r; [exact Ht23|lra]. }
    assert (H2 : (x * z * y == x)%Q) by (rewrite <- Qmult_assoc, Hz; ring).
    rewrite H2 in H1. unfold inject_Z in *. lra. }
  rewrite <- !inject_Z_mult, <- Zle_Qle in Hq. exact Hq.
Qed.

(** X22. Under thresholds 80 and 50, which are those of the default
    configuration, the explanations of a score name three or four facts
    and end with the level that the classification names. *)
Theorem X22_explanations_end_with_the_level (config : AssuranceConfig)
    (gid eid rid : string) (sens rname : option string)
    (peers : list string) (acc : gmap string (gset string)) (usage : UsagePattern) :
  high_assurance_threshold config = fl 80 ->
  medium_assurance_threshold config = fl 50 ->
  let s := calculate_score config gid eid rid sens rname peers acc usage in
  (3 <= length (explanations s) <= 4)%nat /\
  ((classification s = "high_assurance" /\ last (explanations s) = Some HighAssurance) \/
   (classification s = "medium_assurance" /\
    last (explanations s) = Some MediumAssurance) \/
   (classification s = "low_assurance" /\ last (explanations s) = Some LowAssurance)).
Proof.
  intros Hh Hm s. subst s. unfold calculate_score.
  destruct (calculate_typicality eid rid peers acc) as [[t pw] tp].
  assert (Hu : exists u lbl, calculate_usage_factor config usage = (u, lbl) /\
            (lbl = "active" \/ lbl = "occasional" \/ lbl = "stale" \/ lbl = "dormant")).
  { unfold calculate_usage_factor.
    repeat match goal with
           | |- context [if ?b then _ else _] => destruct b
           | |- context [match ?o with Some _ => _ | None => _ end] => destruct o
           end; eexists _, _; (split; [reflexivity|]); auto. }
  destruct Hu as (u & lbl & -> & Hlbl). rewrite Hh, Hm.
  set (c := get_ceiling (sensitivity config) sens).
  set (final := (weight_typicality config * t + weight_usage config * u) * c * fl 100).
  set (pp := if (0 <? tp)%Z then _ else _).
  unfold _generate_explanations.
  set (peer := if (0 <? tp)%Z then _ else _).
  set (use := if String.eqb lbl "active" then _ else _).
  set (sen := if eqb c (fl 0) then _ else _).
  assert (Hpeer : length peer = 1%nat).
  { subst peer. repeat match goal with |- context [if ?b then _ else _] => destruct b end;
      reflexivity. }
  assert (Huse : length use = 1%nat).
  { subst use. destruct Hlbl as [-> | [-> | [-> | ->]]]; cbn; try reflexivity.
    destruct (last_accessed_days_ago usage) as [d|]; [|reflexivity].
    now destruct (d =? 0)%Z. }
  assert (Hsen : (length sen <= 1)%nat).
  { subst sen. repeat match goal with |- context [if ?b then _ else _] => destruct b end;
      cbn; lia. }
  assert (Hlast : forall level, last (peer ++ use ++ sen ++ [level]) = Some level).
  { intros level. now rewrite !app_assoc, last_snoc. }
  assert (Hlen : forall level,
            (3 <= length (peer ++ use ++ sen ++ [level]) <= 4)%nat).
  { intros level. rewrite !length_app, Hpeer, Huse. cbn [length]. lia. }
  replace (fl 80.0) with (fl 80) by now apply Qc_is_canon.
  replace (fl 50.0) with (fl 50) by now apply Qc_is_canon.
  destruct (leb (fl 80) final); [|destruct (leb (fl 50) final)];
    cbn [explanations classification]; (split; [apply Hlen|]); rewrite Hlast; auto.
Qed.

Lemma access_table_content (access_grants : list Data.AccessGrant)
    (emp_id : string) :
  let table := build_access_by_employee access_grants in
  (forall res_id, res_id ∈ default ∅ (table !! emp_id) <->
     exists g, g ∈ access_grants /\ Data.g_employee_id g = emp_id /\
               Data.g_resource_id g = res_id) /\
  (table !! emp_id = None <->
     forall g, g ∈ access_grants -> Data.g_employee_id g <> emp_id).
Proof.
  cbv zeta. induction access_grants as [|g grants [IH1 IH2]] using rev_ind.
  - split.
    + intros r. split; [set_solver|]. intros (g & Hg & _). inversion Hg.
    + split; [intros _ g Hg; inversion Hg|reflexivity].
  - rewrite build_access_snoc. cbv zeta.
    destruct (decide (Data.g_employee_id g = emp_id)) as [E|E].
    + rewrite E, lookup_insert_eq. split.
      * intros r.
        match goal with |- context [default ∅ (Some ?x)] =>
          change (default ∅ (Some x)) with x end.
        rewrite elem_of_union, IH1, elem_of_singleton. split.
        -- intros [(g' & Hg' & He & Hr) | ->].
           ++ exists g'. split; [apply elem_of_app; now left|auto].
           ++ exists g. split; [apply elem_of_app; right; constructor|auto].
        -- intros (g' & Hg' & He & Hr). apply elem_of_app in Hg' as [Hg'|Hg'].
           ++ left. eauto.
           ++ apply list_elem_of_singleton in Hg' as ->. now right.
      * split; [discriminate|]. intros H. exfalso. apply (H g); [|exact E].
        apply elem_of_app. right. constructor.
    + rewrite lookup_insert_ne by exact E. split.
      * intros r. rewrite IH1. split.
        -- intros (g' & Hg' & He & Hr). exists g'.
           split; [apply elem_of_app; now left|auto].
        -- intros (g' & Hg' & He & Hr). apply elem_of_app in Hg' as [Hg'|Hg'];
             [eauto|]. apply list_elem_of_singleton in Hg' as ->. contradiction.
      * rewrite IH2. split.
        -- intros H g' Hg'. apply elem_of_app in Hg' as [Hg'|Hg']; [now apply H|].
           apply list_elem_of_singleton in Hg' as ->. exact E.
        -- intros H g' Hg'. apply H. apply elem_of_app. now left.
Qed.

(** X23. With grant ids that are all different, [score_all_grants] holds
    under the id of every grant the score of that grant, computed with the
    peers of the consensus result of its employee; a grant whose employee
    has no consensus result is scored without peers, at typicality 0.5, and
    a grant without an activity summary is scored as dormant. *)
Theorem X23_score_all_grants_lookup (config : AssuranceConfig)
    (access_grants : list Data.AccessGrant) (resources : gmap string Data.Resource)
    (consensus_results : gmap string ConsensusResult)
    (activity_summaries : gmap string Data.ActivitySummary) (g : Data.AccessGrant) :
  NoDup (map Data.g_id access_grants) -> g ∈ access_grants ->
  exists s,
    score_all_grants config access_grants resources consensus_results
      activity_summaries !! Data.g_id g = Some s /\
    grant_id s = Data.g_id g /\ employee_id s = Data.g_employee_id g /\
    resource_id s = Data.g_resource_id g /\
    total_peers s =
      Z.of_nat (length (match consensus_results !! Data.g_employee_id g with
                        | Some c => peer_ids c
                        | None => []
                        end)) /\
    (consensus_results !! Data.g_employee_id g = None ->
       peer_typicality s = fl 0.5 /\ peers_with_access s = 0%Z) /\
    (activity_summaries !! (Data.g_employee_id g +:+ ":" +:+ Data.g_resource_id g) = None ->
       usage_pattern s = "dormant" /\ usage_factor s = fl 0.1 /\
       days_since_last_use s = None).
Proof.
  intros Hnd Hin. eexists. split.
  { unfold score_all_grants.
    apply (foldl_insert_NoDup Data.g_id
             (score_grant config resources consensus_results activity_summaries
                (build_access_by_employee access_grants))); assumption. }
  unfold score_grant, calculate_score.
  set (peers := match consensus_results !! Data.g_employee_id g with
                | Some c => peer_ids c
                | None => []
                end).
  pose proof (calculate_typicality_ratio (Data.g_employee_id g) (Data.g_resource_id g)
                peers (build_access_by_employee access_grants)) as Ht.
  destruct (calculate_typicality _ _ peers _) as [[t pw] tp].
  destruct (calculate_usage_factor config _) as [u lbl] eqn:Hu.
  set (final := (_ * _ * fl 100)%Qc).
  destruct (leb (high_assurance_threshold config) final);
    [|destruct (leb (medium_assurance_threshold config) final)];
    cbn [grant_id employee_id resource_id total_peers peer_typicality
         peers_with_access usage_pattern usage_factor days_since_last_use];
    (split; [reflexivity|]); (split; [reflexivity|]); (split; [reflexivity|]);
    (split; [destruct Ht as [(-> & _ & _ & ->)|(_ & _ & _ & _ & ->)]; reflexivity|]);
    (split;
     [intros Hnone; subst peers; rewrite Hnone in Ht;
      destruct Ht as [(_ & -> & -> & _)|(Hne & _)]; [|congruence];
      split; [apply Qc_is_canon; vm_compute; reflexivity|reflexivity]
     |intros Hnone; rewrite Hnone in Hu; cbn in Hu; injection Hu as <- <-;
      split; [reflexivity|];
      split; [apply Qc_is_canon; vm_compute; reflexivity|now rewrite Hnone]]).
Qed.

Lemma X20_witness :
  total_access_count Examples.recent_use <> 0%Z /\
  last_accessed_days_ago Examples.recent_use = Some 5%Z /\
  last_accessed_days_ago Examples.old_use = Some 40%Z /\
  (5 <= 40)%Z /\
  (access_count_30d Examples.old_use <= access_count_30d Examples.recent_use)%Z /\
  (calculate_usage_factor default_AssuranceConfig Examples.old_use).1 ≤
  (calculate_usage_factor default_AssuranceConfig Examples.recent_use).1.
Proof.
  assert (H0 : total_access_count Examples.recent_use <> 0%Z) by discriminate.
  assert (H1 : (5 <= 40)%Z) by lia.
  assert (H2 : (access_count_30d Examples.old_use
                <= access_count_30d Examples.recent_use)%Z) by (cbn; lia).
  split; [exact H0|]. split; [reflexivity|]. split; [reflexivity|].
  split; [exact H1|]. split; [exact H2|].
  exact (X20_usage_factor_monotone default_AssuranceConfig Examples.recent_use
           Examples.old_use 5 40 H0 eq_refl eq_refl H1 H2).
Defined.

Lemma X21_witness :
  let s := calculate_score default_AssuranceConfig "g1" "E1" "R" (Some "Public")
             (Some "Handbook") ["P1"; "P2"] Examples.both_peers_hold
             Examples.recent_use in
  auto_certify_eligible s = true /\
  classification s = "high_assurance" /\
  fl 0.85 ≤ sensitivity_ceiling s /\
  (usage_pattern s = "active" \/ usage_pattern s = "occasional") /\
  ["P1"; "P2"] <> [] /\
  (2 * total_peers s <= 3 * peers_with_access s)%Z.
Proof.
  cbv zeta.
  assert (H : auto_certify_eligible
                (calculate_score default_AssuranceConfig "g1" "E1" "R" (Some "Public")
                   (Some "Handbook") ["P1"; "P2"] Examples.both_peers_hold
                   Examples.recent_use) = true) by (vm_compute; reflexivity).
  split; [exact H|].
  exact (X21_auto_certify_requirements "g1" "E1" "R" (Some "Public") (Some "Handbook")
           ["P1"; "P2"] Examples.both_peers_hold Examples.recent_use H).
Defined.

Lemma X22_witness :
  let s := calculate_score default_AssuranceConfig "g1" "E1" "R" (Some "Public")
             (Some "Handbook") ["P1"; "P2"] Examples.both_peers_hold
             Examples.old_use in
  high_assurance_threshold default_AssuranceConfig = fl 80 /\
  medium_assurance_threshold default_AssuranceConfig = fl 50 /\
  (3 <= length (explanations s) <= 4)%nat /\
  ((classification s = "high_assurance" /\ last (explanations s) = Some HighAssurance) \/
   (classification s = "medium_assurance" /\
    last (explanations s) = Some MediumAssurance) \/
   (classification s = "low_assurance" /\ last (explanations s) = Some LowAssurance)).
Proof.
  cbv zeta.
  assert (Hh : high_assurance_threshold default_AssuranceConfig = fl 80)
    by now apply Qc_is_canon.
  assert (Hm : medium_assurance_threshold default_AssuranceConfig = fl 50)
    by now apply Qc_is_canon.
  split; [exact Hh|]. split; [exact Hm|].
  exact (X22_explanations_end_with_the_level default_AssuranceConfig "g1" "E1" "R"
           (Some "Public") (Some "Handbook") ["P1"; "P2"] Examples.both_peers_hold
           Examples.old_use Hh Hm).
Defined.

Lemma X23_witness :
  NoDup (map Data.g_id EngineSpec.five_grants) /\
  Examples.first_grant ∈ EngineSpec.five_grants /\
  exists s,
    score_all_grants default_AssuranceConfig EngineSpec.five_grants
      EngineSpec.one_resource ∅ ∅ !! "g-e1" = Some s /\
    grant_id s = "g-e1" /\ employee_id s = "e1" /\ resource_id s = "r1" /\
    total_peers s = 0%Z /\
    ((∅ : gmap string ConsensusResult) !! "e1" = None ->
       peer_typicality s = fl 0.5 /\ peers_with_access s = 0%Z) /\
    ((∅ : gmap string Data.ActivitySummary) !! "e1:r1" = None ->
       usage_pattern s = "dormant" /\ usage_factor s = fl 0.1 /\
       days_since_last_use s = None).
Proof.
  assert (Hnd : NoDup (map Data.g_id EngineSpec.five_grants))
    by (apply (bool_decide_unpack _); vm_compute; exact I).
  assert (Hin : Examples.first_grant ∈ EngineSpec.five_grants) by left.
  split; [exact Hnd|]. split; [exact Hin|].
  exact (X23_score_all_grants_lookup default_AssuranceConfig EngineSpec.five_grants
           EngineSpec.one_resource ∅ ∅ Examples.first_grant Hnd Hin).
Defined.

End ScorerProps.

(** ** Invariants of the result of the pipeline *)

Module EngineInvariants.
Import Num NumFacts External PeerProximity ClusteringData Assurance Engine.
Import ProximitySpec ProximityProps AssuranceProps MatrixProps.
Import ConsensusInvariants ScorerProps.
Local Open Scope Qc_scope.

Lemma filter_count_le {A} (p q : A -> bool) (l : list A) :
  (forall x, x ∈ l -> p x = true -> q x = true) ->
  (length (filter (fun x => p x = true) l) <=
   length (filter (fun x => q x = true) l))%nat.
Proof.
  induction l as [|x l IH]; intros H; [reflexivity|].
  rewrite !filter_cons.
  assert (IH' := IH (fun y Hy => H y (list_elem_of_further _ _ _ Hy))).
  destruct (decide (p x = true)) as [Hp|Hp].
  - rewrite decide_True by (apply H; [constructor|exact Hp]). cbn. lia.
  - destruct (decide (q x = true)); cbn; lia.
Qed.

Lemma filter_count_3 {A} (p1 p2 p3 : A -> bool) (l : list A) :
  (forall x, x ∈ l ->
     (p1 x = true /\ p2 x = false /\ p3 x = false) \/
     (p1 x = false /\ p2 x = true /\ p3 x = false) \/
     (p1 x = false /\ p2 x = false /\ p3 x = true)) ->
  (length (filter (fun x => p1 x = true) l) + length (filter (fun x => p2 x = true) l) +
   length (filter (fun x => p3 x = true) l) = length l)%nat.
Proof.
  induction l as [|x l IH]; intros H; [reflexivity|].
  rewrite !filter_cons.
  assert (IH' := IH (fun y Hy => H y (list_elem_of_further _ _ _ Hy))).
  destruct (H x) as [(E1 & E2 & E3)|[(E1 & E2 & E3)|(E1 & E2 & E3)]]; [constructor|..];
    destruct (decide (p1 x = true)), (decide (p2 x = true)), (decide (p3 x = true));
    try congruence; cbn [length]; lia.
Qed.

Lemma count_values_le {V} (p q : V -> bool) (d : gmap string V) :
  (forall k v, d !! k = Some v -> p v = true -> q v = true) ->
  (count_values p d <= count_values q d)%Z.
Proof.
  intros H. unfold count_values. apply inj_le.
  apply (filter_count_le (fun kv => p kv.2) (fun kv => q kv.2)).
  intros [k v] Hkv. apply elem_of_map_to_list in Hkv. now apply (H k).
Qed.

Lemma count_values_size {V} (p : V -> bool) (d : gmap string V) :
  (0 <= count_values p d <= Z.of_nat (size d))%Z.
Proof.
  unfold count_values. rewrite <- length_map_to_list. split; [lia|].
  apply inj_le, length_filter.
Qed.

Lemma count_values_3 {V} (p1 p2 p3 : V -> bool) (d : gmap string V) :
  (forall k v, d !! k = Some v ->
     (p1 v = true /\ p2 v = false /\ p3 v = false) \/
     (p1 v = false /\ p2 v = true /\ p3 v = false) \/
     (p1 v = false /\ p2 v = false /\ p3 v = true)) ->
  (count_values p1 d + count_values p2 d + count_values p3 d = Z.of_nat (size d))%Z.
Proof.
  intros H. unfold count_values. rewrite <- length_map_to_list.
  rewrite <- (filter_count_3 (fun kv => p1 kv.2) (fun kv => p2 kv.2)
                (fun kv => p3 kv.2) (map_to_list d)); [lia|].
  intros [k v] Hkv. apply elem_of_map_to_list in Hkv. now apply (H k).
Qed.

Lemma foldl_insert_size {A B} (key : A -> string) (f : A -> B) (l : list A) :
  (size (foldl (fun m a => <[key a := f a]> m) (∅ : gmap string B) l) <= length l)%nat.
Proof.
  induction l as [|x l IH] using rev_ind; [reflexivity|].
  rewrite foldl_app, length_app. cbn [foldl length].
  rewrite map_size_insert. destruct (_ !! key x); cbn; lia.
Qed.

Lemma matrix_total (ext : Externals) (weights : ProximityWeights)
    (features : gmap string EmployeeFeatures)
    (manager_chains : option (gmap string (list string)))
    (employee_ids : list string) (block_by_lob : bool) :
  is_Some (calculate_pairwise_proximity_matrix ext weights features manager_chains
             employee_ids block_by_lob).
Proof.
  unfold calculate_pairwise_proximity_matrix. destruct block_by_lob; [|eauto].
  destruct (blocked_loop_total ext weights features manager_chains employee_ids
              (zeros (length employee_ids)) (zeros_square _)) as (M & -> & _).
  eauto.
Qed.

Lemma calculate_score_facts (config : AssuranceConfig) (gid eid rid : string)
    (sens rname : option string) (peers : list string)
    (acc : gmap string (gset string)) (usage : UsagePattern) :
  let s := calculate_score config gid eid rid sens rname peers acc usage in
  grant_id s = gid /\ employee_id s = eid /\
  (classification s = "high_assurance" \/
   (classification s = "medium_assurance" /\ auto_certify_eligible s = false) \/
   (classification s = "low_assurance" /\ auto_certify_eligible s = false)).
Proof.
  cbv zeta. unfold calculate_score.
  destruct (calculate_typicality eid rid peers acc) as [[t pw] tp].
  destruct (calculate_usage_factor config usage) as [u lbl].
  destruct (leb (high_assurance_threshold config) _);
    [|destruct (leb (medium_assurance_threshold config) _)];
    cbn [grant_id employee_id classification auto_certify_eligible];
    repeat split; auto;
    right; [left|right]; (split; [reflexivity|]);
    now destruct (eqb _ (fl 0)).
Qed.

Lemma score_grant_facts (config : AssuranceConfig) (resources : gmap string Data.Resource)
    (consensus_results : gmap string ConsensusResult)
    (activity_summaries : gmap string Data.ActivitySummary)
    (access_by_employee : gmap string (gset string)) (g : Data.AccessGrant) :
  let s := score_grant config resources consensus_results activity_summaries
             access_by_employee g in
  grant_id s = Data.g_id g /\ employee_id s = Data.g_employee_id g /\
  (classification s = "high_assurance" \/
   (classification s = "medium_assurance" /\ auto_certify_eligible s = false) \/
   (classification s = "low_assurance" /\ auto_certify_eligible s = false)).
Proof. apply calculate_score_facts. Qed.

Lemma extract_features_snoc (ext : Externals) (rt : Runtime)
    (employees : list Data.Employee) (emp : Data.Employee)
    (access_grants : list Data.AccessGrant)
    (activity_summaries : list Data.ActivitySummary)
    (teams : list Data.Team) (sub_lobs : list Data.SubLob) :
  exists f k,
    extract_features ext rt (employees ++ [emp]) access_grants activity_summaries
      teams sub_lobs =
    (<[Data.e_id emp := f]>
       (extract_features ext rt employees access_grants activity_summaries
          teams sub_lobs).1, k) /\
    PeerProximity.employee_id f = Data.e_id emp /\
    manager_id f = Data.e_manager_id emp /\ team_id f = Data.e_team_id emp /\
    job_level f = Data.e_job_level emp /\
    access_set f = default ∅ (access_sets access_grants !! Data.e_id emp) /\
    activity_vector f = default ∅ (activity_vectors activity_summaries !! Data.e_id emp).
Proof.
  unfold extract_features. rewrite foldl_app. cbn [foldl].
  destruct (foldl _ (∅, 0%nat) employees) as [features k].
  unfold features_of.
  destruct (days_since ext rt (Data.e_hire_date emp) k) as [hired k1].
  destruct (days_since ext rt (Data.e_role_start_date emp) k1) as [in_role k2].
  eexists _, _. split; [reflexivity|]. cbn. repeat split; reflexivity.
Qed.

Lemma activity_vectors_range (activity_summaries : list Data.ActivitySummary)
    (e r : string) (x : Qc) :
  Forall (fun a => (0 <= Data.a_access_count_30d a)%Z) activity_summaries ->
  default ∅ (activity_vectors activity_summaries !! e) !! r = Some x ->
  0 ≤ x ≤ 1.
Proof.
  unfold activity_vectors.
  induction activity_summaries as [|a l IH] using rev_ind; intros Hall.
  - cbn. rewrite lookup_empty. cbn. rewrite lookup_empty. discriminate.
  - apply Forall_app in Hall as [Hl Ha]. rewrite Forall_singleton in Ha.
    rewrite foldl_app. cbn [foldl].
    destruct (decide (Data.a_employee_id a = e)) as [<-|Hne].
    + rewrite lookup_insert_eq. cbn [default from_option id].
      destruct (decide (Data.a_resource_id a = r)) as [<-|Hr].
      * rewrite lookup_insert_eq. intros [= <-]. apply clip_range.
        apply div_nonneg; [now apply of_int_nonneg|lit].
      * rewrite lookup_insert_ne by exact Hr. now apply IH.
    + rewrite lookup_insert_ne by exact Hne. now apply IH.
Qed.

Section Run.
Variable ext : Externals.
Variable rt : Runtime.
Variable self : AnalyticsEngine.
Variable lob_filter : option string.
Variable strategies : option (list ClusteringStrategy).
Variable block_by_lob : bool.


(** X25. In every result the numbers of high, medium and low assurance
    scores add up to the number of scores, which does not exceed the number
    of grants of the selected employees; the scores eligible for automatic
    certification are among the high assurance ones; no more employees are
    flagged for review than are selected; and with a consensus threshold of
    at least 0.7 every clustering disagreement is flagged for review. *)
Theorem X25_run_analysis_counts :
  exists r,
    run_analysis ext rt self lob_filter strategies block_by_lob = Some r /\
    (high_assurance_count r + medium_assurance_count r + low_assurance_count r =
     Z.of_nat (size (assurance_scores r)))%Z /\
    (Z.of_nat (size (assurance_scores r)) <= total_grants r)%Z /\
    (0 <= auto_certify_eligible_count r <= high_assurance_count r)%Z /\
    (0 <= needs_human_review_count r <= total_employees r)%Z /\
    (fl 0.7 ≤ consensus_threshold (clusterer_config self) ->
       (clustering_disagreement_count r <= needs_human_review_count r)%Z).
Proof.
  unfold run_analysis.
  destruct (filter_employees self lob_filter) as [|e0 es] eqn:Ee.
  { exists empty_result. split; [reflexivity|].
    cbn [total_employees total_grants high_assurance_count medium_assurance_count
         low_assurance_count auto_certify_eligible_count needs_human_review_count
         clustering_disagreement_count assurance_scores empty_result].
    rewrite map_size_empty. repeat split; try lia. }
  rewrite <- Ee. clear Ee e0 es.
  set (employees := filter_employees self lob_filter).
  set (ids := map Data.e_id employees).
  set (grants := filter _ (_access_grants self)).
  set (activity := filter _ (_activity_summaries self)).
  set (features := (extract_features ext rt employees grants _ _ _).1).
  destruct (matrix_total ext (proximity_weights self) features None ids block_by_lob)
    as [M ->].
  cbn [mbind option_bind]. eexists. split; [reflexivity|].
  cbn [total_employees total_grants high_assurance_count medium_assurance_count
       low_assurance_count auto_certify_eligible_count needs_human_review_count
       clustering_disagreement_count assurance_scores consensus_results].
  set (consensus := Consensus.analyze_consensus _ _ _ ids).
  set (scores := score_all_grants _ grants _ consensus activity).
  assert (Hscore : forall id s, scores !! id = Some s ->
            classification s = "high_assurance" \/
            (classification s = "medium_assurance" /\ auto_certify_eligible s = false) \/
            (classification s = "low_assurance" /\ auto_certify_eligible s = false)).
  { intros id s Hs. subst scores. unfold score_all_grants in Hs.
    apply foldl_insert_lookup in Hs as [Hs|(g & Hg & Hid & ->)];
      [rewrite lookup_empty in Hs; discriminate|].
    apply score_grant_facts. }
  split; [|split; [|split; [|split]]].
  - apply count_values_3. intros id s Hs.
    destruct (Hscore id s Hs) as [->|[[-> _]|[-> _]]]; cbn; auto.
  - apply inj_le. subst scores. unfold score_all_grants. apply foldl_insert_size.
  - split; [apply count_values_size|]. apply count_values_le. intros id s Hs Ha.
    destruct (Hscore id s Hs) as [->|[[_ H]|[_ H]]]; [reflexivity|congruence|congruence].
  - split; [apply count_values_size|].
    etransitivity; [apply count_values_size|]. apply inj_le.
    subst consensus. unfold Consensus.analyze_consensus.
    etransitivity; [apply (foldl_insert_size (fun x => x))|].
    subst ids. now rewrite length_map.
  - intros Hthr. apply count_values_le. intros e c Hc Hlow.
    apply ltb_lt in Hlow. subst consensus.
    rewrite analyze_consensus_lookup in Hc.
    destruct (bool_decide (e ∈ ids)); [|discriminate]. injection Hc as <-.
    pose proof (consensus_for_review (clusterer_config self) (list_of_set rt)
                  (Strategies.run_all_strategies ext (clusterer_config self) M ids
                     strategies) e) as H.
    cbv zeta in H.
    destruct H as [(_ & Hn & _)|[(_ & _ & Hn & _)|[(_ & _ & _ & Hn & _)|(_ & Hs & _)]]];
      try exact Hn.
    exfalso. apply (Qclt_not_le _ _ Hlow).
    now apply Qcle_trans with (consensus_threshold (clusterer_config self)).
Qed.

(** X26. A filter that is not the id of a LOB (no prefix ["lob_"]) and
    not the name of any LOB of the engine selects nobody: [run_analysis]
    returns the empty result instead of failing. *)
Theorem X26_unknown_lob_gives_the_empty_result (name : string) :
  lob_filter = Some name -> Str.truthy name = true ->
  Str.startswith "lob_" name = false ->
  Forall (fun l => Data.l_name l <> Some name) (_lobs self) ->
  filter_employees self lob_filter = [] /\
  run_analysis ext rt self lob_filter strategies block_by_lob = Some empty_result.
Proof.
  intros -> Ht Hp Hl.
  assert (He : filter_employees self (Some name) = []).
  { unfold filter_employees. cbn [Str.otruthy default from_option id]. rewrite Ht, Hp.
    cbn [negb].
    assert (Hf : filter (fun l => Data.l_name l = Some name) (_lobs self) = []).
    { induction Hl as [|l ls Hne _ IH]; [reflexivity|].
      rewrite filter_cons, decide_False by exact Hne. exact IH. }
    rewrite Hf. reflexivity. }
  split; [exact He|]. unfold run_analysis. now rewrite He.
Qed.

End Run.

(** X27. [extract_features] holds features for exactly the ids of the
    employees; the features filed under an id carry that id, the resources
    of the grants of that employee as access set, and usage intensities
    between 0.0 and 1.0 when no 30-day access count is negative. *)
Theorem X27_extract_features_content (ext : Externals) (rt : Runtime)
    (employees : list Data.Employee) (access_grants : list Data.AccessGrant)
    (activity_summaries : list Data.ActivitySummary)
    (teams : list Data.Team) (sub_lobs : list Data.SubLob) (e : string) :
  match (extract_features ext rt employees access_grants activity_summaries
           teams sub_lobs).1 !! e with
  | None => e ∉ map Data.e_id employees
  | Some f =>
    e ∈ map Data.e_id employees /\ PeerProximity.employee_id f = e /\
    (forall r, r ∈ access_set f <->
       exists g, g ∈ access_grants /\ Data.g_employee_id g = e /\
                 Data.g_resource_id g = r) /\
    (Forall (fun a => (0 <= Data.a_access_count_30d a)%Z) activity_summaries ->
     forall r x, activity_vector f !! r = Some x -> 0 ≤ x ≤ 1)
  end.
Proof.
  induction employees as [|emp l IH] using rev_ind.
  - cbn. rewrite lookup_empty. intros H. inversion H.
  - destruct (extract_features_snoc ext rt l emp access_grants activity_summaries
                teams sub_lobs) as (f & k & -> & Hid & _ & _ & _ & Hacc & Hact).
    cbn [fst]. rewrite map_app. cbn [map].
    destruct (decide (Data.e_id emp = e)) as [He|Hne].
    + rewrite He, lookup_insert_eq. split; [apply elem_of_app; right; constructor|].
      split; [congruence|]. split.
      * intros r. rewrite Hacc, He.
        apply (proj1 (access_table_content access_grants e)).
      * intros Hall r x. rewrite Hact, He. now apply activity_vectors_range.
    + rewrite lookup_insert_ne by exact Hne.
      destruct (_ !! e) as [f'|].
      * destruct IH as (Hin & IH). split; [apply elem_of_app; now left|exact IH].
      * intros H. apply elem_of_app in H as [H|H]; [contradiction|].
        apply list_elem_of_singleton in H. congruence.
Qed.

Lemma X26_witness :
  Str.truthy "Finance" = true /\
  Str.startswith "lob_" "Finance" = false /\
  Forall (fun l => Data.l_name l <> Some "Finance")
         (_lobs (EngineSpec.engine_with EngineSpec.quarters)) /\
  filter_employees (EngineSpec.engine_with EngineSpec.quarters) (Some "Finance") = [] /\
  run_analysis EngineSpec.example_library (EngineSpec.on_day 19000)
    (EngineSpec.engine_with EngineSpec.quarters) (Some "Finance") None true
  = Some empty_result.
Proof.
  assert (Hl : Forall (fun l => Data.l_name l <> Some "Finance")
                      (_lobs (EngineSpec.engine_with EngineSpec.quarters)))
    by (repeat constructor; discriminate).
  split; [reflexivity|]. split; [reflexivity|]. split; [exact Hl|].
  exact (X26_unknown_lob_gives_the_empty_result EngineSpec.example_library
           (EngineSpec.on_day 19000) (EngineSpec.engine_with EngineSpec.quarters)
           (Some "Finance") None true "Finance" eq_refl eq_refl eq_refl Hl).
Defined.

End EngineInvariants.

(** ** Properties of the review queries *)

Module ReviewProps.
Import Num NumFacts ClusteringData Assurance Engine PyList PyListFacts Review.
Local Open Scope Qc_scope.

Section Queries.
Variable full_name : Data.Employee -> option string.
Variable self : AnalyticsEngine.
Variable assurance_scores : list (string * AssuranceScore).
Variable consensus_results : gmap string ConsensusResult.

Lemma direct_reports_elem (reviewer e : string) :
  e ∈ direct_reports_of self reviewer <->
  exists emp, emp ∈ _employees self /\ Data.e_id emp = e /\
              Data.e_manager_id emp = Some reviewer.
Proof.
  unfold direct_reports_of. rewrite elem_of_list_to_set, list_elem_of_fmap. split.
  - intros (emp & -> & H). apply list_elem_of_filter in H as [Hm H]. eauto.
  - intros (emp & H & <- & Hm). exists emp. split; [reflexivity|].
    apply list_elem_of_filter. auto.
Qed.

Lemma review_item_of_Some (reports : gset string) (include_auto_certified : bool)
    (entry : string * AssuranceScore) (item : ReviewItem) :
  review_item_of full_name self consensus_results reports include_auto_certified entry
    = Some item ->
  Assurance.employee_id entry.2 ∈ reports /\
  (include_auto_certified = false -> auto_certify_eligible entry.2 = false) /\
  ri_grant_id item = entry.1 /\ ri_employee_id item = Assurance.employee_id entry.2 /\
  ri_resource_id item = resource_id entry.2 /\
  ri_assurance_score item = overall_score entry.2 /\
  ri_classification item = classification entry.2 /\
  ri_auto_certify_eligible item = auto_certify_eligible entry.2.
Proof.
  destruct entry as [id s]. unfold review_item_of. cbn [fst snd].
  destruct (decide (Assurance.employee_id s ∈ reports)) as [Hin|Hin].
  2:{ rewrite bool_decide_eq_false_2 by exact Hin. discriminate. }
  rewrite bool_decide_eq_true_2 by exact Hin. cbn [negb].
  destruct (negb include_auto_certified && auto_certify_eligible s) eqn:E; [discriminate|].
  intros [= <-]. cbn. repeat split; try assumption.
  intros ->. exact E.
Qed.

Lemma review_item_of_is_Some (reports : gset string) (include_auto_certified : bool)
    (entry : string * AssuranceScore) :
  Assurance.employee_id entry.2 ∈ reports ->
  include_auto_certified = true \/ auto_certify_eligible entry.2 = false ->
  is_Some (review_item_of full_name self consensus_results reports
             include_auto_certified entry).
Proof.
  destruct entry as [id s]. unfold review_item_of. cbn [fst snd]. intros Hin Hc.
  rewrite bool_decide_eq_true_2 by exact Hin. cbn [negb].
  destruct Hc as [-> | ->]; [|rewrite andb_false_r]; eauto.
Qed.

(** X28. Every item returned by [get_review_items] presents a score of
    the result that belongs to a direct report of the reviewer, with the
    id, score and classification of that score; without
    [include_auto_certified] no item is eligible for automatic
    certification; and the items are in ascending order of score. *)
Theorem X28_review_items_sound (reviewer_employee_id : string)
    (include_auto_certified : bool) :
  let items := get_review_items full_name self assurance_scores consensus_results
                 reviewer_employee_id include_auto_certified in
  StronglySorted (fun a b => ri_assurance_score a ≤ ri_assurance_score b) items /\
  forall item, item ∈ items ->
    (include_auto_certified = false -> ri_auto_certify_eligible item = false) /\
    exists s emp,
      (ri_grant_id item, s) ∈ assurance_scores /\
      emp ∈ _employees self /\ Data.e_id emp = Assurance.employee_id s /\
      Data.e_manager_id emp = Some reviewer_employee_id /\
      ri_employee_id item = Assurance.employee_id s /\
      ri_resource_id item = resource_id s /\
      ri_assurance_score item = overall_score s /\
      ri_classification item = classification s.
Proof.
  cbv zeta. unfold get_review_items.
  destruct (bool_decide (direct_reports_of self reviewer_employee_id = ∅)).
  { split; [constructor|]. intros item H. inversion H. }
  split; [apply sort_asc_sorted|].
  intros item Hitem. unfold sort_asc in Hitem. rewrite sort_by_perm in Hitem.
  apply list_elem_of_omap in Hitem as ([id s] & Hin & Hsome).
  apply review_item_of_Some in Hsome
    as (Hrep & Hauto & Hid & Hemp & Hres & Hscore & Hclass & Helig).
  cbn [fst snd] in *. apply direct_reports_elem in Hrep as (emp & He & Heid & Hm).
  split; [intros Hinc; rewrite Helig; now apply Hauto|].
  exists s, emp. rewrite Hid. repeat split; assumption.
Qed.

(** X29. No grant of a direct report is left out of the review: every
    score of the result whose employee reports to the reviewer, and that
    is not eligible for automatic certification or is asked for with
    [include_auto_certified], has an item of its id and score. *)
Theorem X29_review_items_complete (reviewer_employee_id : string)
    (include_auto_certified : bool) (id : string) (s : AssuranceScore)
    (emp : Data.Employee) :
  (id, s) ∈ assurance_scores ->
  emp ∈ _employees self -> Data.e_id emp = Assurance.employee_id s ->
  Data.e_manager_id emp = Some reviewer_employee_id ->
  include_auto_certified = true \/ auto_certify_eligible s = false ->
  exists item,
    item ∈ get_review_items full_name self assurance_scores consensus_results
             reviewer_employee_id include_auto_certified /\
    ri_grant_id item = id /\ ri_employee_id item = Assurance.employee_id s /\
    ri_assurance_score item = overall_score s.
Proof.
  intros Hin Hemp Hid Hm Hc.
  assert (Hrep : Assurance.employee_id s ∈ direct_reports_of self reviewer_employee_id).
  { apply direct_reports_elem. eauto. }
  unfold get_review_items.
  rewrite bool_decide_eq_false_2 by (intros E; rewrite E in Hrep; set_solver).
  destruct (review_item_of_is_Some (direct_reports_of self reviewer_employee_id)
              include_auto_certified (id, s) Hrep Hc) as [item Hitem].
  exists item. split.
  - unfold sort_asc. rewrite sort_by_perm. apply list_elem_of_omap. eauto.
  - apply review_item_of_Some in Hitem as (_ & _ & H1 & H2 & _ & H3 & _). auto.
Qed.

(** X30. [get_employee_access_summary] is empty exactly for an id that is
    not an employee of the engine.  Otherwise it lists the scores of the
    employee, each once and in ascending order of score, and counts them:
    no count exceeds the total, and the high, medium and low counts add up
    to the total when every score carries one of the three labels. *)
Theorem X30_access_summary_counts (employee_id : string) :
  match get_employee_access_summary full_name self assurance_scores consensus_results
          employee_id with
  | None => employee_id ∉ map Data.e_id (_employees self)
  | Some a =>
    employee_id ∈ map Data.e_id (_employees self) /\
    as_employee_id a = employee_id /\
    as_total_grants a = Z.of_nat (length (as_grants a)) /\
    StronglySorted (fun x y => gl_score x ≤ gl_score y) (as_grants a) /\
    Permutation (as_grants a)
      (map grant_line_of
         (filter (fun s => Assurance.employee_id s = employee_id)
                 (map snd assurance_scores))) /\
    (0 <= as_auto_certify_eligible a <= as_total_grants a)%Z /\
    (0 <= as_dormant_access_count a <= as_total_grants a)%Z /\
    (Forall (fun e => classification e.2 ∈
               ["high_assurance"; "medium_assurance"; "low_assurance"])
            assurance_scores ->
     (as_high_assurance_count a + as_medium_assurance_count a +
      as_low_assurance_count a = as_total_grants a)%Z)
  end.
Proof.
  unfold get_employee_access_summary, find_employee.
  destruct (list_find _ (_employees self)) as [[i emp]|] eqn:Hf; cbn [fmap option_fmap option_map snd].
  2:{ apply list_find_None in Hf. intros Hin.
      apply list_elem_of_fmap in Hin as (emp & He & Hin).
      rewrite Forall_forall in Hf. now apply (Hf emp Hin). }
  apply list_find_Some in Hf as (Hi & He & _).
  cbn [as_employee_id as_total_grants as_grants as_auto_certify_eligible
       as_dormant_access_count as_high_assurance_count as_medium_assurance_count
       as_low_assurance_count].
  set (grants := filter _ (map snd assurance_scores)).
  split; [apply list_elem_of_fmap; exists emp; split;
          [now symmetry|now apply list_elem_of_lookup_2 in Hi]|].
  split; [reflexivity|].
  split; [unfold sort_asc; now rewrite length_map, sort_by_perm|].
  split.
  { apply (StronglySorted_fmap _ (fun a b => overall_score a ≤ overall_score b));
      [auto|apply sort_asc_sorted]. }
  split; [unfold sort_asc; now rewrite sort_by_perm|].
  assert (Hcount : forall p, (0 <= count_grants p grants <= Z.of_nat (length grants))%Z).
  { intros p. unfold count_grants. split; [lia|]. apply inj_le, length_filter. }
  split; [apply Hcount|]. split; [apply Hcount|].
  intros Hall. unfold count_grants.
  rewrite <- (EngineInvariants.filter_count_3
                (fun g => String.eqb (classification g) "high_assurance")
                (fun g => String.eqb (classification g) "medium_assurance")
                (fun g => String.eqb (classification g) "low_assurance") grants); [lia|].
  intros g Hg. subst grants. apply list_elem_of_filter in Hg as [_ Hg].
  apply list_elem_of_fmap in Hg as ([id s] & -> & Hs).
  rewrite Forall_forall in Hall. specialize (Hall _ Hs). cbn [snd] in *.
  repeat (apply elem_of_cons in Hall as [->|Hall]); [cbn; auto..|inversion Hall].
Qed.

End Queries.

Lemma X29_witness :
  let self := EngineSpec.engine_with EngineSpec.quarters in
  let scores := [("g-e1", Examples.first_score)] in
  let emp := EngineSpec.engineer_row "e1" in
  ("g-e1", Examples.first_score) ∈ scores /\
  emp ∈ _employees self /\
  Data.e_id emp = Assurance.employee_id Examples.first_score /\
  Data.e_manager_id emp = Some "m1" /\
  (true = true \/ auto_certify_eligible Examples.first_score = false) /\
  exists item,
    item ∈ get_review_items (fun _ => Some "An engineer") self scores ∅ "m1" true /\
    ri_grant_id item = "g-e1" /\
    ri_employee_id item = Assurance.employee_id Examples.first_score /\
    ri_assurance_score item = overall_score Examples.first_score.
Proof.
  cbv zeta.
  assert (H1 : ("g-e1", Examples.first_score) ∈ [("g-e1", Examples.first_score)]) by left.
  assert (H2 : EngineSpec.engineer_row "e1"
               ∈ _employees (EngineSpec.engine_with EngineSpec.quarters)) by left.
  assert (H3 : Data.e_id (EngineSpec.engineer_row "e1")
               = Assurance.employee_id Examples.first_score)
    by (vm_compute; reflexivity).
  assert (H4 : Data.e_manager_id (EngineSpec.engineer_row "e1") = Some "m1")
    by reflexivity.
  assert (H5 : true = true \/ auto_certify_eligible Examples.first_score = false)
    by (left; reflexivity).
  split; [exact H1|]. split; [exact H2|]. split; [exact H3|]. split; [exact H4|].
  split; [exact H5|].
  exact (X29_review_items_complete (fun _ => Some "An engineer")
           (EngineSpec.engine_with EngineSpec.quarters)
           [("g-e1", Examples.first_score)] ∅ "m1" true "g-e1" Examples.first_score
           (EngineSpec.engineer_row "e1") H1 H2 H3 H4 H5).
Defined.

End ReviewProps.
